(** * Job orchestration of the PDF-to-Markdown web service (app.py)

    A shallow embedding of the job registry ([processing_status]), the
    worker task ([process_pdf_task]), the thread pool behind
    [pdf_executor], the status and download handlers and the two archive
    builders, followed by the properties established about them.

    Conventions of the embedding.
    - The registry is a finite map from job ids to job records; a job
      record is the Python dict stored under the id, with the keys that
      are added later ('images', 'output_dir', 'error') as options.
    - A path is the list of its components below the working directory
      ('outputs/ab12' is ["outputs"; "ab12"]). A name that is joined to a
      path stands for one component: names holding a separator, '.' or
      '..' are outside the model.
    - The file system is a finite map from paths to nodes. Only the
      failures that the tree itself decides are modelled (a file where a
      directory is needed, a directory where a file is needed, a missing
      entry); full disks and permissions are not.
    - A character of a string stands for one code point below 256.
    - [int] is that of CPython 3.11, with the limit on the number of
      digits that the interpreter starts with (4300).
    - Functions of other packages ([parse_pdf], [secure_filename],
      [uuid4], [datetime.now]) are parameters. Of the exceptions the
      engine can raise, those below [Exception] are modelled. *)

From Stdlib Require Import ZArith Lia Ascii.
From stdpp Require Import gmap strings list fin_maps pretty.

Local Open Scope Z_scope.

(** ** Strings, as Python handles them *)

Module PyStr.

(** [str.isspace] on code points below 256. *)
Definition is_space (a : ascii) : bool :=
  let n := Ascii.nat_of_ascii a in
  bool_decide (n ∈ [9; 10; 11; 12; 13; 28; 29; 30; 31; 32; 133; 160]%nat).

Fixpoint lstrip (s : string) : string :=
  match s with
  | String a s' => if is_space a then lstrip s' else s
  | EmptyString => EmptyString
  end.

(** [rstrip], right to left: a character goes when it is white and all
    that follows it went. *)
Fixpoint rstrip (s : string) : string :=
  match s with
  | String a s' =>
      match rstrip s' with
      | EmptyString => if is_space a then EmptyString else String a EmptyString
      | r => String a r
      end
  | EmptyString => EmptyString
  end.

(** [s.strip()] *)
Definition strip (s : string) : string := rstrip (lstrip s).

(** [s.split(sep)] for a one-character separator: never the empty
    list, [''.split(',')] is ['']. *)
Fixpoint split (sep : ascii) (s : string) : list string :=
  match s with
  | EmptyString => [EmptyString]
  | String a s' =>
      if decide (a = sep) then EmptyString :: split sep s'
      else match split sep s' with
           | w :: ws => String a w :: ws
           | [] => [String a EmptyString]
           end
  end.

Fixpoint starts_with (p s : string) : bool :=
  match p, s with
  | EmptyString, _ => true
  | String a p', String b s' => bool_decide (a = b) && starts_with p' s'
  | String _ _, EmptyString => false
  end.

(** [s.replace(old, '')] for a non-empty [old]: the occurrences are
    found from the left and do not overlap. [skip] counts the
    characters of the current occurrence still to drop. *)
Fixpoint remove_from (old : string) (skip : nat) (s : string) : string :=
  match s with
  | EmptyString => EmptyString
  | String a s' =>
      match skip with
      | S k => remove_from old k s'
      | O => if starts_with old s
             then remove_from old (Nat.pred (String.length old)) s'
             else String a (remove_from old O s')
      end
  end.
Definition remove_all (old s : string) : string := remove_from old O s.

(** [sub in s] *)
Fixpoint contains (sub s : string) : bool :=
  starts_with sub s ||
  match s with
  | EmptyString => false
  | String _ s' => contains sub s'
  end.

(** The white space that [int] skips around a literal: the white
    space of C below code point 128, and the white space above it,
    which [int] turns into blanks before it reads the literal. The
    separators U+001C to U+001F, which [strip] removes, are not among
    them. *)
Definition is_int_space (a : ascii) : bool :=
  let n := Ascii.nat_of_ascii a in
  bool_decide (n ∈ [9; 10; 11; 12; 13; 32; 133; 160]%nat).

Fixpoint skip_int_space (s : string) : string :=
  match s with
  | String a s' => if is_int_space a then skip_int_space s' else s
  | EmptyString => EmptyString
  end.

Fixpoint all_int_space (s : string) : bool :=
  match s with
  | String a s' => is_int_space a && all_int_space s'
  | EmptyString => true
  end.

(** The run of digits at the front of a literal, where single
    underscores may separate digits: its value, the number of its
    digits and what follows it. There is none when the run is empty or
    an underscore stands at its front, at its end or next to another.
    [prev] tells whether the character before was a digit. *)
Fixpoint digit_run (prev : bool) (acc count : Z) (s : string) : option (Z * Z * string) :=
  match s with
  | EmptyString => if prev then Some (acc, count, EmptyString) else None
  | String a s' =>
      match Ascii.is_nat a with
      | Some d => digit_run true (10 * acc + Z.of_nat d) (count + 1) s'
      | None =>
          if bool_decide (a = "_"%char) then
            if prev then digit_run false acc count s' else None
          else if prev then Some (acc, count, s) else None
      end
  end.

(** [sys.get_int_max_str_digits()], as the interpreter starts. *)
Definition int_max_str_digits : Z := 4300.

Inductive int_result :=
  | IntOk (n : Z)
  | IntInvalid
  | IntTooLong (digits : Z).

(** [int(s)] in base 10: white space, a sign, the run of digits, white
    space. The number of digits is checked when the run has been read,
    before what follows it; [IntInvalid] and [IntTooLong] are the two
    ValueErrors. *)
Definition int (s : string) : int_result :=
  let body := skip_int_space s in
  let negative := match body with String "-" _ => true | _ => false end in
  let literal := match body with
                 | String "-" t | String "+" t => t
                 | t => t
                 end in
  match digit_run false 0 0 literal with
  | None => IntInvalid
  | Some (n, count, rest) =>
      if bool_decide (int_max_str_digits < count) then IntTooLong count
      else if all_int_space rest then IntOk (if negative : bool then - n else n)
      else IntInvalid
  end.

End PyStr.

(** ** Data model *)

Definition path := list string.

(** [os.path.join(p, name)] *)
Definition join (p : path) (name : string) : path :=
  if decide (name = "") then p else p ++ [name].

(** [os.path.dirname] and [os.path.basename] *)
Definition dirname (p : path) : path := take (Nat.pred (length p)) p.
Definition basename (p : path) : string := default "" (last p).

(** [p + sfx]: the suffix lands on the last component. *)
Definition add_suffix (p : path) (sfx : string) : path :=
  match last p with
  | Some x => dirname p ++ [x +:+ sfx]
  | None => [sfx]
  end.

Inductive job_status := Queued | Processing | Completed | Failed.

Global Instance job_status_eq_dec : EqDecision job_status.
Proof. solve_decision. Defined.

(** The value stored under 'status'. *)
Definition status_text (s : job_status) : string :=
  match s with
  | Queued => "queued"
  | Processing => "processing"
  | Completed => "completed"
  | Failed => "failed"
  end.

Definition terminal (s : job_status) : bool :=
  match s with Completed | Failed => true | _ => false end.

(** The dict kept per job. *)
Record job := Job {
  job_id : string;
  status : job_status;
  progress : Z;
  message : string;
  pdf_path : path;
  filename : string;
  created_at : string;
  images : option (list string);
  output_dir : option path;
  error : option string
}.

(** One item assignment [processing_status[job_id][key] = value]. *)
Inductive write :=
  | SetStatus (s : job_status)
  | SetMessage (m : string)
  | SetProgress (n : Z)
  | SetFilename (f : string)
  | SetImages (l : list string)
  | SetOutputDir (d : path)
  | SetError (e : string).

Definition apply_write (w : write) (j : job) : job :=
  match w with
  | SetStatus s =>
      Job (job_id j) s (progress j) (message j) (pdf_path j) (filename j)
          (created_at j) (images j) (output_dir j) (error j)
  | SetMessage m =>
      Job (job_id j) (status j) (progress j) m (pdf_path j) (filename j)
          (created_at j) (images j) (output_dir j) (error j)
  | SetProgress n =>
      Job (job_id j) (status j) n (message j) (pdf_path j) (filename j)
          (created_at j) (images j) (output_dir j) (error j)
  | SetFilename f =>
      Job (job_id j) (status j) (progress j) (message j) (pdf_path j) f
          (created_at j) (images j) (output_dir j) (error j)
  | SetImages l =>
      Job (job_id j) (status j) (progress j) (message j) (pdf_path j) (filename j)
          (created_at j) (Some l) (output_dir j) (error j)
  | SetOutputDir d =>
      Job (job_id j) (status j) (progress j) (message j) (pdf_path j) (filename j)
          (created_at j) (images j) (Some d) (error j)
  | SetError e =>
      Job (job_id j) (status j) (progress j) (message j) (pdf_path j) (filename j)
          (created_at j) (images j) (output_dir j) (Some e)
  end.

(** [processing_status] *)
Abbreviation registry := (gmap string job).

(** Exceptions. *)
Inductive exn :=
  | KeyError (key : string)
  | ValueError (literal : string)
  | IntLimitError (digits : Z)  (* the ValueError of [int] for too many digits *)
  | EngineError (text : string)
  | FileExistsError (p : path)
  | FileNotFoundError (p : path)
  | NotADirectoryError (p : path)
  | IsADirectoryError (p : path)
  | SameFileError (p : path).

(** The assignment raises KeyError when the id is not registered. *)
Definition store (id : string) (w : write) (reg : registry) : exn + registry :=
  match reg !! id with
  | Some j => inr (<[id := apply_write w j]> reg)
  | None => inl (KeyError id)
  end.

(** A run of assignments; on an exception the registry is as the
    assignments before it left it. *)
Fixpoint store_all (id : string) (ws : list write) (reg : registry)
  : option exn * registry :=
  match ws with
  | [] => (None, reg)
  | w :: ws' =>
      match store id w reg with
      | inr reg' => store_all id ws' reg'
      | inl e => (Some e, reg)
      end
  end.

(** ** The conversion engine and the worker task *)

Record kwargs := Kwargs {
  kw_pdf_path : path;
  kw_output_dir : path;
  kw_api_key : string;
  kw_model : string;
  kw_gpt_worker : Z;
  kw_base_url : option string
}.

(** What [parse_pdf] does: return the content and the image names, or
    raise; [text] is [str(e)]. *)
Inductive engine_result :=
  | Returned (content : string) (image_paths : list string)
  | Raised (text : string).

Record task_args := TaskArgs {
  ta_job_id : string;
  ta_pdf_path : path;
  ta_filename : string;
  ta_api_key : string;
  ta_base_url : option string;
  ta_model : string;
  ta_gpt_worker : Z;
  ta_output_dir : path
}.

(** [if base_url: kwargs['base_url'] = base_url] *)
Definition task_kwargs (a : task_args) : kwargs :=
  Kwargs (ta_pdf_path a) (ta_output_dir a) (ta_api_key a) (ta_model a)
         (ta_gpt_worker a)
         (match ta_base_url a with
          | Some u => if decide (u = "") then None else Some u
          | None => None
          end).

(** The assignments of [process_pdf_task], in program order. *)
Definition writes_before_engine (a : task_args) : list write :=
  [ SetStatus Processing;
    SetMessage "Converting PDF to Markdown...";
    SetProgress 10;
    SetFilename (ta_filename a);
    SetProgress 30;
    SetMessage "Parsing PDF pages..." ].

Definition writes_on_return (a : task_args) (image_paths : list string) : list write :=
  [ SetProgress 90;
    SetMessage "Finalizing...";
    SetStatus Completed;
    SetProgress 100;
    SetMessage "Conversion complete!";
    SetImages image_paths;
    SetOutputDir (ta_output_dir a) ].

Definition writes_on_exception (text : string) : list write :=
  [ SetStatus Failed;
    SetError text;
    SetMessage ("Error: " +:+ text);
    SetProgress 0 ].

(** [str(e)]. For a KeyError and a ValueError the text holds the repr
    of the key or literal, written here for a string without quotes or
    escapes; for the errors of the file system the text is given up to
    the path that follows it. *)
Definition exn_text (e : exn) : string :=
  match e with
  | EngineError t => t
  | KeyError k => "'" +:+ k +:+ "'"
  | ValueError l => "invalid literal for int() with base 10: '" +:+ l +:+ "'"
  | IntLimitError n =>
      "Exceeds the limit (" +:+ pretty PyStr.int_max_str_digits +:+
      " digits) for integer string conversion: value has " +:+ pretty n +:+
      " digits; use sys.set_int_max_str_digits() to increase the limit"
  | FileExistsError _ => "[Errno 17] File exists"
  | FileNotFoundError _ => "[Errno 2] No such file or directory"
  | NotADirectoryError _ => "[Errno 20] Not a directory"
  | IsADirectoryError _ => "[Errno 21] Is a directory"
  | SameFileError _ => "are the same file"
  end.

Section Worker.

Variable parse_pdf : kwargs → engine_result.

(** All the assignments one task makes when its job is registered. *)
Definition task_writes (a : task_args) : list write :=
  writes_before_engine a ++
  match parse_pdf (task_kwargs a) with
  | Returned _ image_paths => writes_on_return a image_paths
  | Raised text => writes_on_exception text
  end.

(** The body of the [try]. *)
Definition task_try (a : task_args) (reg : registry) : option exn * registry :=
  match store_all (ta_job_id a) (writes_before_engine a) reg with
  | (Some e, reg') => (Some e, reg')
  | (None, reg') =>
      match parse_pdf (task_kwargs a) with
      | Returned _ image_paths =>
          store_all (ta_job_id a) (writes_on_return a image_paths) reg'
      | Raised text => (Some (EngineError text), reg')
      end
  end.

(** [process_pdf_task]: the [try] and its [except Exception]. The
    first component is the exception that leaves the task, if any. *)
Definition process_pdf_task (a : task_args) (reg : registry)
  : option exn * registry :=
  match task_try a reg with
  | (None, reg') => (None, reg')
  | (Some e, reg') =>
      store_all (ta_job_id a) (writes_on_exception (exn_text e)) reg'
  end.

End Worker.

(** ** The thread pool *)

(** [ThreadPoolExecutor(max_workers=5)] *)
Definition max_workers : nat := 5.

(** The record [upload_pdf] stores for a new job. *)
Definition new_job (id : string) (pdf : path) (name : string) (now : string) : job :=
  Job id Queued 0 "Queued..." pdf name now None None None.

(** A task that a worker thread is running: the job it was given and
    the assignments it has still to make. *)
Record running_task := Running { rt_job : string; rt_todo : list write }.

Record pool_state := Pool {
  pool_reg : registry;
  pool_queue : list task_args;
  pool_running : list running_task
}.

Definition pool_init : pool_state := Pool ∅ [] [].

Section Pool.

Variable parse_pdf : kwargs → engine_result.

(** One atomic move of the server. [step_submit] is the registration
    and the [pdf_executor.submit] of [upload_pdf] for one file, with
    an id that [uuid4] has not issued before; [step_start] is a free
    worker thread taking the oldest queued work item; [step_write] is
    a running task making its next assignment; [step_finish] is a task
    returning, which frees its thread. A task whose engine call hangs
    never moves again. *)
Inductive pool_step : pool_state → pool_state → Prop :=
  | step_submit reg queue running a now :
      reg !! ta_job_id a = None →
      pool_step (Pool reg queue running)
                (Pool (<[ta_job_id a :=
                          new_job (ta_job_id a) (ta_pdf_path a) (ta_filename a) now]> reg)
                      (queue ++ [a]) running)
  | step_start reg queue running a :
      (length running < max_workers)%nat →
      pool_step (Pool reg (a :: queue) running)
                (Pool reg queue
                      (running ++ [Running (ta_job_id a) (task_writes parse_pdf a)]))
  | step_write reg reg' queue r1 r2 id w ws :
      store id w reg = inr reg' →
      pool_step (Pool reg queue (r1 ++ Running id (w :: ws) :: r2))
                (Pool reg' queue (r1 ++ Running id ws :: r2))
  | step_finish reg queue r1 r2 id :
      pool_step (Pool reg queue (r1 ++ Running id [] :: r2))
                (Pool reg queue (r1 ++ r2)).

Definition pool_reachable : pool_state → Prop := rtc pool_step pool_init.

End Pool.


(** The status assignments among a run of assignments. *)
Definition status_writes (ws : list write) : list job_status :=
  omap (λ w, match w with SetStatus s => Some s | _ => None end) ws.

(** The arcs of the job state machine. *)
Definition transition (s s' : job_status) : bool :=
  match s, s' with
  | Queued, Processing | Processing, Completed | Processing, Failed => true
  | _, _ => false
  end.

(** What one move may do to the status of a job: nothing, create it as
    queued, or follow an arc. *)
Definition allowed (before after : option job_status) : bool :=
  match before, after with
  | None, None => true
  | None, Some s' => bool_decide (s' = Queued)
  | Some s, Some s' => bool_decide (s = s') || transition s s'
  | Some _, None => false
  end.

Fixpoint lawful_from (cur : option job_status) (l : list (option job_status)) : Prop :=
  match l with
  | [] => True
  | o :: l' => allowed cur o = true ∧ lawful_from o l'
  end.

(** A run of the server: each state follows from the one before. *)
Fixpoint is_run (step : pool_state → pool_state → Prop) (σ : pool_state)
    (tr : list pool_state) : Prop :=
  match tr with
  | [] => True
  | σ' :: tr' => step σ σ' ∧ is_run step σ' tr'
  end.

(** The status of job [id] in each state of a run, [None] while the job
    is not registered. *)
Definition observed (id : string) (tr : list pool_state) : list (option job_status) :=
  (λ σ, status <$> pool_reg σ !! id) <$> tr.

(** The values a status takes on, one after the other: a value that is
    read again unchanged is not repeated. *)
Fixpoint compress_from (last : option job_status) (l : list job_status) : list job_status :=
  match l with
  | [] => []
  | x :: l' =>
      if decide (last = Some x) then compress_from last l'
      else x :: compress_from (Some x) l'
  end.
Definition status_sequence (id : string) (tr : list pool_state) : list job_status :=
  compress_from None (omap (λ o, o) (observed id tr)).

(** How a status sequence can go on after [cur]. *)
Definition continuations (cur : option job_status) : list (list job_status) :=
  match cur with
  | None => [[]; [Queued]; [Queued; Processing]; [Queued; Processing; Completed];
             [Queued; Processing; Failed]]
  | Some Queued => [[]; [Processing]; [Processing; Completed]; [Processing; Failed]]
  | Some Processing => [[]; [Completed]; [Failed]]
  | Some _ => [[]]
  end.

(** The status assignments a job still expects from its task. *)
Definition coherent (s : job_status) (ws : list write) : Prop :=
  match s with
  | Queued => status_writes ws = [Processing; Completed] ∨
              status_writes ws = [Processing; Failed]
  | Processing => status_writes ws = [Completed] ∨ status_writes ws = [Failed]
  | Completed | Failed => status_writes ws = []
  end.

Definition task_ids (σ : pool_state) : list string :=
  (ta_job_id <$> pool_queue σ) ++ (rt_job <$> pool_running σ).

(** The invariant of the pool: every job has at most one task; a job
    whose task waits is queued; a job whose task runs is where the
    assignments made so far put it; a job without task is finished; no
    more tasks run than there are workers. *)
Record pool_inv (σ : pool_state) : Prop := PoolInv {
  inv_nodup : NoDup (task_ids σ);
  inv_queue : ∀ a, a ∈ pool_queue σ →
    ∃ j, pool_reg σ !! ta_job_id a = Some j ∧ status j = Queued;
  inv_running : ∀ t, t ∈ pool_running σ →
    ∃ j, pool_reg σ !! rt_job t = Some j ∧ coherent (status j) (rt_todo t);
  inv_idle : ∀ id j, pool_reg σ !! id = Some j → id ∉ task_ids σ →
    terminal (status j) = true;
  inv_bound : (length (pool_running σ) ≤ max_workers)%nat
}.

(** ** Status queries *)

Inductive response :=
  | Text (body : string) (code : nat)
  | SendFile (file : path) (download_name : string)
  | JsonJob (j : job)
  | JsonJobs (jobs : list job)
  | JsonNotFound
  | JsonError (error : string) (code : nat)
  | Abort (code : nat).

(** [get_status] *)
Definition get_status (reg : registry) (id : string) : response :=
  match reg !! id with
  | None => JsonNotFound
  | Some j => JsonJob j
  end.

(** The loop of [get_batch_status]. *)
Fixpoint collect_statuses (reg : registry) (job_ids : list string) (statuses : list job)
  : list job :=
  match job_ids with
  | [] => statuses
  | id :: rest =>
      match reg !! id with
      | Some j => collect_statuses reg rest (statuses ++ [j])
      | None => collect_statuses reg rest statuses
      end
  end.

(** [get_batch_status]; [job_ids] is the 'job_ids' entry of the JSON
    body, [None] when the body has no such key. *)
Definition get_batch_status (reg : registry) (job_ids : option (list string)) : response :=
  JsonJobs (collect_statuses reg (default [] job_ids) []).

(** ** The file system *)

(** What a file holds: bytes, or an archive with its members (a member
    without content is a directory entry). *)
#[local] Unset Elimination Schemes.
Inductive content :=
  | Raw (bytes : string)
  | Zip (members : list (path * option content)).
#[local] Set Elimination Schemes.

Inductive node := Dir | File (c : content).

Abbreviation filesystem := (gmap path node).

(** The working directory is always there. *)
Definition node_at (fs : filesystem) (p : path) : option node :=
  match p with
  | [] => Some Dir
  | _ => fs !! p
  end.

(** [os.path.exists] *)
Definition path_exists (fs : filesystem) (p : path) : bool :=
  bool_decide (is_Some (node_at fs p)).

(** [below root q] is the rest of [q] after [root], when [q] is [root]
    or lies under it. *)
Fixpoint below (root q : path) : option path :=
  match root, q with
  | [], _ => Some q
  | x :: root', y :: q' => if decide (x = y) then below root' q' else None
  | _ :: _, [] => None
  end.

(** Code that reads and changes the file system and may raise. An
    exception leaves the file system as it was when it was raised. *)
Definition io (A : Type) : Type := filesystem → (exn + A) * filesystem.

Global Instance io_ret : MRet io := λ A a fs, (inr a, fs).
Global Instance io_bind : MBind io := λ A B f m fs,
  match m fs with
  | (inr a, fs') => f a fs'
  | (inl e, fs') => (inl e, fs')
  end.

Definition raise {A} (e : exn) : io A := λ fs, (inl e, fs).

Fixpoint for_each {A} (f : A → io unit) (l : list A) : io unit :=
  match l with
  | [] => mret ()
  | x :: l' => f x ;; for_each f l'
  end.

(** One level of [os.makedirs(_, exist_ok=True)]. *)
Definition mkdir_exist_ok (leaf : bool) (q : path) : io unit := λ fs,
  match node_at fs q with
  | None => (inr (), <[q := Dir]> fs)
  | Some Dir => (inr (), fs)
  | Some (File _) =>
      (inl (if leaf then FileExistsError q else NotADirectoryError q), fs)
  end.

Fixpoint makedirs_from (above : path) (rest : list string) : io unit :=
  match rest with
  | [] => mret ()
  | x :: rest' =>
      mkdir_exist_ok (bool_decide (rest' = [])) (above ++ [x]) ;;
      makedirs_from (above ++ [x]) rest'
  end.

(** [os.makedirs(p, exist_ok=True)] *)
Definition makedirs (p : path) : io unit := makedirs_from [] p.

(** Writing a file at [dst]. *)
Definition write_file (dst : path) (c : content) : io unit := λ fs,
  match node_at fs dst with
  | Some Dir => (inl (IsADirectoryError dst), fs)
  | _ =>
      match node_at fs (dirname dst) with
      | Some Dir => (inr (), <[dst := File c]> fs)
      | Some (File _) => (inl (NotADirectoryError dst), fs)
      | None => (inl (FileNotFoundError dst), fs)
      end
  end.

(** [shutil.copy2(src, dst)] *)
Definition copy2 (src dst : path) : io unit := λ fs,
  match node_at fs src with
  | None => (inl (FileNotFoundError src), fs)
  | Some Dir => (inl (IsADirectoryError src), fs)
  | Some (File c) =>
      let dst' := match node_at fs dst with
                  | Some Dir => join dst (basename src)
                  | _ => dst
                  end in
      if decide (src = dst') then (inl (SameFileError src), fs)
      else write_file dst' c fs
  end.

(** [shutil.rmtree(p)] *)
Definition rmtree (p : path) : io unit := λ fs,
  match node_at fs p with
  | None => (inl (FileNotFoundError p), fs)
  | Some (File _) => (inl (NotADirectoryError p), fs)
  | Some Dir => (inr (), filter (λ kv, below p kv.1 = None) fs)
  end.

(** The members of an archive of [root]: what lies strictly under it,
    named relative to it. *)
Definition archive_member (root : path) (kv : path * node)
  : option (path * option content) :=
  match below root kv.1 with
  | Some (x :: rel) =>
      Some (x :: rel, match kv.2 with Dir => None | File c => Some c end)
  | _ => None
  end.

Definition archive_members (fs : filesystem) (root : path)
  : list (path * option content) :=
  omap (archive_member root) (map_to_list fs).

(** [shutil.make_archive(base, 'zip', root)]: creates the directory of
    the archive when missing and writes [base + '.zip']. *)
Definition make_archive (base root : path) : io unit := λ fs,
  match node_at fs root with
  | None => (inl (FileNotFoundError root), fs)
  | Some (File _) => (inl (NotADirectoryError root), fs)
  | Some Dir =>
      ((if path_exists fs (dirname base) then mret () else makedirs (dirname base)) ;;
       write_file (add_suffix base ".zip") (Zip (archive_members fs root))) fs
  end.

(** [send_file(p, as_attachment=True, download_name=name)] *)
Definition send_file (p : path) (name : string) : io response := λ fs,
  match node_at fs p with
  | Some (File _) => (inr (SendFile p name), fs)
  | Some Dir => (inl (IsADirectoryError p), fs)
  | None => (inl (FileNotFoundError p), fs)
  end.

(** [send_from_directory(d, name, as_attachment=True)]: not-found
    unless the joined path is a regular file. *)
Definition send_from_directory (d : path) (name : string) : io response := λ fs,
  match node_at fs (join d name) with
  | Some (File _) => (inr (SendFile (join d name) name), fs)
  | _ => (inr (Abort 404), fs)
  end.

(** What the client receives for a response. *)
Definition body_of (fs : filesystem) (r : response) : option content :=
  match r with
  | SendFile p _ => match node_at fs p with Some (File c) => Some c | _ => None end
  | _ => None
  end.

Definition OUTPUT_FOLDER : path := ["outputs"].
Definition UPLOAD_FOLDER : path := ["uploads"].

(** ** Downloads *)

(** [status['output_dir']] *)
Definition get_output_dir (j : job) : io path :=
  match output_dir j with
  | Some d => mret d
  | None => raise (KeyError "output_dir")
  end.

(** [os.path.exists], as a step. *)
Definition exists_ (p : path) : io bool := λ fs, (inr (path_exists fs p), fs).

(** [if os.path.exists(src): shutil.copy2(src, dst)]; tells whether it
    copied. *)
Definition copy_if_exists (src dst : path) : io bool :=
  found ← exists_ src;
  if found : bool then copy2 src dst ;; mret true else mret false.

(** The loop over [status['images']]. *)
Definition copy_images (j : job) (from to : path) : io unit :=
  for_each (λ img, copy_if_exists (join from img) (join to img) ;; mret ())
           (default [] (images j)).

(** [download_markdown] *)
Definition download_markdown (reg : registry) (id : string) : io response :=
  match reg !! id with
  | None => mret (Text "Job not found" 404)
  | Some j =>
      if decide (status j = Completed) then
        d ← get_output_dir j;
        let markdown_path := join d "output.md" in
        found ← exists_ markdown_path;
        if found : bool then send_file markdown_path "output.md"
        else mret (Text "Markdown file not found" 404)
      else mret (Text "Job not completed" 400)
  end.

(** [download_image] *)
Definition download_image (reg : registry) (id image_name : string) : io response :=
  match reg !! id with
  | None => mret (Text "Job not found" 404)
  | Some j =>
      if decide (status j = Completed) then
        d ← get_output_dir j;
        send_from_directory d image_name
      else mret (Text "Job not completed" 400)
  end.

(** [download_package] *)
Definition download_package (reg : registry) (id : string) : io response :=
  match reg !! id with
  | None => mret (Text "Job not found" 404)
  | Some j =>
      if decide (status j = Completed) then
        d ← get_output_dir j;
        let name := PyStr.remove_all ".pdf" (filename j) in
        let package_dir := join OUTPUT_FOLDER (id +:+ "_package") in
        makedirs package_dir ;;
        let images_dir := join package_dir "images" in
        makedirs images_dir ;;
        copy_if_exists (join d "output.md") (join package_dir (name +:+ ".md")) ;;
        copy_images j d images_dir ;;
        let zip_path := join OUTPUT_FOLDER (id +:+ "_package") in
        make_archive zip_path package_dir ;;
        rmtree package_dir ;;
        send_file (add_suffix zip_path ".zip") (name +:+ "_complete.zip")
      else mret (Text "Job not completed" 400)
  end.

(** The [while os.path.exists(...)] loop of [download_all_pdfs], with
    its variables [pdf_folder_name] and [counter]. The loop ends, as the
    file system is finite: [fuel] bounds the rounds, and
    [unique_folder_name_free] shows that with the bound used the loop
    always ends by its own test. *)
Fixpoint folder_name_loop (fuel : nat) (fs : filesystem) (batch_dir : path)
    (name pdf_folder_name : string) (counter : nat) : string :=
  match fuel with
  | O => pdf_folder_name
  | S fuel' =>
      if path_exists fs (join batch_dir pdf_folder_name)
      then folder_name_loop fuel' fs batch_dir name
             (name +:+ "_" +:+ pretty counter) (S counter)
      else pdf_folder_name
  end.

Definition unique_folder_name (batch_dir : path) (name : string) : io string :=
  λ fs, (inr (folder_name_loop (S (S (size fs))) fs batch_dir name name 1), fs).

(** [status.get('filename', 'document').replace('.pdf', '').replace('.PDF', '')];
    every record has the key 'filename'. *)
Definition batch_name (j : job) : string :=
  PyStr.remove_all ".PDF" (PyStr.remove_all ".pdf" (filename j)).

(** The loop state of [download_all_pdfs]: [processed_count], and (not
    in the program) the folder given to each job staged so far. *)
Record batch_state := BatchState {
  processed_count : nat;
  staged : list (string * string)
}.

(** One round of the loop over [job_ids]. *)
Definition batch_round (reg : registry) (batch_dir : path) (st : batch_state)
    (raw_id : string) : io batch_state :=
  let id := PyStr.strip raw_id in
  if decide (id = "") then mret st else
  match reg !! id with
  | None => mret st
  | Some j =>
      if decide (status j = Completed) then
        d ← get_output_dir j;
        let name := batch_name j in
        pdf_folder_name ← unique_folder_name batch_dir name;
        let pdf_folder := join batch_dir pdf_folder_name in
        makedirs pdf_folder ;;
        let images_folder := join pdf_folder "images" in
        makedirs images_folder ;;
        copied ← copy_if_exists (join d "output.md") (join pdf_folder (name +:+ ".md"));
        copy_images j d images_folder ;;
        mret (BatchState
                (if copied : bool then S (processed_count st) else processed_count st)
                (staged st ++ [(id, pdf_folder_name)]))
      else mret st
  end.

Fixpoint batch_rounds (reg : registry) (batch_dir : path) (st : batch_state)
    (job_ids : list string) : io batch_state :=
  match job_ids with
  | [] => mret st
  | raw_id :: rest =>
      st' ← batch_round reg batch_dir st raw_id;
      batch_rounds reg batch_dir st' rest
  end.

(** [batch_{batch_id}] under the output folder; [uuid] is what
    [uuid4] returned. *)
Definition batch_dir_of (uuid : string) : path :=
  join OUTPUT_FOLDER ("batch_" +:+ String.substring 0 8 uuid).
Definition batch_zip_of (uuid : string) : path :=
  join OUTPUT_FOLDER ("all_pdfs_" +:+ String.substring 0 8 uuid).

(** The body of the [try] of [download_all_pdfs] after the check of the
    argument. *)
Definition batch_build (reg : registry) (uuid : string) (job_ids : list string)
  : io response :=
  let batch_dir := batch_dir_of uuid in
  makedirs batch_dir ;;
  st ← batch_rounds reg batch_dir (BatchState 0 []) job_ids;
  if decide (processed_count st = 0%nat) then
    rmtree batch_dir ;;
    mret (Text "No completed PDFs found to download" 404)
  else
    let zip_path := batch_zip_of uuid in
    make_archive zip_path batch_dir ;;
    rmtree batch_dir ;;
    send_file (add_suffix zip_path ".zip")
      ("all_converted_pdfs_" +:+ pretty (processed_count st) +:+ "_files.zip").

(** [download_all_pdfs]; [arg] is the 'job_ids' query argument. *)
Definition download_all_pdfs (reg : registry) (uuid : string) (arg : option string)
  : filesystem → response * filesystem := λ fs,
  let job_ids := PyStr.split "," (default "" arg) in
  if decide (job_ids = [""]) then (Text "No jobs specified" 400, fs) else
  match batch_build reg uuid job_ids fs with
  | (inr r, fs') => (r, fs')
  | (inl e, fs') =>
      (Text ("Error creating batch download: " +:+ exn_text e) 500, fs')
  end.

(** ** Submission *)

Record upload_file := UploadFile { uf_filename : string; uf_data : string }.

(** The request of [upload_pdf]: the files under 'pdfs' (none when the
    key is missing) and the form fields, [None] when not sent. *)
Record upload_request := UploadRequest {
  req_pdfs : list upload_file;
  req_api_key : option string;
  req_base_url : option string;
  req_model : option string;
  req_gpt_worker : option string;
  req_max_parallel : option string
}.

Inductive upload_response :=
  | UploadOk (job_ids : list string) (count : nat)
  | UploadError (error : string).

(** What a submission acts on: the registry, the file system, the work
    handed to [pdf_executor] so far, and the number of ids drawn. *)
Record server := Server {
  srv_reg : registry;
  srv_fs : filesystem;
  srv_submitted : list task_args;
  srv_drawn : nat
}.

(** [int(request.form.get(key, default))] *)
Definition form_int (field : option string) (default : Z) : exn + Z :=
  match field with
  | None => inr default
  | Some s => match PyStr.int s with
              | PyStr.IntOk n => inr n
              | PyStr.IntInvalid => inl (ValueError s)
              | PyStr.IntTooLong n => inl (IntLimitError n)
              end
  end.

Section Upload.

Variable secure_filename : string → string.
(** The id and the time stamp of the n-th job created. *)
Variable uuid4 : nat → string.
Variable now : nat → string.

(** [pdf_file.save(pdf_path)] and [os.makedirs(output_dir)] *)
Definition store_upload (pdf : path) (data : string) (out : path) : io unit :=
  write_file pdf (Raw data) ;; makedirs out.

(** One round of the loop over [pdf_files]. *)
Definition upload_one (api_key : string) (base_url : option string) (model : string)
    (gpt_worker : Z) (f : upload_file) (job_ids : list string) (srv : server)
  : (exn + list string) * server :=
  if decide (uf_filename f = "") then (inr job_ids, srv) else
  let id := uuid4 (srv_drawn srv) in
  let name := secure_filename (uf_filename f) in
  let pdf := join UPLOAD_FOLDER (id +:+ "_" +:+ name) in
  let out := join OUTPUT_FOLDER id in
  match store_upload pdf (uf_data f) out (srv_fs srv) with
  | (inl e, fs') =>
      (inl e, Server (srv_reg srv) fs' (srv_submitted srv) (S (srv_drawn srv)))
  | (inr _, fs') =>
      (inr (job_ids ++ [id]),
       Server (<[id := new_job id pdf name (now (srv_drawn srv))]> (srv_reg srv))
              fs'
              (srv_submitted srv ++
                 [TaskArgs id pdf name api_key base_url model gpt_worker out])
              (S (srv_drawn srv)))
  end.

Fixpoint upload_all (api_key : string) (base_url : option string) (model : string)
    (gpt_worker : Z) (fs : list upload_file) (job_ids : list string) (srv : server)
  : (exn + list string) * server :=
  match fs with
  | [] => (inr job_ids, srv)
  | f :: rest =>
      match upload_one api_key base_url model gpt_worker f job_ids srv with
      | (inr job_ids', srv') =>
          upload_all api_key base_url model gpt_worker rest job_ids' srv'
      | (inl e, srv') => (inl e, srv')
      end
  end.

(** [upload_pdf] *)
Definition upload_pdf (req : upload_request) (srv : server)
  : upload_response * server :=
  match req_pdfs req with
  | [] => (UploadError "No PDF files provided", srv)
  | first :: _ =>
      if decide (uf_filename first = "") then (UploadError "No files selected", srv)
      else
        match req_api_key req with
        | None | Some "" => (UploadError "API key is required", srv)
        | Some api_key =>
            let base_url := req_base_url req in
            let model := default "gpt-4o" (req_model req) in
            match form_int (req_gpt_worker req) 1 with
            | inl e => (UploadError (exn_text e), srv)
            | inr gpt_worker =>
                match form_int (req_max_parallel req) 3 with
                | inl e => (UploadError (exn_text e), srv)
                | inr max_parallel =>
                    match upload_all api_key base_url model gpt_worker
                                     (req_pdfs req) [] srv with
                    | (inr job_ids, srv') =>
                        (UploadOk job_ids (length job_ids), srv')
                    | (inl e, srv') => (UploadError (exn_text e), srv')
                    end
                end
            end
        end
  end.

End Upload.

(** [req] with another value of the 'max_parallel' field. *)
Definition with_max_parallel (req : upload_request) (v : option string) : upload_request :=
  UploadRequest (req_pdfs req) (req_api_key req) (req_base_url req) (req_model req)
                (req_gpt_worker req) v.

(** The assignments to 'status', 'progress', 'images' and 'error'. *)
Definition checkpoint (w : write) : bool :=
  match w with
  | SetStatus _ | SetProgress _ | SetImages _ | SetError _ => true
  | _ => false
  end.
Definition checkpoints (ws : list write) : list write := filter (λ w, checkpoint w = true) ws.

(** ** Notions used in the statements *)

(** The names the folder loop tries, in order: [name], [name_1], ... *)
Definition folder_candidate (name : string) (k : nat) : string :=
  match k with
  | O => name
  | S _ => name +:+ "_" +:+ pretty k
  end.

(** "The filename with the extension stripped", in the words of the
    specification: [os.path.splitext(name)[0]], the name up to its last
    dot, dots at the very front not counting. [has_inner_dot] tells
    whether a later dot follows. *)
Fixpoint has_inner_dot (seen_other : bool) (s : string) : bool :=
  match s with
  | EmptyString => false
  | String a s' =>
      if bool_decide (a = "."%char) then seen_other || has_inner_dot seen_other s'
      else has_inner_dot true s'
  end.
Fixpoint strip_extension_from (seen_other : bool) (s : string) : string :=
  match s with
  | EmptyString => EmptyString
  | String a s' =>
      if bool_decide (a = "."%char) then
        if seen_other && negb (has_inner_dot true s') then EmptyString
        else String a (strip_extension_from seen_other s')
      else String a (strip_extension_from true s')
  end.
Definition strip_extension (name : string) : string := strip_extension_from false name.


(** A requested id is staged: it names a completed job. *)
Definition is_staged (reg : registry) (raw_id : string) : bool :=
  let id := PyStr.strip raw_id in
  match reg !! id with
  | Some j => bool_decide (id ≠ "") && bool_decide (status j = Completed)
  | None => false
  end.

Definition is_dir (n : node) : bool := match n with Dir => true | File _ => false end.

(** [fs'] has what [fs] has, directories as directories and files as
    files. *)
Definition extends (fs fs' : filesystem) : Prop :=
  ∀ p n, fs !! p = Some n → ∃ n', fs' !! p = Some n' ∧ is_dir n' = is_dir n.

(** [fs'] differs from [fs] at most at paths in [S]. *)
Definition touches (S : path → Prop) (fs fs' : filesystem) : Prop :=
  ∀ p, ¬ S p → fs' !! p = fs !! p.

(** [p] and the directories above it are directories. *)
Definition dirs_to (p : path) (fs : filesystem) : Prop :=
  ∀ k, node_at fs (take k p) = Some Dir.

(** [p] is [root] or lies under it. *)
Definition under (root p : path) : Prop := is_Some (below root p).

(** Neither path is the other or lies under it. *)
Definition apart (p q : path) : Prop := below p q = None ∧ below q p = None.


(** The folders given so far are directories, each at its own path. *)
Definition folders_ok (bd : path) (st : batch_state) (fs : filesystem) : Prop :=
  Forall (λ e, node_at fs (join bd e.2) = Some Dir) (staged st) ∧
  NoDup (join bd <$> (staged st).*2).

Definition folder_of (reg : registry) (bd : path) (fs : filesystem)
    (e : string * string) : Prop :=
  ∃ j k, reg !! e.1 = Some j ∧ status j = Completed ∧
         e.2 = folder_candidate (batch_name j) k ∧
         ∀ i, (i < k)%nat →
              path_exists fs (join bd (folder_candidate (batch_name j) i)) = true.

(** The paths a build may change: the staging directory with what is
    above and below it, and the archive. *)
Definition build_area (root zip : path) (q : path) : Prop :=
  q `prefix_of` root ∨ under root q ∨ q = zip.

Definition package_dir_of (id : string) : path := join OUTPUT_FOLDER (id +:+ "_package").
Definition package_zip_of (id : string) : path :=
  add_suffix (join OUTPUT_FOLDER (id +:+ "_package")) ".zip".
Definition batch_archive_of (uuid : string) : path := add_suffix (batch_zip_of uuid) ".zip".

(** The answer of a batch build that found nothing to send. *)
Definition Empty : response := Text "No completed PDFs found to download" 404.


(** ** Sample states *)

Module Sample.

(** A job as [upload_pdf] registers it. *)
Definition queued : job :=
  new_job "j1" ["uploads"; "j1_paper.pdf"] "paper.pdf" "2024-05-01T10:00:00".

(** A job as a successful task leaves it. *)
Definition completed (id name : string) (imgs : list string) : job :=
  Job id Completed 100 "Conversion complete!" ["uploads"; id +:+ "_" +:+ name] name
      "2024-05-01T10:00:00" (Some imgs) (Some ["outputs"; id]) None.

Definition done1 : job := completed "j1" "paper.pdf" ["0_0.png"].
Definition done2 : job := completed "j2" "paper.pdf" [].

(** The output folder with the results of two jobs; the first job has
    a file that its record does not list. *)
Definition disk : filesystem :=
  list_to_map
    [ (["outputs"], Dir);
      (["outputs"; "j1"], Dir);
      (["outputs"; "j1"; "output.md"], File (Raw "# Paper"));
      (["outputs"; "j1"; "0_0.png"], File (Raw "PNG0"));
      (["outputs"; "j1"; "0.png"], File (Raw "PAGE0"));
      (["outputs"; "j2"], Dir);
      (["outputs"; "j2"; "output.md"], File (Raw "# Paper, again")) ].

Definition args (id : string) : task_args :=
  TaskArgs id ["uploads"; id +:+ "_paper.pdf"] "paper.pdf" "sk-key" None "gpt-4o" 1
           ["outputs"; id].

(** A submission of one file, and a server that has seen none. *)
Definition request (max_parallel : option string) : upload_request :=
  UploadRequest [UploadFile "paper.pdf" "%PDF-1.7"] (Some "sk-key") None (Some "gpt-4o")
                (Some "2") max_parallel.

Definition fresh_server : server :=
  Server ∅ (list_to_map [ (["uploads"], Dir); (["outputs"], Dir) ]) [] 0.

Definition uuid4 (n : nat) : string := "job-" +:+ pretty n.
Definition now (n : nat) : string := "2024-05-01T10:00:0" +:+ pretty n.

(** A run of the pool: one submission, a worker taking the task, and
    the first assignment of the task. *)
Definition engine (_ : kwargs) : engine_result := Returned "# Paper" ["0_0.png"].
Definition reg1 : registry := <["j1" := queued]> ∅.
Definition reg2 : registry := <["j1" := apply_write (SetStatus Processing) queued]> reg1.
Definition pool1 : pool_state := Pool reg1 ([] ++ [args "j1"]) [].
Definition pool2 : pool_state :=
  Pool reg1 [] ([] ++ [Running "j1" (task_writes engine (args "j1"))]).
Definition pool3 : pool_state :=
  Pool reg2 [] ([] ++ Running "j1" (tail (task_writes engine (args "j1"))) :: []).

(** Two finished jobs whose files have the same name, and a job
    whose file has a doubled extension. *)
Definition finished : registry :=
  <["j1" := done1]> (<["j2" := done2]> (<["j3" := completed "j3" "scan.pdf.pdf" []]> ∅)).

Definition staging : path := ["outputs"; "batch_0f8fad5b"].
Definition staging_disk : filesystem := <[staging := Dir]> disk.

(** The record of a job between the assignment of status completed
    and the assignment of 'output_dir'. *)
Definition torn : job :=
  foldl (λ r w, apply_write w r) queued (take 9 (task_writes engine (args "j1"))).

(** A finished job that lists a folder among its images. *)
Definition with_folder : job :=
  Job "j4" Completed 100 "Conversion complete!" ["uploads"; "j4_paper.pdf"] "paper.pdf"
      "2024-05-01T10:00:00" (Some ["figures"]) (Some ["outputs"; "j4"]) None.
Definition folder_disk : filesystem :=
  list_to_map
    [ (["outputs"], Dir);
      (["outputs"; "j4"], Dir);
      (["outputs"; "j4"; "output.md"], File (Raw "# Paper"));
      (["outputs"; "j4"; "figures"], Dir) ].

Definition uuid : string := "0f8fad5b-d9cb-469f-a165-70867728950e".

(** The pool when the task of the job has made all its assignments
    and returned, with an engine that returns and with one that raises. *)
Definition pool_done : pool_state :=
  Pool {["j1" := foldl (λ r w, apply_write w r) queued (task_writes engine (args "j1"))]}
       [] [].
Definition failing (_ : kwargs) : engine_result := Raised "no pages".
Definition pool_failed : pool_state :=
  Pool {["j1" := foldl (λ r w, apply_write w r) queued (task_writes failing (args "j1"))]}
       [] [].

(** A worker that takes the first job of a request while the request
    is still handled. *)
Definition early_worker : list (list (string * write)) :=
  [[("job-0", SetStatus Processing)]].

(** A literal that [strip] would clean and [int] rejects. *)
Definition separator_seven : string := String (Ascii.ascii_of_nat 31) "7".

(** The literal of [n] ones. *)
Fixpoint ones (n : nat) : string :=
  match n with
  | O => EmptyString
  | S n' => String "1" (ones n')
  end.

End Sample.

(** The values of 'max_parallel' that [int] accepts; a field that is
    not sent counts as 3. *)
Definition max_parallel_accepted (v : option string) : Prop :=
  ∃ n, form_int v 3 = inr n.

(** ** Further handlers and notions *)

(** One entry of the answer of [debug_jobs]. *)
Record job_info := JobInfo {
  info_status : job_status;
  info_filename : string;
  info_progress : Z;
  has_output_dir : bool
}.

(** [debug_jobs]: 'total_jobs' and 'jobs'. *)
Definition debug_jobs (reg : registry) : nat * gmap string job_info :=
  (size reg,
   (λ j, JobInfo (status j) (filename j) (progress j)
                 (bool_decide (is_Some (output_dir j)))) <$> reg).

(** The records of a job after each of a run of assignments. *)
Fixpoint records_after (ws : list write) (j : job) : list job :=
  match ws with
  | [] => []
  | w :: ws' => apply_write w j :: records_after ws' (apply_write w j)
  end.

(** The status that a run of assignments leaves, from [s]. *)
Definition status_after (s : job_status) (ws : list write) : job_status :=
  foldl (λ s w, match w with SetStatus s' => s' | _ => s end) s ws.

(** The keys that come late agree with the status: 'error' only on a
    failed job, 'images' and 'output_dir' only on a completed one. *)
Definition fields_agree (j : job) : Prop :=
  (is_Some (error j) → status j = Failed) ∧
  (is_Some (images j) → status j = Completed) ∧
  (is_Some (output_dir j) → status j = Completed).

(** In a run of assignments made from status [s], 'error' is assigned
    on a failed job only, 'images' and 'output_dir' on a completed one. *)
Fixpoint late_keys_ok (s : job_status) (ws : list write) : Prop :=
  match ws with
  | [] => True
  | w :: ws' =>
      match w with
      | SetError _ => s = Failed
      | SetImages _ | SetOutputDir _ => s = Completed
      | _ => True
      end ∧
      late_keys_ok (match w with SetStatus s' => s' | _ => s end) ws'
  end.

(** A running task is at some point of the program of its job, and the
    job has the status that the assignments made so far gave it. *)
Definition at_point (parse_pdf : kwargs → engine_result) (reg : registry)
    (t : running_task) : Prop :=
  ∃ a n j, rt_todo t = drop n (task_writes parse_pdf a) ∧
           reg !! rt_job t = Some j ∧
           status j = status_after Queued (take n (task_writes parse_pdf a)).

Record pool_fields_inv (parse_pdf : kwargs → engine_result) (σ : pool_state) : Prop :=
  PoolFieldsInv {
    pf_pool : pool_inv σ;
    pf_fields : ∀ id j, pool_reg σ !! id = Some j → fields_agree j;
    pf_point : ∀ t, t ∈ pool_running σ → at_point parse_pdf (pool_reg σ) t
  }.

(** The files of a request that the loop of [upload_pdf] does not skip. *)
Definition named_files (fs : list upload_file) : list upload_file :=
  filter (λ f, uf_filename f ≠ "") fs.

(** The work item that [upload_pdf] submits for the file [f] when it
    draws the [k]-th id for it. *)
Definition task_for (secure_filename : string → string) (uuid4 : nat → string)
    (api_key : string) (base_url : option string) (model : string) (gpt_worker : Z)
    (k : nat) (f : upload_file) : task_args :=
  TaskArgs (uuid4 k)
           (join UPLOAD_FOLDER (uuid4 k +:+ "_" +:+ secure_filename (uf_filename f)))
           (secure_filename (uf_filename f))
           api_key base_url model gpt_worker
           (join OUTPUT_FOLDER (uuid4 k)).

(** A submitted work item is ready to run: its job is registered as
    queued, its upload is a file on disk and its output directory is
    there. *)
Definition task_ready (srv : server) (a : task_args) : Prop :=
  (∃ j, srv_reg srv !! ta_job_id a = Some j ∧ job_id j = ta_job_id a ∧
        status j = Queued ∧ progress j = 0) ∧
  (∃ c, srv_fs srv !! ta_pdf_path a = Some (File c)) ∧
  node_at (srv_fs srv) (ta_output_dir a) = Some Dir.

(** ** Workers during a submission *)

(** The item assignments that worker threads make while a request is
    handled, in the order in which they happen; each names the job and
    the assignment. Workers assign only to registered jobs: an entry
    for an id that is not registered is no move of a worker and is
    passed over. *)
Definition worker_moves (ws : list (string * write)) (reg : registry) : registry :=
  foldl (λ r m, match store m.1 m.2 r with inr r' => r' | inl _ => r end) reg ws.

Definition with_reg (f : registry → registry) (srv : server) : server :=
  Server (f (srv_reg srv)) (srv_fs srv) (srv_submitted srv) (srv_drawn srv).

Section UploadAmongWorkers.

Variable secure_filename : string → string.
Variable uuid4 : nat → string.
Variable now : nat → string.

(** The loop over [pdf_files] with the pool at work: [submit] is called
    inside the loop, so the workers run while the later files are
    handled. [sched] lists, round by round, what the workers assign
    after the round and before the next one (after the last round:
    before the handler returns). *)
Fixpoint upload_all_among (sched : list (list (string * write)))
    (api_key : string) (base_url : option string) (model : string) (gpt_worker : Z)
    (fs : list upload_file) (job_ids : list string) (srv : server)
  : (exn + list string) * server :=
  match fs with
  | [] => (inr job_ids, srv)
  | f :: rest =>
      match upload_one secure_filename uuid4 now api_key base_url model gpt_worker
                       f job_ids srv with
      | (inr job_ids', srv') =>
          upload_all_among (tail sched) api_key base_url model gpt_worker rest job_ids'
                           (with_reg (worker_moves (hd [] sched)) srv')
      | (inl e, srv') => (inl e, srv')
      end
  end.

(** [upload_pdf] with the pool at work. *)
Definition upload_pdf_among (sched : list (list (string * write)))
    (req : upload_request) (srv : server) : upload_response * server :=
  match req_pdfs req with
  | [] => (UploadError "No PDF files provided", srv)
  | first :: _ =>
      if decide (uf_filename first = "") then (UploadError "No files selected", srv)
      else
        match req_api_key req with
        | None | Some "" => (UploadError "API key is required", srv)
        | Some api_key =>
            let base_url := req_base_url req in
            let model := default "gpt-4o" (req_model req) in
            match form_int (req_gpt_worker req) 1 with
            | inl e => (UploadError (exn_text e), srv)
            | inr gpt_worker =>
                match form_int (req_max_parallel req) 3 with
                | inl e => (UploadError (exn_text e), srv)
                | inr max_parallel =>
                    match upload_all_among sched api_key base_url model gpt_worker
                                           (req_pdfs req) [] srv with
                    | (inr job_ids, srv') =>
                        (UploadOk job_ids (length job_ids), srv')
                    | (inl e, srv') => (UploadError (exn_text e), srv')
                    end
                end
            end
        end
  end.

End UploadAmongWorkers.

(** A work item has been handed over: its job is registered under its
    id, its upload is a file on disk and its output directory is
    there. *)
Definition task_handed (srv : server) (a : task_args) : Prop :=
  (∃ j, srv_reg srv !! ta_job_id a = Some j ∧ job_id j = ta_job_id a) ∧
  (∃ c, srv_fs srv !! ta_pdf_path a = Some (File c)) ∧
  node_at (srv_fs srv) (ta_output_dir a) = Some Dir.

(** * Properties *)

(** Unfolding of the plumbing of [io]. *)
Ltac io_unfold :=
  repeat (progress (unfold mbind, mret, io_bind, io_ret, raise, exists_ in *; cbn beta iota in *)).

(** ** Batch status *)

Lemma collect_statuses_acc reg job_ids statuses :
  collect_statuses reg job_ids statuses = statuses ++ omap (λ id, reg !! id) job_ids.
Proof.
  revert statuses. induction job_ids as [|id rest IH]; intros statuses; simpl.
  - by rewrite app_nil_r.
  - destruct (reg !! id) as [j|]; rewrite IH; [|done].
    by rewrite <- app_assoc.
Qed.

(** C6. A batch status query answers with the records of the requested
    ids that are registered, in the order of the request; an id that is
    not registered contributes nothing, and the answer is never an
    error. *)
Theorem get_batch_status_omits_unknown (reg : registry) (job_ids : list string) :
  get_batch_status reg (Some job_ids) = JsonJobs (omap (λ id, reg !! id) job_ids).
Proof. unfold get_batch_status. simpl. by rewrite collect_statuses_acc. Qed.

(** ** Content download *)

Lemma download_markdown_absent (reg : registry) id fs :
  reg !! id = None → download_markdown reg id fs = (inr (Text "Job not found" 404), fs).
Proof. intros H. unfold download_markdown. by rewrite H. Qed.

Lemma download_markdown_not_ready (reg : registry) id j fs :
  reg !! id = Some j → status j ≠ Completed →
  download_markdown reg id fs = (inr (Text "Job not completed" 400), fs).
Proof.
  intros H Hs. unfold download_markdown. rewrite H.
  destruct (decide (status j = Completed)); [done|reflexivity].
Qed.

Lemma download_markdown_sent (reg : registry) id fs p name fs' :
  download_markdown reg id fs = (inr (SendFile p name), fs') →
  ∃ j d c, reg !! id = Some j ∧ status j = Completed ∧ output_dir j = Some d ∧
           p = join d "output.md" ∧ name = "output.md" ∧ fs' = fs ∧
           node_at fs p = Some (File c).
Proof.
  unfold download_markdown. destruct (reg !! id) as [j|] eqn:Hj; [|by io_unfold].
  destruct (decide (status j = Completed)) as [Hs|]; [|by io_unfold].
  unfold get_output_dir. destruct (output_dir j) as [d|] eqn:Hd; [|by io_unfold].
  io_unfold. destruct (path_exists fs (join d "output.md")); [|discriminate].
  unfold send_file.
  destruct (node_at fs (join d "output.md")) as [[|c]|] eqn:Hn; try discriminate.
  intros [= <- <- <-]. by exists j, d, c.
Qed.

(** C7, as the code has it. A content download for an id that is not
    registered is answered 404 "Job not found"; for a job that is queued,
    processing or failed it is answered 400 with the fixed text "Job not
    completed", the same for the three statuses; the content file is sent
    only for a job that is completed, from its output directory. *)
Theorem download_markdown_cases (reg : registry) (id : string) (fs : filesystem) :
  (reg !! id = None →
     download_markdown reg id fs = (inr (Text "Job not found" 404), fs)) ∧
  (∀ j, reg !! id = Some j → status j ≠ Completed →
     download_markdown reg id fs = (inr (Text "Job not completed" 400), fs)) ∧
  (∀ p name fs', download_markdown reg id fs = (inr (SendFile p name), fs') →
     ∃ j d c, reg !! id = Some j ∧ status j = Completed ∧ output_dir j = Some d ∧
              p = join d "output.md" ∧ node_at fs p = Some (File c)).
Proof.
  split; [apply download_markdown_absent|].
  split; [intros j; apply download_markdown_not_ready|].
  intros p name fs' H.
  destruct (download_markdown_sent _ _ _ _ _ _ H) as (j & d & c & ? & ? & ? & ? & ? & ? & ?).
  by exists j, d, c.
Qed.

Lemma download_markdown_cases_witness :
  download_markdown {["j1" := Sample.queued]} "j1" Sample.disk
    = (inr (Text "Job not completed" 400), Sample.disk) ∧
  download_markdown {["j1" := Sample.queued]} "j9" Sample.disk
    = (inr (Text "Job not found" 404), Sample.disk).
Proof.
  split.
  - apply (proj1 (proj2 (download_markdown_cases {["j1" := Sample.queued]} "j1" Sample.disk))
             Sample.queued); [reflexivity | discriminate].
  - apply (proj1 (download_markdown_cases {["j1" := Sample.queued]} "j9" Sample.disk)).
    reflexivity.
Defined.

(** The answer for a queued job does not hold the job's status. *)
Lemma download_markdown_status_not_included :
  ∃ body, download_markdown {["j1" := Sample.queued]} "j1" ∅ = (inr (Text body 400), ∅) ∧
          PyStr.contains (status_text (status Sample.queued)) body = false.
Proof. exists "Job not completed". split; reflexivity. Qed.

(** ** Single-artifact download *)

(** C9, as the code has it. For a completed job whose record has its
    'output_dir', the artifact download sends the file of the requested
    name from that directory whenever such a file is there, and answers
    not-found (404) otherwise; for a completed job whose record has no
    'output_dir' yet it raises KeyError, whatever is on disk. The 'images'
    list of the record plays no part: the answer is the same whatever
    that list holds. *)
Theorem download_image_ignores_artifacts
    (reg : registry) (id image_name : string) (j : job) (fs : filesystem) :
  reg !! id = Some j → status j = Completed →
  (∀ d, output_dir j = Some d →
     (∀ c, node_at fs (join d image_name) = Some (File c) →
        download_image reg id image_name fs
          = (inr (SendFile (join d image_name) image_name), fs) ∧
        body_of fs (SendFile (join d image_name) image_name) = Some c) ∧
     ((∀ c, node_at fs (join d image_name) ≠ Some (File c)) →
        download_image reg id image_name fs = (inr (Abort 404), fs))) ∧
  (output_dir j = None →
     download_image reg id image_name fs = (inl (KeyError "output_dir"), fs)) ∧
  (∀ l, download_image (<[id := apply_write (SetImages l) j]> reg) id image_name fs
        = download_image reg id image_name fs).
Proof.
  intros Hj Hs.
  assert (download_image reg id image_name fs
          = match output_dir j with
            | Some d => send_from_directory d image_name fs
            | None => (inl (KeyError "output_dir"), fs)
            end) as Hrun.
  { unfold download_image. rewrite Hj. rewrite decide_True by done.
    unfold get_output_dir. by destruct (output_dir j). }
  split; [|split].
  - intros d Hd. rewrite Hrun, Hd. unfold send_from_directory. split.
    + intros c Hn. rewrite Hn. split; [done|]. simpl. by rewrite Hn.
    + intros Hn. destruct (node_at fs (join d image_name)) as [[|c]|] eqn:E; [done| |done].
      by destruct (Hn c).
  - intros Hd. by rewrite Hrun, Hd.
  - intros l. rewrite Hrun. unfold download_image. rewrite lookup_insert_eq. simpl.
    rewrite decide_True by done. unfold get_output_dir. simpl.
    by destruct (output_dir j).
Qed.

Lemma download_image_ignores_artifacts_witness :
  ("0.png" ∉ default [] (images Sample.done1)) ∧
  download_image {["j1" := Sample.done1]} "j1" "0.png" Sample.disk
    = (inr (SendFile ["outputs"; "j1"; "0.png"] "0.png"), Sample.disk) ∧
  body_of Sample.disk (SendFile ["outputs"; "j1"; "0.png"] "0.png") = Some (Raw "PAGE0") ∧
  download_image {["j1" := Sample.done1]} "j1" "1.png" Sample.disk
    = (inr (Abort 404), Sample.disk).
Proof.
  split.
  - simpl. intros H. apply list_elem_of_singleton in H. discriminate.
  - pose proof (download_image_ignores_artifacts {["j1" := Sample.done1]} "j1" "0.png"
                  Sample.done1 Sample.disk eq_refl eq_refl) as (H & _).
    destruct (H ["outputs"; "j1"] eq_refl) as (Hfile & _).
    destruct (Hfile (Raw "PAGE0") eq_refl) as [H1 H2].
    split; [exact H1|]. split; [exact H2|].
    pose proof (download_image_ignores_artifacts {["j1" := Sample.done1]} "j1" "1.png"
                  Sample.done1 Sample.disk eq_refl eq_refl) as (H' & _).
    destruct (H' ["outputs"; "j1"] eq_refl) as (_ & Hnone).
    apply Hnone. intros c. vm_compute. discriminate.
Defined.

(** ** The worker task *)

Lemma store_present (reg : registry) id w j :
  reg !! id = Some j → store id w reg = inr (<[id := apply_write w j]> reg).
Proof. intros H. unfold store. by rewrite H. Qed.

(** On a registered job a run of assignments cannot raise: it rewrites
    the record of the job and nothing else. *)
Lemma store_all_present ws : ∀ (reg : registry) id j,
  reg !! id = Some j →
  store_all id ws reg = (None, <[id := foldl (λ r w, apply_write w r) j ws]> reg).
Proof.
  induction ws as [|w ws IH]; intros reg id j Hj; simpl.
  - by rewrite insert_id.
  - rewrite (store_present _ _ _ _ Hj).
    rewrite (IH _ id (apply_write w j)); [|by rewrite lookup_insert_eq].
    by rewrite insert_insert_eq.
Qed.

Lemma store_all_app id ws1 ws2 (reg : registry) :
  store_all id (ws1 ++ ws2) reg =
  match store_all id ws1 reg with
  | (None, reg') => store_all id ws2 reg'
  | (Some e, reg') => (Some e, reg')
  end.
Proof.
  revert reg. induction ws1 as [|w ws1 IH]; intros reg; simpl; [done|].
  destruct (store id w reg); [done|]. apply IH.
Qed.

Section WorkerFacts.

Variable parse_pdf : kwargs → engine_result.

(** With the job registered, the task is the run of its assignments,
    and no exception leaves it. *)
Lemma process_pdf_task_writes (a : task_args) (reg : registry) j :
  reg !! ta_job_id a = Some j →
  process_pdf_task parse_pdf a reg = store_all (ta_job_id a) (task_writes parse_pdf a) reg ∧
  process_pdf_task parse_pdf a reg =
    (None, <[ta_job_id a := foldl (λ r w, apply_write w r) j (task_writes parse_pdf a)]> reg).
Proof.
  intros Hj.
  assert (process_pdf_task parse_pdf a reg
          = store_all (ta_job_id a) (task_writes parse_pdf a) reg) as Heq.
  { unfold process_pdf_task, task_try, task_writes. rewrite store_all_app.
    rewrite (store_all_present (writes_before_engine a) _ _ _ Hj).
    destruct (parse_pdf (task_kwargs a)) as [c imgs|text].
    - erewrite store_all_present; [done|by rewrite lookup_insert_eq].
    - done. }
  split; [exact Heq|]. rewrite Heq. by apply store_all_present.
Qed.

(** C4, as the code has it. For a registered job the task assigns, in
    this order, status processing, progress 10 and progress 30; when
    the engine returns, progress 90, status completed, progress 100
    and the returned names as 'images'; when the engine raises, status
    failed, 'error' equal to the text of the exception (empty when that
    text is empty) and progress 0, with a message that holds the text.
    No exception leaves the task, and no other record of the registry
    changes. *)
Theorem process_pdf_task_protocol (a : task_args) (reg : registry) (j : job) :
  reg !! ta_job_id a = Some j →
  ∃ j', process_pdf_task parse_pdf a reg = (None, <[ta_job_id a := j']> reg) ∧
        j' = foldl (λ r w, apply_write w r) j (task_writes parse_pdf a) ∧
        match parse_pdf (task_kwargs a) with
        | Returned _ image_paths =>
            checkpoints (task_writes parse_pdf a) =
              [SetStatus Processing; SetProgress 10; SetProgress 30;
               SetProgress 90; SetStatus Completed; SetProgress 100;
               SetImages image_paths] ∧
            status j' = Completed ∧ progress j' = 100 ∧
            images j' = Some image_paths ∧ error j' = error j
        | Raised text =>
            checkpoints (task_writes parse_pdf a) =
              [SetStatus Processing; SetProgress 10; SetProgress 30;
               SetStatus Failed; SetError text; SetProgress 0] ∧
            status j' = Failed ∧ progress j' = 0 ∧
            error j' = Some text ∧ message j' = "Error: " +:+ text
        end.
Proof.
  intros Hj. destruct (process_pdf_task_writes a reg j Hj) as [_ Hrun].
  eexists. split; [exact Hrun|]. split; [reflexivity|].
  unfold task_writes. destruct (parse_pdf (task_kwargs a)) as [c imgs|text];
    repeat split; reflexivity.
Qed.

End WorkerFacts.

Lemma process_pdf_task_protocol_witness :
  ∃ j', process_pdf_task (λ _, Returned "# Paper" ["0_0.png"]) (Sample.args "j1")
          {["j1" := Sample.queued]} = (None, {["j1" := j']}) ∧
        status j' = Completed ∧ progress j' = 100 ∧ images j' = Some ["0_0.png"].
Proof.
  assert (({["j1" := Sample.queued]} : registry) !! ta_job_id (Sample.args "j1")
          = Some Sample.queued) as Hj by reflexivity.
  destruct (process_pdf_task_protocol (λ _, Returned "# Paper" ["0_0.png"])
              (Sample.args "j1") {["j1" := Sample.queued]} Sample.queued Hj)
    as (j' & Hrun & _ & _ & Hs & Hp & Hi & _).
  exists j'. rewrite insert_singleton_eq in Hrun. done.
Defined.

(** An engine exception without text leaves an empty 'error'. *)
Lemma process_pdf_task_empty_error :
  ∃ j', process_pdf_task (λ _, Raised "") (Sample.args "j1") {["j1" := Sample.queued]}
          = (None, {["j1" := j']}) ∧
        status j' = Failed ∧ error j' = Some "".
Proof.
  eexists. split; [|split]; [vm_compute; reflexivity | reflexivity | reflexivity].
Qed.

(** ** [int] *)

(** [int] on some literals, with the answers of the interpreter: white
    space around the literal, a sign, single underscores between
    digits; the separator U+001F is not white space for [int]; the
    limit on the digits is checked before what follows the digits, and
    after the underscores. *)
Lemma int_samples :
  PyStr.int " 7 " = PyStr.IntOk 7 ∧
  PyStr.int "-7" = PyStr.IntOk (-7) ∧
  PyStr.int "+7" = PyStr.IntOk 7 ∧
  PyStr.int "0007" = PyStr.IntOk 7 ∧
  PyStr.int "1_000" = PyStr.IntOk 1000 ∧
  PyStr.int (String (Ascii.ascii_of_nat 160) "7") = PyStr.IntOk 7 ∧
  PyStr.int ("7" +:+ String (Ascii.ascii_of_nat 133) "") = PyStr.IntOk 7 ∧
  PyStr.int Sample.separator_seven = PyStr.IntInvalid ∧
  PyStr.int ("7" +:+ String (Ascii.ascii_of_nat 28) "") = PyStr.IntInvalid ∧
  PyStr.int "- 7" = PyStr.IntInvalid ∧
  PyStr.int "1__0" = PyStr.IntInvalid ∧
  PyStr.int "_1" = PyStr.IntInvalid ∧
  PyStr.int "1_" = PyStr.IntInvalid ∧
  PyStr.int "" = PyStr.IntInvalid ∧
  PyStr.int "+" = PyStr.IntInvalid ∧
  PyStr.int "abc" = PyStr.IntInvalid ∧
  match PyStr.int (Sample.ones 4300) with PyStr.IntOk _ => True | _ => False end ∧
  PyStr.int (Sample.ones 4301) = PyStr.IntTooLong 4301 ∧
  PyStr.int ("-" +:+ Sample.ones 4301) = PyStr.IntTooLong 4301 ∧
  PyStr.int (Sample.ones 4301 +:+ "x") = PyStr.IntTooLong 4301 ∧
  PyStr.int (Sample.ones 4301 +:+ "_") = PyStr.IntInvalid.
Proof. repeat split; vm_compute; reflexivity. Qed.

(** A value of a form field that [int] rejects for its digits makes
    the submission fail with the text of that ValueError. *)
Lemma form_int_samples :
  form_int None 3 = inr 3 ∧
  form_int (Some "5") 3 = inr 5 ∧
  form_int (Some Sample.separator_seven) 3 = inl (ValueError Sample.separator_seven) ∧
  form_int (Some (Sample.ones 4301)) 3 = inl (IntLimitError 4301) ∧
  exn_text (IntLimitError 4301)
    = "Exceeds the limit (4300 digits) for integer string conversion: value has 4301 digits; use sys.set_int_max_str_digits() to increase the limit".
Proof. repeat split; vm_compute; reflexivity. Qed.

(** ** Submission and the 'max_parallel' field *)

(** C10, as the code has it. Two submissions that differ only in the
    'max_parallel' field leave the same registry, file system and
    submitted work and get the same answer, provided [int] accepts both
    values (or the field is not sent); the pool keeps its 5 workers. *)
Theorem upload_pdf_ignores_max_parallel
    (secure_filename : string → string) (uuid4 now : nat → string)
    (req : upload_request) (srv : server) (v1 v2 : option string) :
  max_parallel_accepted v1 → max_parallel_accepted v2 →
  upload_pdf secure_filename uuid4 now (with_max_parallel req v1) srv
    = upload_pdf secure_filename uuid4 now (with_max_parallel req v2) srv
  ∧ max_workers = 5%nat.
Proof.
  intros [n1 H1] [n2 H2]. split; [|reflexivity].
  unfold upload_pdf, with_max_parallel. simpl. rewrite H1, H2. reflexivity.
Qed.

Lemma upload_pdf_ignores_max_parallel_witness :
  upload_pdf id Sample.uuid4 Sample.now (Sample.request (Some "1")) Sample.fresh_server
    = upload_pdf id Sample.uuid4 Sample.now (Sample.request None) Sample.fresh_server.
Proof.
  apply (upload_pdf_ignores_max_parallel id Sample.uuid4 Sample.now
           (Sample.request (Some "5")) Sample.fresh_server (Some "1") None).
  - exists 1. reflexivity.
  - exists 3. reflexivity.
Defined.

(** A value that [int] rejects changes the outcome: the submission is
    refused and no job is created, while the same submission with
    'max_parallel' 3 creates one. *)
Lemma upload_pdf_max_parallel_rejected :
  (upload_pdf id Sample.uuid4 Sample.now (Sample.request (Some "abc")) Sample.fresh_server).1
    = UploadError "invalid literal for int() with base 10: 'abc'" ∧
  srv_reg (upload_pdf id Sample.uuid4 Sample.now (Sample.request (Some "abc"))
             Sample.fresh_server).2 = ∅ ∧
  (upload_pdf id Sample.uuid4 Sample.now (Sample.request (Some "3")) Sample.fresh_server).1
    = UploadOk ["job-0"] 1 ∧
  srv_reg (upload_pdf id Sample.uuid4 Sample.now (Sample.request (Some "3"))
             Sample.fresh_server).2 !! "job-0"
    = Some (new_job "job-0" ["uploads"; "job-0_paper.pdf"] "paper.pdf" "2024-05-01T10:00:00").
Proof. repeat split; vm_compute; reflexivity. Qed.

(** ** The pool and the job state machine *)

Lemma NoDup_mid {A} (l1 l2 : list A) (x : A) :
  NoDup (l1 ++ x :: l2) → (x ∉ l1) ∧ (x ∉ l2) ∧ NoDup (l1 ++ l2).
Proof.
  intros H. apply NoDup_app in H as (H1 & H2 & H3).
  apply NoDup_cons in H3 as [H3 H4].
  split; [|split; [done|]].
  - intros Hx. apply (H2 x Hx). by left.
  - apply NoDup_app. split; [done|]. split; [|done].
    intros y Hy Hy2. apply (H2 y Hy). by right.
Qed.

Lemma status_apply_write w j :
  status (apply_write w j) = match w with SetStatus s => s | _ => status j end.
Proof. by destruct w. Qed.

Lemma allowed_refl o : allowed o o = true.
Proof. destruct o as [s|]; [|done]. simpl. by rewrite bool_decide_eq_true_2. Qed.

Lemma status_writes_cons w ws :
  status_writes (w :: ws) =
  match w with SetStatus s => s :: status_writes ws | _ => status_writes ws end.
Proof. by destruct w. Qed.

Lemma coherent_next s w ws :
  coherent s (w :: ws) →
  coherent (match w with SetStatus s' => s' | _ => s end) ws ∧
  allowed (Some s) (Some (match w with SetStatus s' => s' | _ => s end)) = true.
Proof.
  unfold coherent. rewrite status_writes_cons.
  destruct w as [s'| | | | | |];
    try (intros H; split; [exact H|apply allowed_refl]).
  destruct s; intros H.
  - destruct H as [H|H]; injection H as -> H; (split; [|reflexivity]); simpl; rewrite H; auto.
  - destruct H as [H|H]; injection H as -> H; (split; [|reflexivity]); simpl; exact H.
  - discriminate.
  - discriminate.
Qed.

Lemma coherent_done s : coherent s [] → terminal s = true.
Proof. destruct s; simpl; [intros [|]; discriminate..|done|done]. Qed.

Section PoolFacts.

Variable parse_pdf : kwargs → engine_result.

Lemma task_writes_coherent a : coherent Queued (task_writes parse_pdf a).
Proof.
  unfold coherent, task_writes, status_writes.
  destruct (parse_pdf (task_kwargs a)); simpl; auto.
Qed.

Lemma pool_inv_init : pool_inv pool_init.
Proof.
  split; simpl.
  - constructor.
  - intros a Ha. by apply not_elem_of_nil in Ha.
  - intros t Ht. by apply not_elem_of_nil in Ht.
  - intros id j Hj. by rewrite lookup_empty in Hj.
  - lia.
Qed.

(** Every task belongs to a registered job. *)
Lemma task_id_registered σ id :
  pool_inv σ → id ∈ task_ids σ → is_Some (pool_reg σ !! id).
Proof.
  intros Hinv Hin. unfold task_ids in Hin. apply elem_of_app in Hin as [Hin|Hin];
    apply list_elem_of_fmap in Hin as (x & -> & Hx).
  - destruct (inv_queue _ Hinv x Hx) as (j & Hj & _). by rewrite Hj.
  - destruct (inv_running _ Hinv x Hx) as (j & Hj & _). by rewrite Hj.
Qed.

Lemma pool_inv_step σ σ' : pool_inv σ → pool_step parse_pdf σ σ' → pool_inv σ'.
Proof.
  intros Hinv Hstep.
  destruct Hstep as [reg queue running a now Hfresh
                    |reg queue running a Hfree
                    |reg reg' queue r1 r2 id w ws Hstore
                    |reg queue r1 r2 id].
  - (* submit *)
    assert (ta_job_id a ∉ task_ids (Pool reg queue running)) as Hnew.
    { intros Hin. apply (task_id_registered _ _ Hinv) in Hin. simpl in Hin.
      rewrite Hfresh in Hin. by destruct Hin. }
    destruct Hinv as [Hnd Hq Hr Hi Hb]. simpl in *. unfold task_ids in *. simpl in *.
    split; simpl; unfold task_ids; simpl.
    + rewrite fmap_app. simpl.
      eapply (NoDup_Permutation_proper _ (ta_job_id a :: (ta_job_id <$> queue) ++ (rt_job <$> running))).
      { rewrite <- app_assoc. simpl. by rewrite Permutation_middle. }
      by apply NoDup_cons.
    + intros a' Ha'. apply elem_of_app in Ha' as [Ha'|Ha'].
      * destruct (Hq a' Ha') as (j & Hj & Hs). exists j. split; [|done].
        rewrite lookup_insert_ne; [done|]. intros Heq. rewrite <- Heq in Hj. congruence.
      * apply list_elem_of_singleton in Ha' as ->. eexists.
        split; [apply lookup_insert_eq|done].
    + intros t Ht. destruct (Hr t Ht) as (j & Hj & Hc). exists j. split; [|done].
      rewrite lookup_insert_ne; [done|]. intros Heq. rewrite <- Heq in Hj. congruence.
    + intros id j Hj Hnot.
      assert (id ≠ ta_job_id a) as Hne.
      { intros ->. apply Hnot. rewrite fmap_app. simpl.
        rewrite !elem_of_app, list_elem_of_singleton. tauto. }
      rewrite lookup_insert_ne in Hj by done. apply (Hi id j Hj).
      intros Hin. apply Hnot. rewrite fmap_app.
      rewrite !elem_of_app in *. tauto.
    + done.
  - (* start *)
    destruct Hinv as [Hnd Hq Hr Hi Hb]. simpl in *. unfold task_ids in *. simpl in *.
    assert (∀ id : string,
              id ∈ (ta_job_id <$> queue) ++ (rt_job <$> running ++ [Running (ta_job_id a) (task_writes parse_pdf a)])
              ↔ id ∈ ta_job_id a :: (ta_job_id <$> queue) ++ (rt_job <$> running)) as Hsame.
    { intros id. rewrite fmap_app. simpl.
      rewrite elem_of_cons, !elem_of_app, list_elem_of_singleton. tauto. }
    split; simpl; unfold task_ids; simpl.
    + eapply (NoDup_Permutation_proper _ (ta_job_id a :: (ta_job_id <$> queue) ++ (rt_job <$> running))); [|done].
      rewrite fmap_app. simpl. rewrite app_assoc. by rewrite <- Permutation_cons_append.
    + intros a' Ha'. apply Hq. by right.
    + intros t Ht. apply elem_of_app in Ht as [Ht|Ht]; [by apply Hr|].
      apply list_elem_of_singleton in Ht as ->. simpl.
      destruct (Hq a) as (j & Hj & Hs); [by left|].
      exists j. split; [done|]. rewrite Hs. apply task_writes_coherent.
    + intros id j Hj Hnot. apply (Hi id j Hj). intros Hin. apply Hnot. by apply Hsame.
    + rewrite length_app. simpl. lia.
  - (* write *)
    destruct Hinv as [Hnd Hq Hr Hi Hb]. simpl in *. unfold task_ids in *. simpl in *.
    unfold store in Hstore. destruct (reg !! id) as [j0|] eqn:Hj0; [|discriminate].
    injection Hstore as <-.
    rewrite fmap_app in Hnd. simpl in Hnd. rewrite app_assoc in Hnd.
    pose proof (NoDup_mid _ _ _ Hnd) as (Hid1 & Hid2 & _).
    rewrite <- app_assoc in Hnd.
    split; simpl; unfold task_ids; simpl.
    + rewrite fmap_app. simpl. done.
    + intros a Ha. destruct (Hq a Ha) as (j & Hj & Hs). exists j. split; [|done].
      rewrite lookup_insert_ne; [done|]. intros Heq. apply Hid1. rewrite Heq.
      apply elem_of_app. left. by apply list_elem_of_fmap_2.
    + intros t Ht. apply elem_of_app in Ht as [Ht|Ht].
      * destruct (Hr t) as (j & Hj & Hc); [apply elem_of_app; by left|].
        exists j. split; [|done]. rewrite lookup_insert_ne; [done|].
        intros Heq. apply Hid1. rewrite Heq. apply elem_of_app. right.
        by apply list_elem_of_fmap_2.
      * apply elem_of_cons in Ht as [->|Ht].
        -- simpl. exists (apply_write w j0). split; [apply lookup_insert_eq|].
           destruct (Hr (Running id (w :: ws))) as (j & Hj & Hc);
             [apply elem_of_app; right; by left|].
           simpl in *. rewrite Hj0 in Hj. injection Hj as <-.
           rewrite status_apply_write. by apply coherent_next.
        -- destruct (Hr t) as (j & Hj & Hc); [apply elem_of_app; right; by right|].
           exists j. split; [|done]. rewrite lookup_insert_ne; [done|].
           intros Heq. apply Hid2. rewrite Heq. by apply list_elem_of_fmap_2.
    + intros id' j Hj Hnot.
      assert (id' ≠ id) as Hne.
      { intros ->. apply Hnot. rewrite fmap_app. simpl.
        rewrite !elem_of_app, elem_of_cons. tauto. }
      rewrite lookup_insert_ne in Hj by done. apply (Hi id' j Hj).
      intros Hin. apply Hnot. rewrite fmap_app in *. simpl in *. done.
    + rewrite length_app in *. simpl in *. done.
  - (* finish *)
    destruct Hinv as [Hnd Hq Hr Hi Hb]. simpl in *. unfold task_ids in *. simpl in *.
    rewrite fmap_app in Hnd. simpl in Hnd. rewrite app_assoc in Hnd.
    pose proof (NoDup_mid _ _ _ Hnd) as (Hid1 & Hid2 & Hnd').
    split; simpl; unfold task_ids; simpl.
    + rewrite fmap_app. by rewrite app_assoc.
    + done.
    + intros t Ht. apply Hr. apply elem_of_app in Ht as [Ht|Ht];
        apply elem_of_app; [by left|right; by right].
    + intros id' j Hj Hnot.
      destruct (decide (id' = id)) as [->|Hne].
      * destruct (Hr (Running id [])) as (j' & Hj' & Hc);
          [apply elem_of_app; right; by left|].
        simpl in *. rewrite Hj in Hj'. injection Hj' as <-. by apply coherent_done.
      * apply (Hi id' j Hj). intros Hin. apply Hnot.
        rewrite fmap_app in *. simpl in Hin.
        rewrite !elem_of_app, ?elem_of_cons in *. tauto.
    + rewrite length_app in *. simpl in *. lia.
Qed.

Lemma pool_inv_reachable σ : pool_reachable parse_pdf σ → pool_inv σ.
Proof.
  unfold pool_reachable. revert σ.
  apply (rtc_ind_r (R := pool_step parse_pdf) pool_inv pool_init); [apply pool_inv_init|].
  intros σ1 σ2 _ Hstep Hinv. by apply (pool_inv_step σ1).
Qed.

End PoolFacts.

Lemma lawful_continuations l : ∀ cur,
  lawful_from cur l → compress_from cur (omap (λ o, o) l) ∈ continuations cur.
Proof.
  induction l as [|o l IH]; intros cur H.
  - destruct cur as [[]|]; simpl; by left.
  - destruct H as [Ha Hl]. specialize (IH o Hl).
    change (omap (λ o, o) (o :: l))
      with (match o with Some x => x :: omap (λ o, o) l | None => omap (λ o, o) l end).
    remember (omap (λ o, o) l) as rest eqn:Hrest. clear Hrest Hl.
    destruct cur as [s|], o as [s'|]; simpl in Ha; try discriminate.
    + destruct s, s'; try discriminate; simpl in *; try exact IH;
        repeat (apply elem_of_cons in IH as [->|IH]);
        try (by apply not_elem_of_nil in IH);
        repeat first [by left | right].
    + apply bool_decide_eq_true in Ha as ->. simpl in *.
      repeat (apply elem_of_cons in IH as [->|IH]);
        try (by apply not_elem_of_nil in IH);
        repeat first [by left | right].
    + exact IH.
Qed.

Lemma continuations_sublist l :
  l ∈ continuations None →
  l `sublist_of` [Queued; Processing; Completed] ∨
  l `sublist_of` [Queued; Processing; Failed].
Proof.
  simpl. intros H.
  repeat (apply elem_of_cons in H as [->|H]); try (by apply not_elem_of_nil in H);
    try (left; repeat first [apply sublist_nil | apply sublist_skip | apply sublist_cons]; fail).
  right. repeat first [apply sublist_nil | apply sublist_skip | apply sublist_cons].
Qed.

Section Lifecycle.

Variable parse_pdf : kwargs → engine_result.

(** One move changes the status of a job along an arc or not at all. *)
Lemma pool_step_allowed σ σ' id :
  pool_inv σ → pool_step parse_pdf σ σ' →
  allowed (status <$> pool_reg σ !! id) (status <$> pool_reg σ' !! id) = true.
Proof.
  intros Hinv Hstep.
  destruct Hstep as [reg queue running a now Hfresh
                    |reg queue running a Hfree
                    |reg reg' queue r1 r2 id' w ws Hstore
                    |reg queue r1 r2 id']; simpl; try apply allowed_refl.
  - destruct (decide (id = ta_job_id a)) as [->|Hne].
    + by rewrite Hfresh, lookup_insert_eq.
    + rewrite lookup_insert_ne by done. apply allowed_refl.
  - unfold store in Hstore. destruct (reg !! id') as [j0|] eqn:Hj0; [|discriminate].
    injection Hstore as <-.
    destruct (decide (id = id')) as [->|Hne].
    + rewrite Hj0, lookup_insert_eq. simpl. rewrite status_apply_write.
      destruct (inv_running _ Hinv (Running id' (w :: ws))) as (j & Hj & Hc).
      { simpl. apply elem_of_app. right. by left. }
      simpl in *. rewrite Hj0 in Hj. injection Hj as <-.
      by apply coherent_next in Hc as [_ Hc].
    + rewrite lookup_insert_ne by done. apply allowed_refl.
Qed.

Lemma run_lawful id tr : ∀ σ,
  pool_inv σ → is_run (pool_step parse_pdf) σ tr →
  lawful_from (status <$> pool_reg σ !! id) (observed id tr).
Proof.
  induction tr as [|σ' tr IH]; intros σ Hinv Hrun; [done|].
  destruct Hrun as [Hstep Hrun]. simpl. split.
  - by apply pool_step_allowed.
  - apply IH; [|done]. by apply (pool_inv_step parse_pdf σ).
Qed.

(** C5. Along every run of the server from its start, the status of a
    job changes only by the arcs queued to processing, processing to
    completed and processing to failed, a job enters the registry as
    queued, and so the values its status takes on form a subsequence
    of queued, processing, completed or of queued, processing, failed:
    nothing leaves completed or failed, and nothing passes by
    processing. *)
Theorem job_status_sequence (id : string) (tr : list pool_state) :
  is_run (pool_step parse_pdf) pool_init tr →
  lawful_from None (observed id tr) ∧
  (status_sequence id tr `sublist_of` [Queued; Processing; Completed] ∨
   status_sequence id tr `sublist_of` [Queued; Processing; Failed]).
Proof.
  intros Hrun.
  assert (lawful_from None (observed id tr)) as Hl.
  { apply (run_lawful id tr pool_init); [apply pool_inv_init|done]. }
  split; [exact Hl|].
  apply continuations_sublist. by apply lawful_continuations.
Qed.



End Lifecycle.

(** The sample run: a submission, a worker taking the task, and the
    first assignment of the task. *)
Lemma sample_run :
  is_run (pool_step Sample.engine) pool_init [Sample.pool1; Sample.pool2; Sample.pool3].
Proof.
  simpl. split; [|split; [|split; [|exact I]]].
  - exact (step_submit Sample.engine ∅ [] [] (Sample.args "j1") "2024-05-01T10:00:00"
             (lookup_empty _)).
  - apply (step_start Sample.engine Sample.reg1 [] [] (Sample.args "j1")).
    unfold max_workers. simpl. lia.
  - apply (step_write Sample.engine Sample.reg1 Sample.reg2 [] [] [] "j1"
             (SetStatus Processing) (tail (task_writes Sample.engine (Sample.args "j1")))).
    reflexivity.
Defined.

Lemma job_status_sequence_witness :
  status_sequence "j1" [Sample.pool1; Sample.pool2; Sample.pool3] = [Queued; Processing] ∧
  (status_sequence "j1" [Sample.pool1; Sample.pool2; Sample.pool3]
     `sublist_of` [Queued; Processing; Completed] ∨
   status_sequence "j1" [Sample.pool1; Sample.pool2; Sample.pool3]
     `sublist_of` [Queued; Processing; Failed]).
Proof.
  split; [reflexivity|].
  exact (proj2 (job_status_sequence Sample.engine "j1"
                  [Sample.pool1; Sample.pool2; Sample.pool3] sample_run)).
Defined.

(** An assignment of the task at position [i] of the running tasks. *)
Lemma pool_step_write_at parse_pdf (reg reg' : registry) queue running i id w ws :
  running !! i = Some (Running id (w :: ws)) →
  store id w reg = inr reg' →
  pool_step parse_pdf (Pool reg queue running)
            (Pool reg' queue (<[i := Running id ws]> running)).
Proof.
  intros Hi Hstore.
  pose proof (take_drop_middle running i _ Hi) as Hsplit.
  rewrite <- Hsplit at 1.
  assert (<[i := Running id ws]> running = take i running ++ Running id ws :: drop (S i) running)
    as ->.
  { rewrite <- Hsplit at 1. rewrite insert_app_r_alt by (rewrite length_take; lia).
    rewrite length_take_le by (apply lookup_lt_Some in Hi; lia).
    by rewrite Nat.sub_diag. }
  by apply step_write.
Qed.


(** ** Paths and the file system *)

Lemma below_app root q : below root (root ++ q) = Some q.
Proof. induction root as [|x root IH]; simpl; [done|]. by rewrite decide_True. Qed.

Lemma below_Some root p q : below root p = Some q → p = root ++ q.
Proof.
  revert p. induction root as [|x root IH]; intros p; simpl; [congruence|].
  destruct p as [|y p]; [discriminate|].
  destruct (decide (x = y)) as [->|]; [|discriminate].
  intros H. by rewrite (IH _ H).
Qed.

Lemma below_refl root : below root root = Some [].
Proof. rewrite <- (app_nil_r root) at 2. apply below_app. Qed.

Lemma below_apart_app root p q : apart root p → below root (p ++ q) = None.
Proof.
  unfold apart. revert p. induction root as [|x root IH]; intros p [H1 H2]; simpl in *.
  - discriminate.
  - destruct p as [|y p]; simpl in *; [discriminate|].
    destruct (decide (x = y)) as [->|Hne].
    + rewrite decide_True in H2 by done. by apply IH.
    + done.
Qed.


Lemma below_take_None root k : (k < length root)%nat → below root (take k root) = None.
Proof.
  revert k. induction root as [|x root IH]; intros k Hk; simpl in *; [lia|].
  destruct k as [|k]; simpl; [done|].
  rewrite decide_True by done. apply IH. lia.
Qed.

Lemma join_app p x : x ≠ "" → join p x = p ++ [x].
Proof. intros H. unfold join. by rewrite decide_False. Qed.

Lemma node_at_lookup (fs : filesystem) (p : path) : p ≠ [] → node_at fs p = fs !! p.
Proof. by destruct p. Qed.

Lemma node_at_app (fs : filesystem) (p : path) (x : string) : node_at fs (p ++ [x]) = fs !! (p ++ [x]).
Proof. apply node_at_lookup. by destruct p. Qed.

(** ** Steps of [io] *)

Lemma bind_inr {A B} (m : io A) (f : A → io B) fs b fs' :
  (m ≫= f) fs = (inr b, fs') →
  ∃ a fs1, m fs = (inr a, fs1) ∧ f a fs1 = (inr b, fs').
Proof.
  unfold mbind, io_bind. destruct (m fs) as [[e|a] fs1]; [discriminate|].
  intros H. by exists a, fs1.
Qed.

Lemma bind_run {A B} (m : io A) (f : A → io B) fs a fs1 :
  m fs = (inr a, fs1) → (m ≫= f) fs = f a fs1.
Proof. intros H. unfold mbind, io_bind. by rewrite H. Qed.

Global Instance extends_refl : Reflexive extends.
Proof. intros fs p n H. by exists n. Qed.

Global Instance extends_trans : Transitive extends.
Proof.
  intros fs1 fs2 fs3 H12 H23 p n H.
  destruct (H12 p n H) as (n2 & H2 & Hk2). destruct (H23 p n2 H2) as (n3 & H3 & Hk3).
  exists n3. split; [done|congruence].
Qed.

Lemma touches_refl S fs : touches S fs fs.
Proof. by intros p _. Qed.

Lemma touches_trans S fs1 fs2 fs3 :
  touches S fs1 fs2 → touches S fs2 fs3 → touches S fs1 fs3.
Proof. intros H12 H23 p Hp. by rewrite (H23 p Hp), (H12 p Hp). Qed.

Lemma touches_weaken (S S' : path → Prop) fs fs' :
  (∀ p, S p → S' p) → touches S fs fs' → touches S' fs fs'.
Proof. intros HS H p Hp. apply H. intros Hs. by apply Hp, HS. Qed.

(** A property of the file system before and after, kept by every step
    whether it returns or raises, is kept by a sequence of steps. *)
Lemma bind_keeps {A B : Type} (R : filesystem → filesystem → Prop) `{!Transitive R}
    (m : io A) (f : A → io B) :
  (∀ fs, R fs (m fs).2) → (∀ a fs, R fs (f a fs).2) → ∀ fs, R fs ((m ≫= f) fs).2.
Proof.
  intros Hm Hf fs. unfold mbind, io_bind.
  specialize (Hm fs). destruct (m fs) as [[e|a] fs1]; simpl in *; [done|].
  by etrans; [|apply Hf].
Qed.

Lemma for_each_keeps {A : Type} (R : filesystem → filesystem → Prop)
    `{!Reflexive R, !Transitive R} (f : A → io unit) (l : list A) :
  (∀ a fs, R fs (f a fs).2) → ∀ fs, R fs (for_each f l fs).2.
Proof.
  intros Hf. induction l as [|x l IH]; intros fs; simpl; [done|].
  by apply bind_keeps.
Qed.

Global Instance touches_transitive S : Transitive (touches S).
Proof. intros ???. apply touches_trans. Qed.
Global Instance touches_reflexive S : Reflexive (touches S).
Proof. intros ?. apply touches_refl. Qed.

Lemma ret_keeps {A : Type} (R : filesystem → filesystem → Prop) `{!Reflexive R} (a : A) fs :
  R fs ((mret a : io A) fs).2.
Proof. done. Qed.

Lemma raise_keeps {A : Type} (R : filesystem → filesystem → Prop) `{!Reflexive R} e fs :
  R fs ((raise e : io A) fs).2.
Proof. done. Qed.

(** *** [os.makedirs] *)

Lemma mkdir_extends leaf q fs : extends fs (mkdir_exist_ok leaf q fs).2.
Proof.
  unfold mkdir_exist_ok. destruct (node_at fs q) as [[|c]|] eqn:Hq; simpl; try done.
  intros p n Hp. exists n. split; [|done].
  rewrite lookup_insert_ne; [done|]. intros <-.
  destruct q; simpl in Hq; [discriminate|congruence].
Qed.

Lemma mkdir_touches leaf q fs : touches (λ p, p = q) fs (mkdir_exist_ok leaf q fs).2.
Proof.
  unfold mkdir_exist_ok. destruct (node_at fs q) as [[|c]|]; simpl; try done.
  intros p Hp. by rewrite lookup_insert_ne.
Qed.

Lemma mkdir_ok leaf q fs fs' :
  mkdir_exist_ok leaf q fs = (inr (), fs') → node_at fs' q = Some Dir.
Proof.
  unfold mkdir_exist_ok. destruct (node_at fs q) as [[|c]|] eqn:Hq; simpl; try done.
  - by intros [= <-].
  - intros [= <-]. destruct q; [done|]. simpl. apply lookup_insert_eq.
Qed.

Lemma makedirs_from_extends rest : ∀ above fs, extends fs (makedirs_from above rest fs).2.
Proof.
  induction rest as [|x rest IH]; intros above fs; simpl; [done|].
  apply (bind_keeps extends); [apply mkdir_extends|]. intros _. apply IH.
Qed.

Lemma makedirs_from_touches rest : ∀ above fs,
  touches (λ p, p `prefix_of` above ++ rest) fs (makedirs_from above rest fs).2.
Proof.
  induction rest as [|x rest IH]; intros above fs; simpl; [done|].
  apply (bind_keeps (touches _)).
  - intros fs0. eapply touches_weaken; [|apply mkdir_touches].
    intros p ->. exists rest. by rewrite <- app_assoc.
  - intros _ fs0. specialize (IH (above ++ [x]) fs0).
    by rewrite <- app_assoc in IH.
Qed.

Lemma makedirs_from_ok rest : ∀ above fs fs',
  makedirs_from above rest fs = (inr (), fs') →
  ∀ k, (0 < k ≤ length rest)%nat → node_at fs' (above ++ take k rest) = Some Dir.
Proof.
  induction rest as [|x rest IH]; intros above fs fs' Hrun k Hk; simpl in *; [lia|].
  apply bind_inr in Hrun as ([] & fs1 & H1 & H2).
  destruct k as [|k]; [lia|]. simpl.
  destruct k as [|k].
  - rewrite take_0. apply mkdir_ok in H1.
    rewrite node_at_app in *.
    pose proof (makedirs_from_extends rest (above ++ [x]) fs1) as Hext.
    rewrite H2 in Hext. simpl in Hext.
    destruct (Hext _ _ H1) as (n' & Hn' & Hk'). destruct n'; [done|discriminate].
  - specialize (IH (above ++ [x]) fs1 fs' H2 (S k)).
    rewrite <- app_assoc in IH. apply IH. lia.
Qed.

Lemma makedirs_extends p fs : extends fs (makedirs p fs).2.
Proof. apply makedirs_from_extends. Qed.

Lemma makedirs_touches p fs : touches (λ q, q `prefix_of` p) fs (makedirs p fs).2.
Proof. apply (makedirs_from_touches p []). Qed.

Lemma makedirs_ok p fs fs' : makedirs p fs = (inr (), fs') → dirs_to p fs'.
Proof.
  intros Hrun k. destruct k as [|k]; [by rewrite take_0|].
  destruct (decide (S k ≤ length p)%nat) as [Hle|Hgt].
  - apply (makedirs_from_ok p [] fs fs' Hrun (S k)). lia.
  - rewrite take_ge by lia. destruct p as [|x p]; [done|].
    pose proof (makedirs_from_ok (x :: p) [] fs fs' Hrun (length (x :: p))) as H.
    rewrite firstn_all in H. apply H. simpl. lia.
Qed.

(** Below a chain of directories, a missing directory is made and
    nothing else changes. *)
Lemma makedirs_from_child p : ∀ above fs x,
  (∀ k, (0 < k ≤ length p)%nat → node_at fs (above ++ take k p) = Some Dir) →
  fs !! (above ++ p ++ [x]) = None →
  makedirs_from above (p ++ [x]) fs = (inr (), <[above ++ p ++ [x] := Dir]> fs).
Proof.
  induction p as [|y p IH]; intros above fs x Hdirs Hnew; simpl in *.
  - unfold mbind, io_bind, mkdir_exist_ok. rewrite node_at_app, Hnew. done.
  - unfold mbind, io_bind, mkdir_exist_ok.
    pose proof (Hdirs 1%nat) as H1. simpl in H1. rewrite take_0 in H1.
    rewrite H1 by lia. simpl.
    specialize (IH (above ++ [y]) fs x). rewrite <- !app_assoc in IH. simpl in IH.
    apply IH; [|done].
    intros k Hk. specialize (Hdirs (S k)). simpl in Hdirs.
    rewrite <- app_assoc. simpl. apply Hdirs. lia.
Qed.

Lemma makedirs_child (p : path) (x : string) (fs : filesystem) :
  dirs_to p fs → fs !! (p ++ [x]) = None →
  makedirs (p ++ [x]) fs = (inr (), <[p ++ [x] := Dir]> fs).
Proof.
  intros Hdirs Hnew. apply (makedirs_from_child p [] fs x); [|done].
  intros k _. apply Hdirs.
Qed.

Lemma dirs_to_child (p : path) (x : string) (fs : filesystem) :
  dirs_to p fs → fs !! (p ++ [x]) = None → dirs_to (p ++ [x]) (<[p ++ [x] := Dir]> fs).
Proof.
  intros Hdirs Hnew k.
  destruct (decide (k ≤ length p)%nat) as [Hle|Hgt].
  - rewrite take_app_le by done. specialize (Hdirs k).
    destruct (take k p) as [|y q] eqn:Hq; [done|]. simpl in *.
    rewrite lookup_insert_ne; [done|].
    intros Heq. assert (length (p ++ [x]) = length (y :: q)) as Hlen by by rewrite Heq.
    rewrite <- Hq, length_app, length_take in Hlen. simpl in Hlen. lia.
  - rewrite take_ge by (rewrite length_app; simpl; lia).
    rewrite node_at_app. apply lookup_insert_eq.
Qed.

(** *** Files *)

Lemma write_file_extends dst c fs : extends fs (write_file dst c fs).2.
Proof.
  unfold write_file.
  destruct (node_at fs dst) as [[|c0]|] eqn:Hd; simpl; [done| |];
    (destruct (node_at fs (dirname dst)) as [[|c1]|]; simpl; [|done|done]);
    intros p n Hp; (destruct (decide (p = dst)) as [->|Hne];
      [|exists n; by rewrite lookup_insert_ne]);
    rewrite lookup_insert_eq; destruct dst; simpl in Hd; try discriminate;
    rewrite Hp in Hd; try discriminate.
  injection Hd as ->. by eexists.
Qed.

Lemma write_file_touches dst c fs : touches (λ p, p = dst) fs (write_file dst c fs).2.
Proof.
  unfold write_file.
  destruct (node_at fs dst) as [[|c0]|]; simpl; [done| |];
    (destruct (node_at fs (dirname dst)) as [[|c1]|]; simpl; [|done|done]);
    intros p Hp; by rewrite lookup_insert_ne.
Qed.

Lemma write_file_ok dst c fs fs' :
  write_file dst c fs = (inr (), fs') → fs' = <[dst := File c]> fs.
Proof.
  unfold write_file.
  destruct (node_at fs dst) as [[|c0]|]; simpl; [done| |];
    (destruct (node_at fs (dirname dst)) as [[|c1]|]; simpl; [|done|done]);
    by intros [= <-].
Qed.

Lemma write_file_run (dst : path) (c : content) (fs : filesystem) :
  node_at fs dst ≠ Some Dir → node_at fs (dirname dst) = Some Dir →
  write_file dst c fs = (inr (), <[dst := File c]> fs).
Proof.
  intros Hd Hp. unfold write_file. rewrite Hp.
  by destruct (node_at fs dst) as [[|c0]|].
Qed.

Lemma copy2_extends src dst fs : extends fs (copy2 src dst fs).2.
Proof.
  unfold copy2. destruct (node_at fs src) as [[|c]|]; simpl; [done| |done].
  case_decide; [done|]. apply write_file_extends.
Qed.

Lemma copy2_touches src dst fs :
  touches (λ p, p = dst ∨ p = join dst (basename src)) fs (copy2 src dst fs).2.
Proof.
  unfold copy2. destruct (node_at fs src) as [[|c]|]; simpl; [done| |done].
  case_decide; [done|].
  eapply touches_weaken; [|apply write_file_touches].
  intros p ->. simpl. destruct (node_at fs dst) as [[|]|]; auto.
Qed.

(** Copying a file to a place that is not a directory. *)
Lemma copy2_run (src dst : path) (c : content) (fs : filesystem) :
  node_at fs src = Some (File c) → node_at fs dst ≠ Some Dir → src ≠ dst →
  node_at fs (dirname dst) = Some Dir →
  copy2 src dst fs = (inr (), <[dst := File c]> fs).
Proof.
  intros Hs Hd Hne Hp. unfold copy2. rewrite Hs.
  destruct (node_at fs dst) as [[|c0]|] eqn:Hdst; [done| |];
    rewrite decide_False by done; apply write_file_run; by rewrite ?Hdst.
Qed.

Lemma dirname_app p x : dirname (p ++ [x]) = p.
Proof. unfold dirname. rewrite length_app. simpl. rewrite Nat.add_1_r. simpl. by rewrite take_app_length. Qed.

(** *** [shutil.rmtree], [shutil.make_archive], [send_file] *)

Lemma rmtree_ok p fs fs' :
  rmtree p fs = (inr (), fs') →
  ∀ q, fs' !! q = match below p q with Some _ => None | None => fs !! q end.
Proof.
  unfold rmtree. destruct (node_at fs p) as [[|c]|]; [|done|done].
  intros [= <-] q. destruct (below p q) as [r|] eqn:Hq.
  - apply map_lookup_filter_None. right. intros n _. simpl. by rewrite Hq.
  - destruct (fs !! q) as [n|] eqn:Hn.
    + apply map_lookup_filter_Some. by split.
    + apply map_lookup_filter_None. by left.
Qed.

Lemma rmtree_run (p : path) (fs : filesystem) :
  node_at fs p = Some Dir →
  rmtree p fs = (inr (), filter (λ kv, below p kv.1 = None) fs).
Proof. intros H. unfold rmtree. by rewrite H. Qed.

Lemma rmtree_touches p fs : touches (under p) fs (rmtree p fs).2.
Proof.
  destruct (node_at fs p) as [[|c]|] eqn:Hp.
  - rewrite (rmtree_run _ _ Hp). simpl. intros q Hq.
    rewrite (rmtree_ok p fs _ (rmtree_run _ _ Hp) q).
    destruct (below p q) eqn:Hb; [|done]. exfalso. apply Hq. unfold under. by rewrite Hb.
  - unfold rmtree. by rewrite Hp.
  - unfold rmtree. by rewrite Hp.
Qed.

Lemma send_file_ok p name fs r fs' :
  send_file p name fs = (inr r, fs') →
  r = SendFile p name ∧ fs' = fs ∧ ∃ c, node_at fs p = Some (File c).
Proof.
  unfold send_file. destruct (node_at fs p) as [[|c]|]; try discriminate.
  intros [= <- <-]. eauto.
Qed.

Lemma send_file_same p name fs : (send_file p name fs).2 = fs.
Proof. unfold send_file. by destruct (node_at fs p) as [[|c]|]. Qed.

Lemma make_archive_extends base root fs : extends fs (make_archive base root fs).2.
Proof.
  unfold make_archive. destruct (node_at fs root) as [[|c]|]; simpl; [|done|done].
  apply (bind_keeps extends).
  - intros fs0. destruct (path_exists fs (dirname base)); [done|apply makedirs_extends].
  - intros _ fs0. apply write_file_extends.
Qed.

Lemma make_archive_touches base root fs :
  touches (λ p, p `prefix_of` dirname base ∨ p = add_suffix base ".zip")
          fs (make_archive base root fs).2.
Proof.
  unfold make_archive. destruct (node_at fs root) as [[|c]|]; simpl; [|done|done].
  apply (bind_keeps (touches _)).
  - intros fs0. destruct (path_exists fs (dirname base)); [done|].
    eapply touches_weaken; [|apply makedirs_touches]. auto.
  - intros _ fs0. eapply touches_weaken; [|apply write_file_touches]. auto.
Qed.

(** What a successful archive call leaves: the archive, with the
    members taken from the tree as it was. *)
Lemma make_archive_ok base root fs fs' :
  make_archive base root fs = (inr (), fs') →
  fs' !! add_suffix base ".zip" = Some (File (Zip (archive_members fs root))).
Proof.
  unfold make_archive. destruct (node_at fs root) as [[|c]|]; [|done|done].
  intros H. apply bind_inr in H as ([] & fs1 & _ & H).
  apply write_file_ok in H as ->. apply lookup_insert_eq.
Qed.

Lemma make_archive_run (base root : path) (fs : filesystem) :
  node_at fs root = Some Dir → node_at fs (dirname base) = Some Dir →
  node_at fs (add_suffix base ".zip") ≠ Some Dir →
  dirname (add_suffix base ".zip") = dirname base →
  make_archive base root fs
    = (inr (), <[add_suffix base ".zip" := File (Zip (archive_members fs root))]> fs).
Proof.
  intros Hroot Hdir Hzip Hsame. unfold make_archive. rewrite Hroot.
  unfold path_exists. rewrite Hdir. rewrite bool_decide_eq_true_2 by eauto.
  unfold mbind, io_bind, mret, io_ret. apply write_file_run; [done|by rewrite Hsame].
Qed.


(** ** The folder name loop *)

Lemma string_length_app (s t : string) :
  String.length (s +:+ t) = (String.length s + String.length t)%nat.
Proof. induction s as [|a s IH]; simpl; [done|]. by rewrite IH. Qed.

Lemma string_app_nil_inv (s t : string) : s +:+ t = "" → s = "" ∧ t = "".
Proof. destruct s; [done|discriminate]. Qed.

Lemma folder_candidate_inj (name : string) (i k : nat) :
  folder_candidate name i = folder_candidate name k → i = k.
Proof.
  destruct i as [|i], k as [|k]; simpl; intros H; [done| | |].
  - apply (f_equal String.length) in H. rewrite string_length_app in H. simpl in H. lia.
  - apply (f_equal String.length) in H. rewrite string_length_app in H. simpl in H. lia.
  - apply (inj (String.app name)) in H. simpl in H. injection H as H.
    exact (pretty_nat_inj _ _ H).
Qed.

Lemma join_inj (p : path) (x y : string) : join p x = join p y → x = y.
Proof.
  unfold join. destruct (decide (x = "")) as [->|Hx], (decide (y = "")) as [->|Hy];
    intros H; [done| | |].
  - apply (f_equal length) in H. rewrite length_app in H. simpl in H. lia.
  - apply (f_equal length) in H. rewrite length_app in H. simpl in H. lia.
  - apply app_inj_tail in H. by destruct H.
Qed.

(** What the loop returns: the first name, from the current one on,
    that is free, when the rounds allowed suffice to reach it. *)
Lemma folder_name_loop_result (fs : filesystem) (bd : path) (name : string) (fuel : nat) :
  ∀ k, ∃ k',
    (k ≤ k' ≤ k + fuel)%nat ∧
    folder_name_loop fuel fs bd name (folder_candidate name k) (S k)
      = folder_candidate name k' ∧
    (∀ i, (k ≤ i < k')%nat → path_exists fs (join bd (folder_candidate name i)) = true) ∧
    ((k' < k + fuel)%nat → path_exists fs (join bd (folder_candidate name k')) = false).
Proof.
  induction fuel as [|fuel IH]; intros k; simpl.
  - exists k. repeat split; [lia|lia|intros; lia|intros; lia].
  - destruct (path_exists fs (join bd (folder_candidate name k))) eqn:Hex.
    + destruct (IH (S k)) as (k' & Hk' & Hres & Hbusy & Hfree).
      exists k'. split; [lia|]. split; [exact Hres|]. split.
      * intros i Hi. destruct (decide (i = k)) as [->|Hne]; [done|]. apply Hbusy. lia.
      * intros Hlt. apply Hfree. lia.
    + exists k. split; [lia|]. split; [done|]. split; [intros; lia|done].
Qed.

(** No more names exist than the file system has entries. *)
Lemma existing_names_bound (fs : filesystem) (f : nat → path) (n : nat) :
  (∀ i k, f i = f k → i = k) →
  (∀ i, (i < n)%nat → path_exists fs (f i) = true) →
  (n ≤ S (size fs))%nat.
Proof.
  intros Hinj Hex.
  assert (NoDup (f <$> seq 0 n)) as Hnd.
  { apply NoDup_fmap_2_strong; [|apply NoDup_seq]. intros i k _ _. apply Hinj. }
  assert ((list_to_set (f <$> seq 0 n) : gset path) ⊆ {[ [] ]} ∪ dom fs) as Hsub.
  { intros p Hp. apply elem_of_list_to_set, list_elem_of_fmap in Hp as (i & -> & Hi).
    apply elem_of_seq in Hi. specialize (Hex i ltac:(lia)).
    unfold path_exists in Hex. apply bool_decide_eq_true in Hex.
    apply elem_of_union. destruct (f i) as [|x q] eqn:Hf.
    - left. by apply elem_of_singleton.
    - right. by apply elem_of_dom. }
  apply subseteq_size in Hsub.
  rewrite size_list_to_set, length_fmap, length_seq in Hsub by done.
  rewrite size_union_alt, size_singleton in Hsub.
  assert (size (dom fs ∖ ({[ [] ]} : gset path)) ≤ size (dom fs))%nat as Hle.
  { apply subseteq_size. intros x Hx. by apply elem_of_difference in Hx as [? _]. }
  rewrite size_dom in Hle. lia.
Qed.

(** The name chosen for a folder is free, and the names tried before
    it are taken: the loop ends by its own test. *)
Lemma unique_folder_name_free (fs : filesystem) (bd : path) (name : string) :
  ∃ k, unique_folder_name bd name fs = (inr (folder_candidate name k), fs) ∧
       path_exists fs (join bd (folder_candidate name k)) = false ∧
       ∀ i, (i < k)%nat → path_exists fs (join bd (folder_candidate name i)) = true.
Proof.
  destruct (folder_name_loop_result fs bd name (S (S (size fs))) 0)
    as (k & Hk & Hres & Hbusy & Hfree).
  exists k. unfold unique_folder_name.
  change (folder_candidate name 0) with name in Hres. rewrite Hres.
  split; [done|]. split.
  - apply Hfree. destruct (decide (k < S (S (size fs)))%nat) as [|Hge]; [lia|].
    assert (k ≤ S (size fs))%nat; [|lia].
    apply (existing_names_bound fs (λ i, join bd (folder_candidate name i))).
    + intros i i' H. by apply join_inj, folder_candidate_inj in H.
    + intros i Hi. apply Hbusy. lia.
  - intros i Hi. apply Hbusy. lia.
Qed.

(** ** Staging a batch *)

Lemma extends_node_at fs fs' p n :
  extends fs fs' → node_at fs p = Some n →
  ∃ n', node_at fs' p = Some n' ∧ is_dir n' = is_dir n.
Proof.
  intros Hext Hn. destruct p as [|x p]; [by exists n|]. by apply Hext.
Qed.

Lemma extends_dir fs fs' p :
  extends fs fs' → node_at fs p = Some Dir → node_at fs' p = Some Dir.
Proof.
  intros Hext Hn. destruct (extends_node_at _ _ _ _ Hext Hn) as ([|c] & Hn' & Hk);
    [done|discriminate].
Qed.

Lemma extends_exists fs fs' p :
  extends fs fs' → path_exists fs p = true → path_exists fs' p = true.
Proof.
  unfold path_exists. intros Hext H. apply bool_decide_eq_true in H as [n Hn].
  destruct (extends_node_at _ _ _ _ Hext Hn) as (n' & Hn' & _).
  apply bool_decide_eq_true. by exists n'.
Qed.

Lemma copy_if_exists_extends src dst fs : extends fs (copy_if_exists src dst fs).2.
Proof.
  unfold copy_if_exists. apply (bind_keeps extends); [done|].
  intros [] fs0; [|done].
  apply (bind_keeps extends); [apply copy2_extends|done].
Qed.

Lemma copy_images_extends j from to fs : extends fs (copy_images j from to fs).2.
Proof.
  unfold copy_images. apply (for_each_keeps extends). intros img fs0.
  apply (bind_keeps extends); [apply copy_if_exists_extends|done].
Qed.

Lemma batch_round_extends reg bd st raw fs : extends fs (batch_round reg bd st raw fs).2.
Proof.
  unfold batch_round. case_decide; [done|].
  destruct (reg !! PyStr.strip raw) as [j|]; [|done].
  case_decide; [|done].
  apply (bind_keeps extends); [unfold get_output_dir; by destruct (output_dir j)|].
  intros d fs1. apply (bind_keeps extends); [done|].
  intros f fs2. apply (bind_keeps extends); [apply makedirs_extends|].
  intros _ fs3. apply (bind_keeps extends); [apply makedirs_extends|].
  intros _ fs4. apply (bind_keeps extends); [apply copy_if_exists_extends|].
  intros c fs5. apply (bind_keeps extends); [apply copy_images_extends|done].
Qed.

(** A round that returns either skips the id, or stages the job in a
    folder that was free and is a directory afterwards. *)
Lemma batch_round_ok reg bd st raw fs st' :
  (batch_round reg bd st raw fs).1 = inr st' →
  (is_staged reg raw = false ∧ st' = st) ∨
  (∃ j k, is_staged reg raw = true ∧
          (reg !! PyStr.strip raw = Some j ∧ status j = Completed) ∧
          staged st' = staged st ++ [(PyStr.strip raw, folder_candidate (batch_name j) k)] ∧
          path_exists fs (join bd (folder_candidate (batch_name j) k)) = false ∧
          (∀ i, (i < k)%nat →
                path_exists fs (join bd (folder_candidate (batch_name j) i)) = true) ∧
          node_at (batch_round reg bd st raw fs).2 (join bd (folder_candidate (batch_name j) k))
            = Some Dir).
Proof.
  unfold batch_round, is_staged.
  destruct (decide (PyStr.strip raw = "")) as [He|Hne].
  { intros [= <-]. left. split; [|done]. destruct (reg !! PyStr.strip raw); [|done].
    by rewrite bool_decide_eq_false_2 by tauto. }
  destruct (reg !! PyStr.strip raw) as [j|] eqn:Hj; [|intros [= <-]; by left].
  destruct (decide (status j = Completed)) as [Hs|Hs].
  2:{ intros [= <-]. left. split; [|done].
      rewrite (bool_decide_eq_false_2 (status j = Completed)) by done.
      by rewrite andb_false_r. }
  intros Hrun. right.
  destruct (unique_folder_name_free fs bd (batch_name j)) as (k & Hname & Hfree & Hbusy).
  exists j, k. rewrite !bool_decide_eq_true_2 by done.
  destruct (get_output_dir j fs) as [[e|d] fs0] eqn:Hd.
  { unfold mbind, io_bind in Hrun. rewrite Hd in Hrun. discriminate. }
  assert (fs0 = fs) as ->.
  { unfold get_output_dir in Hd. destruct (output_dir j); by injection Hd. }
  rewrite (bind_run _ _ _ _ _ Hd) in Hrun |- *.
  rewrite (bind_run _ _ _ _ _ Hname) in Hrun |- *.
  set (F := join bd (folder_candidate (batch_name j) k)) in *.
  destruct (makedirs F fs) as [[e|[]] fs1] eqn:Hmk.
  { unfold mbind, io_bind in Hrun. rewrite Hmk in Hrun. discriminate. }
  rewrite (bind_run _ _ _ _ _ Hmk) in Hrun |- *.
  pose proof (makedirs_ok _ _ _ Hmk (length F)) as HF. rewrite firstn_all in HF.
  match goal with |- context [ (?m fs1).2 ] => set (rest := m) in * end.
  assert (extends fs1 (rest fs1).2) as Hext.
  { subst rest. apply (bind_keeps extends); [apply makedirs_extends|].
    intros _ fs4. apply (bind_keeps extends); [apply copy_if_exists_extends|].
    intros c fs5. apply (bind_keeps extends); [apply copy_images_extends|done]. }
  split; [done|]. split; [done|]. split.
  - subst rest.
    destruct (makedirs (join F "images") fs1) as [[e|[]] fs2] eqn:H2;
      [unfold mbind, io_bind in Hrun; rewrite H2 in Hrun; discriminate|].
    rewrite (bind_run _ _ _ _ _ H2) in Hrun.
    destruct (copy_if_exists (join d "output.md") (join F (batch_name j +:+ ".md")) fs2)
      as [[e|c] fs3] eqn:H3;
      [unfold mbind, io_bind in Hrun; rewrite H3 in Hrun; discriminate|].
    rewrite (bind_run _ _ _ _ _ H3) in Hrun.
    destruct (copy_images j d (join F "images") fs3) as [[e|[]] fs4] eqn:H4;
      [unfold mbind, io_bind in Hrun; rewrite H4 in Hrun; discriminate|].
    rewrite (bind_run _ _ _ _ _ H4) in Hrun.
    unfold mret, io_ret in Hrun. simpl in Hrun. by injection Hrun as <-.
  - split; [done|]. split; [done|]. by apply (extends_dir fs1).
Qed.

Lemma batch_rounds_extends reg bd ids : ∀ st fs,
  extends fs (batch_rounds reg bd st ids fs).2.
Proof.
  induction ids as [|raw ids IH]; intros st fs; simpl; [done|].
  apply (bind_keeps extends); [apply batch_round_extends|]. intros st1 fs1. apply IH.
Qed.

Lemma batch_rounds_folders reg bd ids : ∀ st fs st',
  (batch_rounds reg bd st ids fs).1 = inr st' →
  folders_ok bd st fs →
  folders_ok bd st' (batch_rounds reg bd st ids fs).2 ∧
  ∃ new, staged st' = staged st ++ new ∧
         new.*1 = PyStr.strip <$> filter (λ raw, is_staged reg raw = true) ids ∧
         Forall (folder_of reg bd (batch_rounds reg bd st ids fs).2) new.
Proof.
  induction ids as [|raw ids IH]; intros st fs st' Hrun Hok.
  - simpl in *. injection Hrun as <-. split; [done|].
    exists []. by rewrite app_nil_r.
  - simpl in Hrun |- *.
    destruct (batch_round reg bd st raw fs) as [[e|st1] fs1] eqn:Hround;
      [unfold mbind, io_bind in Hrun; rewrite Hround in Hrun; discriminate|].
    rewrite (bind_run _ _ _ _ _ Hround) in Hrun |- *.
    pose proof (batch_round_extends reg bd st raw fs) as Hext1. rewrite Hround in Hext1.
    pose proof (batch_round_ok reg bd st raw fs st1) as Hcase.
    rewrite Hround in Hcase. simpl in Hcase, Hext1. specialize (Hcase eq_refl).
    pose proof (batch_rounds_extends reg bd ids st1 fs1) as Hext2.
    destruct Hcase as [[Hskip ->]|(j & k & Hin & [Hj Hs] & Hst & Hfree & Hbusy & Hdir)].
    + assert (folders_ok bd st fs1) as Hok1.
      { destruct Hok as [Hd Hn]. split; [|done].
        eapply Forall_impl; [exact Hd|]. intros e He. by apply (extends_dir fs). }
      destruct (IH st fs1 st' Hrun Hok1) as (Hok' & new & Hnew & Hids & Hall).
      split; [done|]. exists new. split; [done|]. split; [|done].
      rewrite filter_cons_False; [done|]. by rewrite Hskip.
    + set (f := folder_candidate (batch_name j) k) in *.
      assert (folders_ok bd st1 fs1) as Hok1.
      { destruct Hok as [Hd Hn]. split.
        - rewrite Hst. apply Forall_app. split.
          + eapply Forall_impl; [exact Hd|]. intros e He. by apply (extends_dir fs).
          + by apply Forall_singleton.
        - rewrite Hst, !fmap_app. simpl. apply NoDup_app. split; [done|]. split.
          + intros p Hp Hp'. apply list_elem_of_singleton in Hp' as ->.
            apply list_elem_of_fmap in Hp as (f' & Hf' & Hin').
            apply list_elem_of_fmap in Hin' as (e & -> & He).
            rewrite Forall_forall in Hd. specialize (Hd e He).
            unfold path_exists in Hfree. apply bool_decide_eq_false in Hfree.
            apply Hfree. rewrite Hf'. by eexists.
          + apply NoDup_singleton. }
      destruct (IH st1 fs1 st' Hrun Hok1) as (Hok' & new & Hnew & Hids & Hall).
      split; [done|]. exists ((PyStr.strip raw, f) :: new).
      split; [by rewrite Hnew, Hst, <- app_assoc|]. split.
      * rewrite filter_cons_True by done. rewrite !fmap_cons. by rewrite Hids.
      * apply Forall_cons. split; [|done]. exists j, k. simpl.
        split; [done|]. split; [done|]. split; [done|].
        intros i Hi. apply (extends_exists fs1); [done|].
        apply (extends_exists fs); [done|]. by apply Hbusy.
Qed.

(** C3, as the code has it. In a batch build that goes through, the
    jobs staged are the requested ids that name a completed job, in the
    order of the request. The base name of a job's folder is its file
    name without any occurrence of '.pdf' and then of '.PDF' (so not the
    name without its extension); the folder is the first of [name],
    [name_1], [name_2], ... that is not yet in the staging directory.
    Every staged job so gets a folder of its own: the names, and the
    paths, are pairwise distinct. *)
Theorem batch_folders_distinct (reg : registry) (bd : path) (ids : list string)
    (fs : filesystem) (st : batch_state) :
  (batch_rounds reg bd (BatchState 0 []) ids fs).1 = inr st →
  (staged st).*1 = PyStr.strip <$> filter (λ raw, is_staged reg raw = true) ids ∧
  NoDup (staged st).*2 ∧
  NoDup (join bd <$> (staged st).*2) ∧
  Forall (λ e, node_at (batch_rounds reg bd (BatchState 0 []) ids fs).2 (join bd e.2)
               = Some Dir) (staged st) ∧
  Forall (folder_of reg bd (batch_rounds reg bd (BatchState 0 []) ids fs).2) (staged st).
Proof.
  intros Hrun.
  destruct (batch_rounds_folders reg bd ids (BatchState 0 []) fs st Hrun)
    as ([Hdirs Hnd] & new & Hnew & Hids & Hall).
  { split; [constructor|]. simpl. constructor. }
  simpl in Hnew. subst new.
  split; [done|]. split; [by apply (NoDup_fmap_1 (join bd))|]. done.
Qed.

Lemma batch_folders_distinct_witness :
  (batch_rounds Sample.finished Sample.staging (BatchState 0 []) ["j1"; " j2"; "zz"]
     Sample.staging_disk).1 = inr (BatchState 2 [("j1", "paper"); ("j2", "paper_1")]) ∧
  NoDup ["paper"; "paper_1"].
Proof.
  assert ((batch_rounds Sample.finished Sample.staging (BatchState 0 []) ["j1"; " j2"; "zz"]
             Sample.staging_disk).1 = inr (BatchState 2 [("j1", "paper"); ("j2", "paper_1")]))
    as Hrun by (vm_compute; reflexivity).
  split; [exact Hrun|].
  exact (proj1 (proj2 (batch_folders_distinct _ _ _ _ _ Hrun))).
Defined.

(** The folder of a job is not its file name without the extension:
    'scan.pdf.pdf' is staged as 'scan', and 'notes.txt' would keep its
    extension. *)
Lemma batch_folder_not_extension_stripped :
  (batch_rounds Sample.finished Sample.staging (BatchState 0 []) ["j3"]
     Sample.staging_disk).1 = inr (BatchState 0 [("j3", "scan")]) ∧
  filename <$> Sample.finished !! "j3" = Some "scan.pdf.pdf" ∧
  strip_extension "scan.pdf.pdf" = "scan.pdf" ∧
  PyStr.remove_all ".PDF" (PyStr.remove_all ".pdf" "notes.txt") = "notes.txt" ∧
  strip_extension "notes.txt" = "notes".
Proof. repeat split; vm_compute; reflexivity. Qed.

(** ** What a build changes *)

Lemma under_refl root : under root root.
Proof. unfold under. rewrite below_refl. eauto. Qed.

Lemma under_app root p q : under root p → under root (p ++ q).
Proof.
  unfold under. intros [r Hr]. apply below_Some in Hr as ->.
  rewrite <- app_assoc, below_app. eauto.
Qed.

Lemma under_join root p x : under root p → under root (join p x).
Proof. intros H. unfold join. case_decide; [done|by apply under_app]. Qed.

Lemma prefix_of_app_cases (p root q : path) :
  p `prefix_of` root ++ q → p `prefix_of` root ∨ under root p.
Proof.
  revert p. induction root as [|x root IH]; intros p H.
  - right. unfold under. simpl. eauto.
  - destruct p as [|y p]; [left; apply prefix_nil|].
    simpl in H. apply prefix_cons_inv_1 in H as Hxy. subst y.
    apply prefix_cons_inv_2 in H. destruct (IH p H) as [Hp|Hp].
    + left. by apply prefix_cons.
    + right. unfold under in *. simpl. by rewrite decide_True.
Qed.

Lemma prefix_of_join_cases (p root : path) (x : string) :
  p `prefix_of` join root x → p `prefix_of` root ∨ under root p.
Proof.
  unfold join. case_decide; [by left|]. apply prefix_of_app_cases.
Qed.

Lemma makedirs_in_area root zip p fs :
  under root p → touches (build_area root zip) fs (makedirs p fs).2.
Proof.
  intros [r Hr]. apply below_Some in Hr as ->.
  eapply touches_weaken; [|apply makedirs_touches].
  intros q Hq. unfold build_area. apply prefix_of_app_cases in Hq. tauto.
Qed.

Lemma copy_if_exists_in_area root zip src dst fs :
  under root dst → touches (build_area root zip) fs (copy_if_exists src dst fs).2.
Proof.
  intros Hdst. unfold copy_if_exists. apply (bind_keeps (touches _)); [done|].
  intros [] fs0; [|done]. apply (bind_keeps (touches _)); [|done].
  intros fs1. eapply touches_weaken; [|apply copy2_touches].
  intros q [->| ->]; unfold build_area; right; left; [done|by apply under_join].
Qed.

Lemma copy_images_in_area root zip j from to fs :
  under root to → touches (build_area root zip) fs (copy_images j from to fs).2.
Proof.
  intros Hto. unfold copy_images. apply (for_each_keeps (touches _)). intros img fs0.
  apply (bind_keeps (touches _)); [|done].
  intros fs1. apply copy_if_exists_in_area. by apply under_join.
Qed.

Lemma rmtree_in_area root zip fs : touches (build_area root zip) fs (rmtree root fs).2.
Proof.
  eapply touches_weaken; [|apply rmtree_touches]. unfold build_area. tauto.
Qed.

Lemma send_file_in_area root zip p name fs :
  touches (build_area root zip) fs (send_file p name fs).2.
Proof. by rewrite send_file_same. Qed.

Lemma string_app_ne_nil (s t : string) : t ≠ "" → s +:+ t ≠ "".
Proof. intros Ht H. by apply string_app_nil_inv in H as [_ ?]. Qed.

Lemma dirname_join_output (x : string) : x ≠ "" → dirname (join OUTPUT_FOLDER x) = OUTPUT_FOLDER.
Proof. intros H. unfold join. by rewrite decide_False. Qed.

Lemma make_archive_in_area root zip x fs :
  x ≠ "" → OUTPUT_FOLDER `prefix_of` root →
  zip = add_suffix (join OUTPUT_FOLDER x) ".zip" →
  touches (build_area root zip) fs (make_archive (join OUTPUT_FOLDER x) root fs).2.
Proof.
  intros Hx Hroot ->. eapply touches_weaken; [|apply make_archive_touches].
  intros q [Hq| ->]; unfold build_area; [left|by right; right].
  rewrite dirname_join_output in Hq by done. by etrans.
Qed.

Lemma package_name_ne (id : string) : id +:+ "_package" ≠ "".
Proof. by apply string_app_ne_nil. Qed.

Lemma output_prefix_join (x : string) : OUTPUT_FOLDER `prefix_of` join OUTPUT_FOLDER x.
Proof. unfold join. case_decide; [done|]. by apply prefix_app_r. Qed.

(** Whatever its outcome, a single-package build changes nothing
    outside its area. *)
Lemma download_package_in_area reg id fs :
  touches (build_area (package_dir_of id) (package_zip_of id)) fs
          (download_package reg id fs).2.
Proof.
  unfold download_package. destruct (reg !! id) as [j|]; [|done].
  case_decide; [|done]. fold (package_dir_of id).
  apply (bind_keeps (touches _)); [unfold get_output_dir; by destruct (output_dir j)|].
  intros d fs1. apply (bind_keeps (touches _)).
  { intros fs0. apply makedirs_in_area, under_refl. }
  intros _ fs2. apply (bind_keeps (touches _)).
  { intros fs0. apply makedirs_in_area, under_join, under_refl. }
  intros _ fs3. apply (bind_keeps (touches _)).
  { intros fs0. apply copy_if_exists_in_area, under_join, under_refl. }
  intros _ fs4. apply (bind_keeps (touches _)).
  { intros fs0. apply copy_images_in_area, under_join, under_refl. }
  intros _ fs5. apply (bind_keeps (touches _)).
  { intros fs0. apply make_archive_in_area;
      [apply package_name_ne|apply output_prefix_join|done]. }
  intros _ fs6. apply (bind_keeps (touches _)); [intros fs0; apply rmtree_in_area|].
  intros _ fs7. apply send_file_in_area.
Qed.

Lemma batch_round_in_area reg bd zip st raw fs :
  touches (build_area bd zip) fs (batch_round reg bd st raw fs).2.
Proof.
  unfold batch_round. case_decide; [done|].
  destruct (reg !! PyStr.strip raw) as [j|]; [|done].
  case_decide; [|done].
  apply (bind_keeps (touches _)); [unfold get_output_dir; by destruct (output_dir j)|].
  intros d fs1. apply (bind_keeps (touches _)); [done|].
  intros f fs2. apply (bind_keeps (touches _)).
  { intros fs0. apply makedirs_in_area, under_join, under_refl. }
  intros _ fs3. apply (bind_keeps (touches _)).
  { intros fs0. apply makedirs_in_area, under_join, under_join, under_refl. }
  intros _ fs4. apply (bind_keeps (touches _)).
  { intros fs0. apply copy_if_exists_in_area, under_join, under_join, under_refl. }
  intros c fs5. apply (bind_keeps (touches _)); [|done].
  intros fs0. apply copy_images_in_area, under_join, under_join, under_refl.
Qed.

Lemma batch_rounds_in_area reg bd zip ids : ∀ st fs,
  touches (build_area bd zip) fs (batch_rounds reg bd st ids fs).2.
Proof.
  induction ids as [|raw ids IH]; intros st fs; simpl; [done|].
  apply (bind_keeps (touches _)); [intros fs0; apply batch_round_in_area|].
  intros st1 fs1. apply IH.
Qed.

Lemma batch_name_ne (s : string) : "batch_" +:+ s ≠ "".
Proof. done. Qed.

Lemma batch_build_in_area reg uuid ids fs :
  touches (build_area (batch_dir_of uuid) (batch_archive_of uuid)) fs
          (batch_build reg uuid ids fs).2.
Proof.
  unfold batch_build.
  apply (bind_keeps (touches _)); [intros fs0; apply makedirs_in_area, under_refl|].
  intros _ fs1. apply (bind_keeps (touches _)); [intros fs0; apply batch_rounds_in_area|].
  intros st fs2. case_decide.
  - apply (bind_keeps (touches _)); [intros fs0; apply rmtree_in_area|done].
  - apply (bind_keeps (touches _)).
    { intros fs0. apply make_archive_in_area; [done|apply output_prefix_join|done]. }
    intros _ fs3. apply (bind_keeps (touches _)); [intros fs0; apply rmtree_in_area|].
    intros _ fs4. apply send_file_in_area.
Qed.

(** ** Removal of the staging directory *)

Lemma package_dir_of_app (id : string) :
  package_dir_of id = OUTPUT_FOLDER ++ [id +:+ "_package"].
Proof. unfold package_dir_of. apply join_app, package_name_ne. Qed.

Lemma package_zip_of_app (id : string) :
  package_zip_of id = OUTPUT_FOLDER ++ [(id +:+ "_package") +:+ ".zip"].
Proof.
  unfold package_zip_of. rewrite join_app by apply package_name_ne. reflexivity.
Qed.

Lemma below_sibling (p : path) (x y : string) : x ≠ y → below (p ++ [x]) (p ++ [y]) = None.
Proof.
  intros H. induction p as [|a p IH]; cbn [below app];
    [by rewrite decide_False|by rewrite decide_True].
Qed.

Lemma package_zip_outside (id : string) : below (package_dir_of id) (package_zip_of id) = None.
Proof.
  rewrite package_dir_of_app, package_zip_of_app. apply below_sibling.
  intros H. apply (f_equal String.length) in H. rewrite !string_length_app in H.
  simpl in H. lia.
Qed.

Lemma batch_dir_of_app uuid :
  batch_dir_of uuid = OUTPUT_FOLDER ++ ["batch_" +:+ String.substring 0 8 uuid].
Proof. unfold batch_dir_of. by apply join_app. Qed.

Lemma batch_archive_of_eq uuid :
  batch_archive_of uuid
  = OUTPUT_FOLDER ++ [("all_pdfs_" +:+ String.substring 0 8 uuid) +:+ ".zip"].
Proof. unfold batch_archive_of, batch_zip_of. rewrite join_app by done. done. Qed.

Lemma batch_archive_outside uuid : below (batch_dir_of uuid) (batch_archive_of uuid) = None.
Proof.
  rewrite batch_dir_of_app, batch_archive_of_eq. reflexivity.
Qed.

(** ** Builds that raise *)

(** After the archive step a build cannot raise with the staging
    directory removed: the archive is written outside the staging
    directory, so once the directory is removed the archive is sent. *)
Lemma archive_tail_raised (base P : path) (name : string) (fs fs' : filesystem) (e : exn) :
  below P (add_suffix base ".zip") = None → add_suffix base ".zip" ≠ [] →
  node_at fs P = Some Dir →
  (make_archive base P ;; rmtree P ;; send_file (add_suffix base ".zip") name) fs
    = (inl e, fs') →
  node_at fs' P = Some Dir.
Proof.
  intros Hout Hne HP. unfold mbind at 1, io_bind at 1.
  pose proof (make_archive_extends base P fs) as Hext.
  destruct (make_archive base P fs) as [[e1|[]] fs1] eqn:Harch; simpl in Hext.
  { intros [= _ <-]. by apply (extends_dir fs). }
  assert (node_at fs1 P = Some Dir) as HP1 by by apply (extends_dir fs).
  rewrite (bind_run _ _ _ _ _ (rmtree_run P fs1 HP1)).
  unfold send_file. rewrite (node_at_lookup _ _ Hne).
  rewrite (rmtree_ok P fs1 _ (rmtree_run P fs1 HP1)), Hout.
  by rewrite (make_archive_ok _ _ _ _ Harch).
Qed.

(** A step that only adds to the disk, followed by steps that leave the
    directory [P] when they raise. *)
Lemma bind_raised_dir {A B : Type} (m : io A) (f : A → io B) (P : path)
    (fs fs' : filesystem) (e : exn) :
  extends fs (m fs).2 →
  (∀ a fs1 fs2 e', node_at fs1 P = Some Dir → f a fs1 = (inl e', fs2) →
                   node_at fs2 P = Some Dir) →
  node_at fs P = Some Dir →
  (m ≫= f) fs = (inl e, fs') → node_at fs' P = Some Dir.
Proof.
  intros Hext Hf HP. unfold mbind, io_bind.
  destruct (m fs) as [[e1|a] fs1]; simpl in Hext.
  - intros [= _ <-]. by apply (extends_dir fs).
  - apply Hf. by apply (extends_dir fs).
Qed.

Lemma raised_dir {A : Type} (m : io A) (P : path) (fs : filesystem) (e : exn) :
  (∀ e' fs', m fs = (inl e', fs') → node_at fs' P = Some Dir) →
  (m fs).1 = inl e → node_at (m fs).2 P = Some Dir.
Proof. destruct (m fs) as [[e1|a] fs1]; simpl; [eauto|discriminate]. Qed.

(** A single-package build that raises after it made its staging
    directory leaves the directory on disk. *)
Lemma download_package_raised reg id j d e fs fs1 :
  reg !! id = Some j → output_dir j = Some d →
  makedirs (package_dir_of id) fs = (inr (), fs1) →
  (download_package reg id fs).1 = inl e →
  node_at (download_package reg id fs).2 (package_dir_of id) = Some Dir.
Proof.
  intros Hj Hd Hmk. unfold download_package. rewrite Hj.
  destruct (decide (status j = Completed)); [|discriminate].
  unfold get_output_dir. rewrite Hd. rewrite (bind_run _ _ fs d fs) by done.
  cbn beta zeta. fold (package_dir_of id). rewrite (bind_run _ _ _ _ _ Hmk).
  assert (node_at fs1 (package_dir_of id) = Some Dir) as HP.
  { apply makedirs_ok in Hmk. specialize (Hmk (length (package_dir_of id))).
    by rewrite firstn_all in Hmk. }
  apply raised_dir. intros e' fs'.
  apply bind_raised_dir; [apply makedirs_extends| |done].
  intros _ fs2 fs2' e2 HP2. apply bind_raised_dir; [apply copy_if_exists_extends| |done].
  intros _ fs3 fs3' e3 HP3. apply bind_raised_dir; [apply copy_images_extends| |done].
  intros _ fs4 fs4' e4 HP4. apply archive_tail_raised; [|by rewrite package_dir_of_app|done].
  apply package_zip_outside.
Qed.

(** A batch build that raises after it made its staging directory
    leaves the directory on disk. *)
Lemma batch_build_raised reg uuid ids e fs fs1 :
  makedirs (batch_dir_of uuid) fs = (inr (), fs1) →
  (batch_build reg uuid ids fs).1 = inl e →
  node_at (batch_build reg uuid ids fs).2 (batch_dir_of uuid) = Some Dir.
Proof.
  intros Hmk. unfold batch_build. rewrite (bind_run _ _ _ _ _ Hmk).
  assert (node_at fs1 (batch_dir_of uuid) = Some Dir) as HP.
  { apply makedirs_ok in Hmk. specialize (Hmk (length (batch_dir_of uuid))).
    by rewrite firstn_all in Hmk. }
  apply raised_dir. intros e' fs'.
  apply bind_raised_dir; [apply batch_rounds_extends| |done].
  intros st fs2 fs2' e2 HP2. destruct (decide (processed_count st = 0%nat)).
  - by rewrite (bind_run _ _ _ _ _ (rmtree_run _ fs2 HP2)).
  - apply archive_tail_raised; [apply batch_archive_outside| |done].
    fold (batch_archive_of uuid). by rewrite batch_archive_of_eq.
Qed.

Lemma download_package_sent reg id fs p name :
  (download_package reg id fs).1 = inr (SendFile p name) →
  p = package_zip_of id ∧
  (∃ c, node_at (download_package reg id fs).2 p = Some (File c)) ∧
  ∀ q, under (package_dir_of id) q → (download_package reg id fs).2 !! q = None.
Proof.
  destruct (download_package reg id fs) as [[e|r] fs'] eqn:H; simpl; [discriminate|].
  intros [= ->]. unfold download_package in H. fold (package_dir_of id) in H.
  destruct (reg !! id) as [j|]; [|discriminate].
  destruct (decide (status j = Completed)); [|discriminate].
  apply bind_inr in H as (d & fs1 & _ & H).
  apply bind_inr in H as ([] & fs2 & _ & H).
  apply bind_inr in H as ([] & fs3 & _ & H).
  apply bind_inr in H as (c1 & fs4 & _ & H).
  apply bind_inr in H as ([] & fs5 & _ & H).
  apply bind_inr in H as ([] & fs6 & _ & H).
  apply bind_inr in H as ([] & fs7 & Hrm & H).
  apply send_file_ok in H as (Hr & -> & c & Hc). injection Hr as -> ->.
  split; [done|]. split; [by exists c|].
  intros q [r Hq]. rewrite (rmtree_ok _ _ _ Hrm q). by rewrite Hq.
Qed.

Lemma batch_build_done reg uuid ids fs r :
  (batch_build reg uuid ids fs).1 = inr r →
  (r = Empty ∨
   r = SendFile (batch_archive_of uuid) (match r with SendFile _ n => n | _ => "" end) ∧
   ∃ c, node_at (batch_build reg uuid ids fs).2 (batch_archive_of uuid) = Some (File c)) ∧
  ∀ q, under (batch_dir_of uuid) q → (batch_build reg uuid ids fs).2 !! q = None.
Proof.
  destruct (batch_build reg uuid ids fs) as [[e|r0] fs'] eqn:H; simpl; [discriminate|].
  intros [= ->]. unfold batch_build in H.
  apply bind_inr in H as ([] & fs1 & _ & H).
  apply bind_inr in H as (st & fs2 & _ & H).
  destruct (decide (processed_count st = 0%nat)).
  - apply bind_inr in H as ([] & fs3 & Hrm & H). injection H as <- <-.
    split; [by left|].
    intros q [r' Hq]. rewrite (rmtree_ok _ _ _ Hrm q). by rewrite Hq.
  - apply bind_inr in H as ([] & fs3 & _ & H).
    apply bind_inr in H as ([] & fs4 & Hrm & H).
    apply send_file_ok in H as (-> & -> & c & Hc).
    split; [right; split; [done|by exists c]|].
    intros q [r' Hq]. rewrite (rmtree_ok _ _ _ Hrm q). by rewrite Hq.
Qed.

(** C2, as the code has it. When a single-package build sends its
    archive, and when a batch build sends its archive or answers that
    nothing was found, the staging directory and all below it are gone
    and the archive sent is a file on disk; whatever the outcome, a build
    changes nothing but the staging directory (with the folders above
    it, which it may create) and the archive. No cleanup runs on a
    failure path: a build that raises after it made its staging
    directory (the single-package build propagating the exception, the
    batch build answering 500) leaves the directory on disk. When the
    record of a single-package build has no 'output_dir', the build
    raises before it makes a staging directory, and the disk is as it
    was. *)
Theorem staging_removed_when_built (reg : registry) (fs : filesystem) :
  (∀ id p name, (download_package reg id fs).1 = inr (SendFile p name) →
     p = package_zip_of id ∧
     (∃ c, node_at (download_package reg id fs).2 p = Some (File c)) ∧
     (∀ q, under (package_dir_of id) q → (download_package reg id fs).2 !! q = None)) ∧
  (∀ id, touches (build_area (package_dir_of id) (package_zip_of id)) fs
                 (download_package reg id fs).2) ∧
  (∀ uuid arg,
     (download_all_pdfs reg uuid arg fs).1 = Empty ∨
     (∃ p name, (download_all_pdfs reg uuid arg fs).1 = SendFile p name) →
     (∀ p name, (download_all_pdfs reg uuid arg fs).1 = SendFile p name →
        p = batch_archive_of uuid ∧
        ∃ c, node_at (download_all_pdfs reg uuid arg fs).2 p = Some (File c)) ∧
     (∀ q, under (batch_dir_of uuid) q → (download_all_pdfs reg uuid arg fs).2 !! q = None)) ∧
  (∀ uuid arg, touches (build_area (batch_dir_of uuid) (batch_archive_of uuid)) fs
                       (download_all_pdfs reg uuid arg fs).2) ∧
  (∀ id j d e fs1,
     reg !! id = Some j → output_dir j = Some d →
     makedirs (package_dir_of id) fs = (inr (), fs1) →
     (download_package reg id fs).1 = inl e →
     node_at (download_package reg id fs).2 (package_dir_of id) = Some Dir) ∧
  (∀ id j,
     reg !! id = Some j → status j = Completed → output_dir j = None →
     download_package reg id fs = (inl (KeyError "output_dir"), fs)) ∧
  (∀ uuid arg text fs1,
     makedirs (batch_dir_of uuid) fs = (inr (), fs1) →
     (download_all_pdfs reg uuid arg fs).1 = Text text 500 →
     node_at (download_all_pdfs reg uuid arg fs).2 (batch_dir_of uuid) = Some Dir).
Proof.
  split; [intros id p name; apply download_package_sent|].
  split; [intros id; apply download_package_in_area|].
  split.
  { intros uuid arg Hr. unfold download_all_pdfs in *.
    destruct (decide (PyStr.split "," (default "" arg) = [""])) as [|Hids].
    { simpl in Hr. destruct Hr as [Hr|(p & name & Hr)]; discriminate. }
    pose proof (batch_build_done reg uuid (PyStr.split "," (default "" arg)) fs) as Hdone.
    destruct (batch_build reg uuid (PyStr.split "," (default "" arg)) fs)
      as [[e|r] fs'] eqn:Hb; simpl in *.
    { destruct Hr as [Hr|(p & name & Hr)]; discriminate. }
    destruct (Hdone r eq_refl) as [Hcase Hgone]. split; [|done].
    intros p name ->. destruct Hcase as [Hcase|[Hcase Hfile]]; [discriminate|].
    by injection Hcase as ->. }
  split.
  { intros uuid arg. unfold download_all_pdfs.
    destruct (decide (PyStr.split "," (default "" arg) = [""])); [done|].
    pose proof (batch_build_in_area reg uuid (PyStr.split "," (default "" arg)) fs) as Ht.
    by destruct (batch_build reg uuid (PyStr.split "," (default "" arg)) fs) as [[e|r] fs']. }
  split; [intros id j d e fs1; apply download_package_raised|].
  split.
  { intros id j Hj Hs Hd. unfold download_package. rewrite Hj.
    rewrite decide_True by done. unfold get_output_dir. by rewrite Hd. }
  intros uuid arg text fs1 Hmk. unfold download_all_pdfs.
  destruct (decide (PyStr.split "," (default "" arg) = [""])); [discriminate|].
  pose proof (batch_build_done reg uuid (PyStr.split "," (default "" arg)) fs) as Hdone.
  pose proof (λ e, batch_build_raised reg uuid (PyStr.split "," (default "" arg)) e
                     fs fs1 Hmk) as Hraised.
  destruct (batch_build reg uuid (PyStr.split "," (default "" arg)) fs)
    as [[e|r] fs'] eqn:Hb; simpl in *.
  - intros _. by apply (Hraised e).
  - intros ->. destruct (Hdone _ eq_refl) as [[Hcase|[Hcase _]] _]; discriminate.
Qed.

Lemma staging_removed_when_built_witness :
  (download_all_pdfs Sample.finished Sample.uuid (Some "j1,j2") Sample.disk).1
    = SendFile ["outputs"; "all_pdfs_0f8fad5b.zip"] "all_converted_pdfs_2_files.zip" ∧
  (∀ q, under Sample.staging q →
        (download_all_pdfs Sample.finished Sample.uuid (Some "j1,j2") Sample.disk).2 !! q = None) ∧
  (download_package Sample.finished "j1" Sample.disk).1
    = inr (SendFile ["outputs"; "j1_package.zip"] "paper_complete.zip") ∧
  (∀ q, under ["outputs"; "j1_package"] q →
        (download_package Sample.finished "j1" Sample.disk).2 !! q = None) ∧
  node_at (download_package {["j4" := Sample.with_folder]} "j4" Sample.folder_disk).2
          (package_dir_of "j4") = Some Dir ∧
  node_at (download_all_pdfs {["j1" := Sample.torn]} Sample.uuid (Some "j1") Sample.disk).2
          (batch_dir_of Sample.uuid) = Some Dir.
Proof.
  assert ((download_all_pdfs Sample.finished Sample.uuid (Some "j1,j2") Sample.disk).1
          = SendFile ["outputs"; "all_pdfs_0f8fad5b.zip"] "all_converted_pdfs_2_files.zip")
    as Hall by (vm_compute; reflexivity).
  assert ((download_package Sample.finished "j1" Sample.disk).1
          = inr (SendFile ["outputs"; "j1_package.zip"] "paper_complete.zip"))
    as Hone by (vm_compute; reflexivity).
  destruct (staging_removed_when_built Sample.finished Sample.disk) as (H1 & _ & H3 & _).
  split; [exact Hall|]. split; [apply (H3 Sample.uuid (Some "j1,j2")); right; eauto|].
  split; [exact Hone|]. split; [apply (H1 "j1" _ _ Hone)|]. split.
  - destruct (staging_removed_when_built {["j4" := Sample.with_folder]} Sample.folder_disk)
      as (_ & _ & _ & _ & H5 & _).
    apply (H5 "j4" Sample.with_folder ["outputs"; "j4"]
              (IsADirectoryError ["outputs"; "j4"; "figures"])
              (makedirs (package_dir_of "j4") Sample.folder_disk).2);
      vm_compute; reflexivity.
  - destruct (staging_removed_when_built {["j1" := Sample.torn]} Sample.disk)
      as (_ & _ & _ & _ & _ & _ & H7).
    apply (H7 Sample.uuid (Some "j1") "Error creating batch download: 'output_dir'"
              (makedirs (batch_dir_of Sample.uuid) Sample.disk).2);
      vm_compute; reflexivity.
Defined.

(** The staging directory stays when a step raises: in a batch build
    that meets a job whose record says completed and has no 'output_dir'
    yet, and in a single-package build that meets a folder among the
    listed images. *)
Lemma staging_left_on_exception :
  (download_all_pdfs {["j1" := Sample.torn]} Sample.uuid (Some "j1") Sample.disk).1
    = Text "Error creating batch download: 'output_dir'" 500 ∧
  node_at (download_all_pdfs {["j1" := Sample.torn]} Sample.uuid (Some "j1") Sample.disk).2
          (batch_dir_of Sample.uuid) = Some Dir ∧
  (download_package {["j4" := Sample.with_folder]} "j4" Sample.folder_disk).1
    = inl (IsADirectoryError ["outputs"; "j4"; "figures"]) ∧
  node_at (download_package {["j4" := Sample.with_folder]} "j4" Sample.folder_disk).2
          (package_dir_of "j4") = Some Dir.
Proof. repeat split; vm_compute; reflexivity. Qed.

(** The registry of the batch case arises in a run of the server. *)
Lemma torn_record_reachable :
  ∃ σ, pool_reachable Sample.engine σ ∧ pool_reg σ = {["j1" := Sample.torn]}.
Proof.
  eexists. split.
  - unfold pool_reachable.
    eapply rtc_l; [exact (step_submit Sample.engine ∅ [] [] (Sample.args "j1")
                            "2024-05-01T10:00:00" (lookup_empty _))|].
    eapply rtc_l; [apply (step_start Sample.engine _ [] [] (Sample.args "j1"));
                   unfold max_workers; simpl; lia|].
    do 9 (eapply rtc_l; [eapply (step_write Sample.engine _ _ _ [] []); reflexivity|]).
    apply rtc_refl.
  - vm_compute. reflexivity.
Qed.

(** A job that reads completed need not have its 'output_dir': in the
    state the server reaches between the two assignments of the task,
    the artifact download raises KeyError although the file asked for
    is in the output directory of the job. *)
Lemma download_image_before_output_dir :
  (∃ σ, pool_reachable Sample.engine σ ∧ pool_reg σ = {["j1" := Sample.torn]}) ∧
  status Sample.torn = Completed ∧
  node_at Sample.disk ["outputs"; "j1"; "0_0.png"] = Some (File (Raw "PNG0")) ∧
  download_image {["j1" := Sample.torn]} "j1" "0_0.png" Sample.disk
    = (inl (KeyError "output_dir"), Sample.disk).
Proof.
  split; [exact torn_record_reachable|]. repeat split; vm_compute; reflexivity.
Qed.

(** ** A batch build that goes through *)

Ltac by_length :=
  let H := fresh in
  intros H; apply (f_equal length) in H;
  repeat (progress (simpl in H; rewrite ?length_app in H)); simpl in H; lia.


Lemma under_length (root q : path) : under root q → (length root ≤ length q)%nat.
Proof. intros [r Hr]. apply below_Some in Hr as ->. rewrite length_app. lia. Qed.


Lemma not_under_None (root q : path) : ¬ under root q → below root q = None.
Proof. unfold under. destruct (below root q); [intros H; destruct H; eauto|done]. Qed.

Lemma under_None (root q : path) : below root q = None → ¬ under root q.
Proof. unfold under. intros -> [r Hr]. discriminate. Qed.



Lemma batch_round_skip reg bd st raw fs :
  is_staged reg raw = false → batch_round reg bd st raw fs = (inr st, fs).
Proof.
  unfold is_staged, batch_round. intros H.
  destruct (decide (PyStr.strip raw = "")); [done|].
  destruct (reg !! PyStr.strip raw) as [j|]; [|done].
  destruct (decide (status j = Completed)); [|done].
  by rewrite !bool_decide_eq_true_2 in H.
Qed.

Lemma md_name_ne (name : string) : name +:+ ".md" ≠ "" ∧ name +:+ ".md" ≠ "images".
Proof.
  split; [by apply string_app_ne_nil|].
  intros H.
  assert (String.length name = 3%nat) as Hlen.
  { apply (f_equal String.length) in H. rewrite string_length_app in H. simpl in H. lia. }
  destruct name as [|a [|b [|c [|e name]]]]; simpl in *; discriminate.
Qed.












(** A disk has nothing under a path when none of its entries lies there. *)
Lemma no_entry_under (fs : filesystem) (bd : path) :
  forallb (λ kv, bool_decide (below bd kv.1 = None)) (map_to_list fs) = true →
  ∀ q, under bd q → fs !! q = None.
Proof.
  intros Hall q Hq. destruct (fs !! q) as [n|] eqn:Hn; [|done].
  apply elem_of_map_to_list in Hn. rewrite forallb_forall in Hall.
  apply list_elem_of_In in Hn. apply Hall in Hn. apply bool_decide_eq_true in Hn.
  by apply under_None in Hn.
Qed.



(** * Further properties *)

(** ** More on the worker task *)

Section MoreWorkerFacts.

Variable parse_pdf : kwargs → engine_result.

Lemma store_all_absent ws : ∀ (reg : registry) id w,
  reg !! id = None → store_all id (w :: ws) reg = (Some (KeyError id), reg).
Proof. intros reg id w H. simpl. unfold store. by rewrite H. Qed.

(** X1. A task whose job is not in the registry ends with the KeyError
    of its first assignment: the handler of the task raises it again,
    so the exception leaves the task, and the registry is unchanged. *)
Theorem process_pdf_task_unregistered (a : task_args) (reg : registry) :
  reg !! ta_job_id a = None →
  process_pdf_task parse_pdf a reg = (Some (KeyError (ta_job_id a)), reg).
Proof.
  intros H. unfold process_pdf_task, task_try, writes_before_engine, writes_on_exception.
  by rewrite !(store_all_absent _ _ _ _ H).
Qed.

(** X2. While a job goes through its task, from the record that
    [upload_pdf] stores, no assignment lowers its progress unless the
    record then reads failed: progress that a client polls goes down
    only on a failed job. *)
Theorem progress_never_drops (a : task_args) (now : string) (i : nat) (r r' : job) :
  let j0 := new_job (ta_job_id a) (ta_pdf_path a) (ta_filename a) now in
  (j0 :: records_after (task_writes parse_pdf a) j0) !! i = Some r →
  (j0 :: records_after (task_writes parse_pdf a) j0) !! S i = Some r' →
  status r' ≠ Failed →
  progress r ≤ progress r'.
Proof.
  intros j0. unfold task_writes, j0.
  destruct (parse_pdf (task_kwargs a)) as [c imgs|text]; simpl;
    do 14 (destruct i as [|i]; [intros [= <-] [= <-]; simpl; first [lia|done]|]);
    simpl; discriminate.
Qed.

End MoreWorkerFacts.

Lemma process_pdf_task_unregistered_witness :
  process_pdf_task Sample.engine (Sample.args "j9") {["j1" := Sample.queued]}
    = (Some (KeyError "j9"), {["j1" := Sample.queued]}).
Proof.
  apply (process_pdf_task_unregistered Sample.engine (Sample.args "j9")
           {["j1" := Sample.queued]}).
  reflexivity.
Defined.

Lemma progress_never_drops_witness :
  progress (foldl (λ r w, apply_write w r) Sample.queued
              (take 4 (task_writes Sample.engine (Sample.args "j1"))))
  ≤ progress (foldl (λ r w, apply_write w r) Sample.queued
                (take 5 (task_writes Sample.engine (Sample.args "j1")))).
Proof.
  apply (progress_never_drops Sample.engine (Sample.args "j1") "2024-05-01T10:00:00" 4).
  - reflexivity.
  - reflexivity.
  - vm_compute. discriminate.
Defined.

(** ** More on the pool *)

Lemma status_after_snoc s ws w :
  status_after s (ws ++ [w]) = match w with SetStatus s' => s' | _ => status_after s ws end.
Proof. unfold status_after. rewrite foldl_app. by destruct w. Qed.

Lemma fields_agree_new id pdf name now : fields_agree (new_job id pdf name now).
Proof. repeat split; simpl; intros [? ?]; discriminate. Qed.

Lemma late_keys_at (l : list write) : ∀ (n : nat) (s : job_status) (w : write) (ws : list write),
  late_keys_ok s l → drop n l = w :: ws →
  match w with
  | SetError _ => status_after s (take n l) = Failed
  | SetImages _ | SetOutputDir _ => status_after s (take n l) = Completed
  | _ => True
  end.
Proof.
  induction l as [|x l IH]; intros n s w ws Hok Hdrop.
  - by rewrite drop_nil in Hdrop.
  - destruct Hok as [Hx Hl]. destruct n as [|n].
    + simpl in Hdrop. injection Hdrop as -> ->. by destruct w.
    + simpl in Hdrop. apply (IH n _ w ws Hl Hdrop).
Qed.

Section MorePoolFacts.

Variable parse_pdf : kwargs → engine_result.

Lemma task_writes_late_keys (a : task_args) : late_keys_ok Queued (task_writes parse_pdf a).
Proof.
  unfold task_writes. destruct (parse_pdf (task_kwargs a)) as [c imgs|text];
    unfold writes_before_engine, writes_on_return, writes_on_exception, app, late_keys_ok;
    tauto.
Qed.

(** Where the assignments of the late keys stand in the program. *)
Lemma late_keys_point (a : task_args) (n : nat) (w : write) (ws : list write) :
  drop n (task_writes parse_pdf a) = w :: ws →
  match w with
  | SetError _ => status_after Queued (take n (task_writes parse_pdf a)) = Failed
  | SetImages _ | SetOutputDir _ =>
      status_after Queued (take n (task_writes parse_pdf a)) = Completed
  | _ => True
  end.
Proof.
  intros Hdrop. apply (late_keys_at (task_writes parse_pdf a) n Queued w ws);
    [apply task_writes_late_keys|done].
Qed.

Lemma fields_agree_write (j : job) (w : write) (a : task_args) (n : nat) (ws : list write) :
  fields_agree j →
  drop n (task_writes parse_pdf a) = w :: ws →
  status j = status_after Queued (take n (task_writes parse_pdf a)) →
  coherent (status j) (w :: ws) →
  fields_agree (apply_write w j).
Proof.
  intros (He & Hi & Ho) Hdrop Hst Hc.
  pose proof (late_keys_point a n w ws Hdrop) as Hlate. rewrite <- Hst in Hlate.
  destruct w as [s'| | | | | |]; unfold fields_agree; simpl; try tauto.
  assert (terminal (status j) = false) as Hnt.
  { unfold coherent in Hc. rewrite status_writes_cons in Hc.
    destruct (status j); [done|done|discriminate|discriminate]. }
  repeat split; intros Hsome;
    [apply He in Hsome|apply Hi in Hsome|apply Ho in Hsome];
    rewrite Hsome in Hnt; discriminate.
Qed.

Lemma pool_fields_inv_init : pool_fields_inv parse_pdf pool_init.
Proof.
  split; [apply pool_inv_init| |]; simpl.
  - intros id j Hj. by rewrite lookup_empty in Hj.
  - intros t Ht. by apply not_elem_of_nil in Ht.
Qed.

Lemma at_point_other (reg : registry) (t : running_task) (id : string) (j : job) :
  rt_job t ≠ id → at_point parse_pdf reg t → at_point parse_pdf (<[id := j]> reg) t.
Proof.
  intros Hne (a & n & j' & Htodo & Hj' & Hs). exists a, n, j'.
  by rewrite lookup_insert_ne.
Qed.

Lemma pool_fields_inv_step σ σ' :
  pool_fields_inv parse_pdf σ → pool_step parse_pdf σ σ' → pool_fields_inv parse_pdf σ'.
Proof.
  intros [Hinv Hfields Hpoint] Hstep.
  pose proof (pool_inv_step parse_pdf σ σ' Hinv Hstep) as Hinv'.
  split; [exact Hinv'| |];
    destruct Hstep as [reg queue running a now Hfresh
                      |reg queue running a Hfree
                      |reg reg' queue r1 r2 id w ws Hstore
                      |reg queue r1 r2 id]; simpl in *.
  - intros id j Hj. destruct (decide (id = ta_job_id a)) as [->|Hne].
    + rewrite lookup_insert_eq in Hj. injection Hj as <-. apply fields_agree_new.
    + rewrite lookup_insert_ne in Hj by done. by apply (Hfields id).
  - done.
  - unfold store in Hstore. destruct (reg !! id) as [j0|] eqn:Hj0; [|discriminate].
    injection Hstore as <-. intros id' j Hj.
    destruct (decide (id' = id)) as [->|Hne].
    + rewrite lookup_insert_eq in Hj. injection Hj as <-.
      destruct (Hpoint (Running id (w :: ws))) as (a & n & j1 & Htodo & Hj1 & Hs).
      { apply elem_of_app. right. by left. }
      simpl in *. rewrite Hj0 in Hj1. injection Hj1 as <-.
      destruct (inv_running _ Hinv (Running id (w :: ws))) as (j2 & Hj2 & Hc).
      { simpl. apply elem_of_app. right. by left. }
      simpl in *. rewrite Hj0 in Hj2. injection Hj2 as <-.
      apply (fields_agree_write j0 w a n ws); [by apply (Hfields id)|done..].
    + rewrite lookup_insert_ne in Hj by done. by apply (Hfields id').
  - done.
  - intros t Ht. apply at_point_other; [|by apply Hpoint].
    intros Heq. destruct (inv_running _ Hinv t Ht) as (j & Hj & _). simpl in Hj.
    rewrite Heq in Hj. congruence.
  - intros t Ht. apply elem_of_app in Ht as [Ht|Ht]; [by apply Hpoint|].
    apply list_elem_of_singleton in Ht as ->.
    destruct (inv_queue _ Hinv a) as (j & Hj & Hs); [by left|].
    exists a, 0%nat, j. split; [done|]. split; [done|]. by rewrite take_0.
  - unfold store in Hstore. destruct (reg !! id) as [j0|] eqn:Hj0; [|discriminate].
    injection Hstore as <-.
    pose proof (inv_nodup _ Hinv) as Hnd. unfold task_ids in Hnd. simpl in Hnd.
    rewrite fmap_app in Hnd. simpl in Hnd. rewrite app_assoc in Hnd.
    apply NoDup_mid in Hnd as (Hid1 & Hid2 & _).
    assert (at_point parse_pdf (<[id := apply_write w j0]> reg) (Running id ws)) as Hnew.
    { destruct (Hpoint (Running id (w :: ws))) as (a & n & j1 & Htodo & Hj1 & Hs).
      { apply elem_of_app. right. by left. }
      simpl in *. rewrite Hj0 in Hj1. injection Hj1 as <-.
      assert (task_writes parse_pdf a !! n = Some w) as Hlook.
      { rewrite <- (Nat.add_0_r n), <- lookup_drop, <- Htodo. done. }
      exists a, (S n), (apply_write w j0). split; [|split].
      - rewrite (drop_S _ _ _ Hlook) in Htodo. simpl. by injection Htodo.
      - apply lookup_insert_eq.
      - rewrite (take_S_r _ _ _ Hlook).
        rewrite status_after_snoc, status_apply_write. by destruct w. }
    intros t Ht. apply elem_of_app in Ht as [Ht|Ht].
    + apply at_point_other; [|apply Hpoint, elem_of_app; by left].
      intros Heq. apply Hid1. rewrite <- Heq. apply elem_of_app. right.
      by apply list_elem_of_fmap_2.
    + apply elem_of_cons in Ht as [->|Ht]; [done|].
      apply at_point_other; [|apply Hpoint, elem_of_app; right; by right].
      intros Heq. apply Hid2. rewrite <- Heq. by apply list_elem_of_fmap_2.
  - intros t Ht. apply Hpoint. apply elem_of_app in Ht as [Ht|Ht];
      apply elem_of_app; [by left|right; by right].
Qed.

Lemma pool_fields_inv_reachable σ :
  pool_reachable parse_pdf σ → pool_fields_inv parse_pdf σ.
Proof.
  unfold pool_reachable. revert σ.
  apply (rtc_ind_r (R := pool_step parse_pdf) (pool_fields_inv parse_pdf) pool_init);
    [apply pool_fields_inv_init|].
  intros σ1 σ2 _ Hstep Hinv. by apply (pool_fields_inv_step σ1).
Qed.

End MorePoolFacts.

Section PoolRuns.

Variable parse_pdf : kwargs → engine_result.

Lemma pool_inv_rtc σ σ' :
  pool_inv σ → rtc (pool_step parse_pdf) σ σ' → pool_inv σ'.
Proof.
  intros Hinv Hrtc. induction Hrtc as [|σ1 σ2 σ3 Hstep _ IH]; [done|].
  apply IH. by apply (pool_inv_step parse_pdf σ1).
Qed.

(** A running task can make its next [n] assignments, whatever else is
    in the pool; they change the record of its job and no other. *)
Lemma run_task_writes (n : nat) : ∀ (σ : pool_state) (i : nat) (id : string) (todo : list write),
  pool_inv σ →
  pool_running σ !! i = Some (Running id todo) →
  ∃ reg', rtc (pool_step parse_pdf) σ
              (Pool reg' (pool_queue σ) (<[i := Running id (drop n todo)]> (pool_running σ))) ∧
          (∀ j, pool_reg σ !! id = Some j →
                reg' !! id = Some (foldl (λ r w, apply_write w r) j (take n todo))) ∧
          (∀ id', id' ≠ id → reg' !! id' = pool_reg σ !! id').
Proof.
  induction n as [|n IH]; intros σ i id todo Hinv Hi.
  - exists (pool_reg σ). rewrite drop_0, list_insert_id by done. destruct σ.
    split; [apply rtc_refl|]. by split.
  - destruct todo as [|w ws].
    + exists (pool_reg σ). simpl. rewrite list_insert_id by done. destruct σ.
      split; [apply rtc_refl|]. by split.
    + destruct σ as [reg queue running]. simpl in *.
      destruct (inv_running _ Hinv (Running id (w :: ws))) as (j0 & Hj0 & _).
      { simpl. by apply (list_elem_of_lookup_2 _ i). }
      simpl in Hj0.
      pose proof (pool_step_write_at parse_pdf reg _ queue running i id w ws Hi
                    (store_present reg id w j0 Hj0)) as Hstep.
      set (σ1 := Pool (<[id := apply_write w j0]> reg) queue (<[i := Running id ws]> running)).
      assert (pool_inv σ1) as Hinv1 by by apply (pool_inv_step parse_pdf _ _ Hinv).
      destruct (IH σ1 i id ws Hinv1) as (reg' & Hrun & Hjob & Hother).
      { simpl. apply list_lookup_insert_eq. by apply lookup_lt_Some in Hi. }
      simpl in *. rewrite list_insert_insert_eq in Hrun.
      exists reg'. split; [by eapply rtc_l|]. split.
      * intros j Hj. rewrite Hj0 in Hj. injection Hj as <-.
        apply Hjob. apply lookup_insert_eq.
      * intros id' Hne. rewrite Hother by done. by rewrite lookup_insert_ne.
Qed.

(** X3. In every state the server reaches, each registered job is
    accounted for: its task waits in the queue and the job is queued, or
    its task runs, or it has no task and is completed or failed; and no
    job has two tasks. *)
Theorem jobs_accounted_for (σ : pool_state) (id : string) (j : job) :
  pool_reachable parse_pdf σ →
  pool_reg σ !! id = Some j →
  NoDup (task_ids σ) ∧
  ((id ∈ ta_job_id <$> pool_queue σ) ∧ status j = Queued ∨
   (id ∈ rt_job <$> pool_running σ) ∨
   (id ∉ task_ids σ) ∧ terminal (status j) = true).
Proof.
  intros Hreach Hj. pose proof (pool_inv_reachable parse_pdf σ Hreach) as Hinv.
  split; [apply (inv_nodup _ Hinv)|].
  destruct (decide (id ∈ task_ids σ)) as [Hin|Hout].
  - unfold task_ids in Hin. apply elem_of_app in Hin as [Hin|Hin]; [left|by right; left].
    split; [done|]. apply list_elem_of_fmap in Hin as (a & -> & Ha).
    destruct (inv_queue _ Hinv a Ha) as (j' & Hj' & Hs). congruence.
  - right. right. split; [done|]. by apply (inv_idle _ Hinv id).
Qed.

(** X4. In every state the server reaches, the next assignment of a
    running task goes through: the job it writes to is registered, so no
    assignment of a worker raises KeyError. *)
Theorem running_task_never_raises (σ : pool_state) (id : string) (w : write)
    (ws : list write) :
  pool_reachable parse_pdf σ →
  Running id (w :: ws) ∈ pool_running σ →
  ∃ j, pool_reg σ !! id = Some j ∧
       store id w (pool_reg σ) = inr (<[id := apply_write w j]> (pool_reg σ)).
Proof.
  intros Hreach Hin. pose proof (pool_inv_reachable parse_pdf σ Hreach) as Hinv.
  destruct (inv_running _ Hinv _ Hin) as (j & Hj & _). simpl in Hj.
  exists j. split; [done|]. by apply store_present.
Qed.

(** X5. Nothing in the registry or in the other tasks blocks a running
    task: from every state the server reaches there is a run in which
    the task makes all its assignments, its job becomes completed or
    failed and the task leaves its worker, the queue being as it was.
    (The engine is a function here: its call returns or raises.) *)
Theorem running_task_can_finish (σ : pool_state) (t : running_task) :
  pool_reachable parse_pdf σ →
  t ∈ pool_running σ →
  ∃ σ', rtc (pool_step parse_pdf) σ σ' ∧
        (∃ j, pool_reg σ' !! rt_job t = Some j ∧ terminal (status j) = true) ∧
        S (length (pool_running σ')) = length (pool_running σ) ∧
        pool_queue σ' = pool_queue σ.
Proof.
  intros Hreach Hin. pose proof (pool_inv_reachable parse_pdf σ Hreach) as Hinv.
  apply list_elem_of_lookup in Hin as [i Hi]. destruct t as [id todo].
  destruct (run_task_writes (length todo) σ i id todo Hinv Hi) as (reg' & Hrun & _ & _).
  rewrite drop_all in Hrun.
  set (σ1 := Pool reg' (pool_queue σ) (<[i := Running id []]> (pool_running σ))) in *.
  pose proof (pool_inv_rtc σ σ1 Hinv Hrun) as Hinv1.
  assert (i < length (pool_running σ))%nat as Hlt by by apply lookup_lt_Some in Hi.
  destruct (inv_running _ Hinv1 (Running id [])) as (j & Hj & Hc).
  { simpl. apply (list_elem_of_lookup_2 _ i). by apply list_lookup_insert_eq. }
  simpl in Hj, Hc.
  assert (<[i := Running id []]> (pool_running σ)
          = take i (pool_running σ) ++ Running id [] :: drop (S i) (pool_running σ)) as Hsplit.
  { rewrite <- (take_drop_middle _ i _ Hi) at 1.
    rewrite insert_app_r_alt by (rewrite length_take; lia).
    rewrite length_take_le by lia. by rewrite Nat.sub_diag. }
  exists (Pool reg' (pool_queue σ) (take i (pool_running σ) ++ drop (S i) (pool_running σ))).
  split; [|split; [|split]].
  - eapply rtc_r; [exact Hrun|]. unfold σ1. rewrite Hsplit. apply step_finish.
  - exists j. split; [done|]. by apply coherent_done.
  - simpl. rewrite length_app, length_take_le, length_drop by lia. lia.
  - done.
Qed.

(** X6. In every state the server reaches, a record has the key 'error'
    only when its status is failed, and the keys 'images' and
    'output_dir' only when its status is completed. *)
Theorem late_keys_follow_status (σ : pool_state) (id : string) (j : job) :
  pool_reachable parse_pdf σ →
  pool_reg σ !! id = Some j →
  (is_Some (error j) → status j = Failed) ∧
  (is_Some (images j) → status j = Completed) ∧
  (is_Some (output_dir j) → status j = Completed).
Proof.
  intros Hreach Hj.
  apply (pf_fields _ _ (pool_fields_inv_reachable parse_pdf σ Hreach) id j Hj).
Qed.

(** X7. [debug_jobs] counts and lists exactly the registered jobs, and
    in every state the server reaches an entry that reports an output
    directory belongs to a completed job. *)
Theorem debug_jobs_entries (σ : pool_state) (id : string) :
  pool_reachable parse_pdf σ →
  (debug_jobs (pool_reg σ)).1 = size (pool_reg σ) ∧
  dom (debug_jobs (pool_reg σ)).2 = dom (pool_reg σ) ∧
  ∀ info, (debug_jobs (pool_reg σ)).2 !! id = Some info →
    (∃ j, pool_reg σ !! id = Some j ∧ info_status info = status j ∧
          info_filename info = filename j ∧ info_progress info = progress j) ∧
    (has_output_dir info = true → info_status info = Completed).
Proof.
  intros Hreach. split; [done|]. split; [apply dom_fmap_L|].
  intros info Hinfo. unfold debug_jobs in Hinfo. simpl in Hinfo.
  rewrite lookup_fmap in Hinfo.
  destruct (pool_reg σ !! id) as [j|] eqn:Hj; [|discriminate].
  injection Hinfo as <-. simpl. split; [by exists j|].
  intros Hdir. apply bool_decide_eq_true in Hdir.
  by apply (pf_fields _ _ (pool_fields_inv_reachable parse_pdf σ Hreach) id j Hj).
Qed.

End PoolRuns.

(** With a record that says completed and has no 'output_dir', the
    downloads raise KeyError and leave the disk alone. *)
Lemma downloads_without_output_dir (reg : registry) (id name : string) (j : job)
    (fs : filesystem) :
  reg !! id = Some j → status j = Completed → output_dir j = None →
  download_markdown reg id fs = (inl (KeyError "output_dir"), fs) ∧
  download_image reg id name fs = (inl (KeyError "output_dir"), fs) ∧
  download_package reg id fs = (inl (KeyError "output_dir"), fs).
Proof.
  intros Hj Hs Hd. unfold download_markdown, download_image, download_package.
  rewrite Hj. rewrite !decide_True by done. unfold get_output_dir. rewrite Hd.
  by repeat split.
Qed.

(** X8. Status completed is assigned before 'images' and 'output_dir':
    whenever the engine returns for a job, the server passes through a
    state in which the job reads completed while every download of it
    raises KeyError for 'output_dir' (answered as a server error). *)
Theorem completed_before_output_dir (parse_pdf : kwargs → engine_result) (a : task_args)
    (content : string) (image_paths : list string) :
  parse_pdf (task_kwargs a) = Returned content image_paths →
  ∃ σ j, pool_reachable parse_pdf σ ∧
         pool_reg σ !! ta_job_id a = Some j ∧ status j = Completed ∧
         images j = None ∧ output_dir j = None ∧
         ∀ fs name,
           download_markdown (pool_reg σ) (ta_job_id a) fs = (inl (KeyError "output_dir"), fs) ∧
           download_image (pool_reg σ) (ta_job_id a) name fs
             = (inl (KeyError "output_dir"), fs) ∧
           download_package (pool_reg σ) (ta_job_id a) fs = (inl (KeyError "output_dir"), fs).
Proof.
  intros Hret.
  set (j0 := new_job (ta_job_id a) (ta_pdf_path a) (ta_filename a) "").
  set (σ2 := Pool (<[ta_job_id a := j0]> ∅) []
                  ([] ++ [Running (ta_job_id a) (task_writes parse_pdf a)])).
  assert (pool_reachable parse_pdf σ2) as Hreach2.
  { unfold pool_reachable.
    eapply rtc_l; [exact (step_submit parse_pdf ∅ [] [] a "" (lookup_empty _))|].
    eapply rtc_l; [|apply rtc_refl].
    apply (step_start parse_pdf _ [] [] a). unfold max_workers. simpl. lia. }
  destruct (run_task_writes parse_pdf 9 σ2 0 (ta_job_id a) (task_writes parse_pdf a)
              (pool_inv_reachable parse_pdf σ2 Hreach2) eq_refl)
    as (reg' & Hrun & Hjob & _).
  specialize (Hjob j0 (lookup_insert_eq _ _ _)).
  set (j := foldl (λ r w, apply_write w r) j0 (take 9 (task_writes parse_pdf a))) in *.
  assert (status j = Completed ∧ images j = None ∧ output_dir j = None) as (Hs & Hi & Hd).
  { unfold j, task_writes. rewrite Hret. by repeat split. }
  eexists _, j. split.
  { unfold pool_reachable in *. etrans; [exact Hreach2|exact Hrun]. }
  simpl. split; [exact Hjob|]. split; [done|]. split; [done|]. split; [done|].
  intros fs name. by apply (downloads_without_output_dir _ _ _ j).
Qed.

(** ** More on submission *)

Lemma get_batch_status_spec (reg : registry) (job_ids : list string) :
  get_batch_status reg (Some job_ids) = JsonJobs (omap (λ id, reg !! id) job_ids).
Proof. unfold get_batch_status. simpl. by rewrite collect_statuses_acc. Qed.

Section MoreUploadFacts.

Variable secure_filename : string → string.
Variable uuid4 : nat → string.
Variable now : nat → string.

Ltac unfold_upload_one := unfold upload_one.
Ltac unfold_upload_pdf := unfold upload_pdf.

Local Abbreviation upload_one := (upload_one secure_filename uuid4 now).
Local Abbreviation upload_all := (upload_all secure_filename uuid4 now).
Local Abbreviation upload_pdf := (upload_pdf secure_filename uuid4 now).
Local Abbreviation task_for := (task_for secure_filename uuid4).

(** X9. A request that fails a check of [upload_pdf] (no file, a first
    file without name, no API key, a worker count or a parallelism
    value that [int] rejects) is refused and changes nothing: no job is
    registered, nothing is written and nothing is submitted. *)
Theorem upload_pdf_rejected (req : upload_request) (srv : server) :
  req_pdfs req = [] ∨
  (∃ f rest, req_pdfs req = f :: rest ∧ uf_filename f = "") ∨
  req_api_key req = None ∨ req_api_key req = Some "" ∨
  (∃ e, form_int (req_gpt_worker req) 1 = inl e) ∨
  (∃ e, form_int (req_max_parallel req) 3 = inl e) →
  ∃ error, upload_pdf req srv = (UploadError error, srv).
Proof.
  unfold_upload_pdf.
  destruct (req_pdfs req) as [|f rest] eqn:Hfiles; [eauto|].
  destruct (decide (uf_filename f = "")) as [|Hname]; [eauto|].
  destruct (req_api_key req) as [[|c key]|] eqn:Hkey; [eauto| |eauto].
  destruct (form_int (req_gpt_worker req) 1) as [e|gw] eqn:Hgw; [eauto|].
  destruct (form_int (req_max_parallel req) 3) as [e|mp] eqn:Hmp; [eauto|].
  intros [H|[(f' & rest' & [= <- <-] & H)|[H|[H|[[e H]|[e H]]]]]]; try discriminate.
  done.
Qed.

Lemma store_upload_ok (pdf : path) (data : string) (out : path) (fs fs' : filesystem) :
  store_upload pdf data out fs = (inr (), fs') →
  (∃ c, fs' !! pdf = Some (File c)) ∧ node_at fs' out = Some Dir.
Proof.
  unfold store_upload. intros H. apply bind_inr in H as ([] & fs1 & Hw & Hm).
  apply write_file_ok in Hw as ->. split.
  - pose proof (makedirs_extends out (<[pdf := File (Raw data)]> fs)) as Hext.
    rewrite Hm in Hext. simpl in Hext.
    destruct (Hext pdf (File (Raw data)) (lookup_insert_eq _ _ _)) as ([|c] & Hc & Hk);
      [discriminate|eauto].
  - apply makedirs_ok in Hm. specialize (Hm (length out)). by rewrite firstn_all in Hm.
Qed.

Lemma store_upload_extends (pdf : path) (data : string) (out : path) (fs : filesystem) :
  extends fs (store_upload pdf data out fs).2.
Proof.
  unfold store_upload. apply (bind_keeps extends); [apply write_file_extends|].
  intros _ fs1. apply makedirs_extends.
Qed.

(** One round of the loop, by cases. *)
Lemma upload_one_cases api_key base_url model gpt_worker (f : upload_file)
    (ids : list string) (srv : server) :
  let k := srv_drawn srv in
  let a := task_for api_key base_url model gpt_worker k f in
  (uf_filename f = "" ∧
   upload_one api_key base_url model gpt_worker f ids srv = (inr ids, srv)) ∨
  (uf_filename f ≠ "" ∧
   ∃ e fs', extends (srv_fs srv) fs' ∧
     upload_one api_key base_url model gpt_worker f ids srv
       = (inl e, Server (srv_reg srv) fs' (srv_submitted srv) (S k))) ∨
  (uf_filename f ≠ "" ∧
   ∃ fs', extends (srv_fs srv) fs' ∧
     (∃ c, fs' !! ta_pdf_path a = Some (File c)) ∧
     node_at fs' (ta_output_dir a) = Some Dir ∧
     upload_one api_key base_url model gpt_worker f ids srv
       = (inr (ids ++ [ta_job_id a]),
          Server (<[ta_job_id a :=
                     new_job (ta_job_id a) (ta_pdf_path a) (ta_filename a) (now k)]>
                    (srv_reg srv))
                 fs' (srv_submitted srv ++ [a]) (S k))).
Proof.
  intros k a. unfold_upload_one.
  destruct (decide (uf_filename f = "")) as [Hn|Hn]; [by left|right].
  fold k.
  pose proof (store_upload_extends
                (join UPLOAD_FOLDER (uuid4 k +:+ "_" +:+ secure_filename (uf_filename f)))
                (uf_data f) (join OUTPUT_FOLDER (uuid4 k)) (srv_fs srv)) as Hext.
  destruct (store_upload _ _ _ (srv_fs srv)) as [[e|[]] fs'] eqn:Hstore; simpl in Hext.
  - left. split; [done|]. by exists e, fs'.
  - right. split; [done|]. exists fs'. split; [done|].
    apply store_upload_ok in Hstore as [Hfile Hdir]. by repeat split.
Qed.

Lemma task_ready_kept (srv srv' : server) (a : task_args) :
  extends (srv_fs srv) (srv_fs srv') →
  (srv_reg srv' = srv_reg srv ∨
   ∃ id pdf name t, srv_reg srv' = <[id := new_job id pdf name t]> (srv_reg srv)) →
  task_ready srv a → task_ready srv' a.
Proof.
  intros Hext Hreg ((j & Hj & Hid & Hs & Hp) & (c & Hc) & Hd). split; [|split].
  - destruct Hreg as [->|(id & pdf & name & t & ->)]; [by exists j|].
    destruct (decide (id = ta_job_id a)) as [->|Hne].
    + eexists. split; [apply lookup_insert_eq|done].
    + exists j. by rewrite lookup_insert_ne.
  - destruct (Hext _ _ Hc) as ([|c'] & Hc' & Hk); [discriminate|eauto].
  - by apply (extends_dir (srv_fs srv)).
Qed.

(** The loop, whatever its outcome: ids are drawn in order, one task is
    submitted per id drawn before the end, and those tasks are ready. *)
Lemma upload_all_spec api_key base_url model gpt_worker (files : list upload_file) :
  ∀ (ids : list string) (srv : server),
  let r := upload_all api_key base_url model gpt_worker files ids srv in
  ∃ done_files,
    done_files `prefix_of` named_files files ∧
    srv_submitted r.2
      = srv_submitted srv ++
        imap (λ i f, task_for api_key base_url model gpt_worker (srv_drawn srv + i) f)
             done_files ∧
    Forall (task_ready r.2)
      (imap (λ i f, task_for api_key base_url model gpt_worker (srv_drawn srv + i) f)
            done_files) ∧
    extends (srv_fs srv) (srv_fs r.2) ∧
    (∀ id, (∀ i, (i < length done_files)%nat → id ≠ uuid4 (srv_drawn srv + i)) →
           srv_reg r.2 !! id = srv_reg srv !! id) ∧
    (∀ ids', r.1 = inr ids' →
       done_files = named_files files ∧
       srv_drawn r.2 = (srv_drawn srv + length (named_files files))%nat ∧
       ids' = ids ++ (uuid4 <$> seq (srv_drawn srv) (length (named_files files)))).
Proof.
  induction files as [|f files IH]; intros ids srv; simpl.
  - exists []. simpl. rewrite app_nil_r, Nat.add_0_r.
    split; [done|]. split; [done|]. split; [done|]. split; [done|]. split; [done|].
    intros res [= <-]. by rewrite app_nil_r.
  - destruct (upload_one_cases api_key base_url model gpt_worker f ids srv)
      as [[Hn Hone]|[(Hn & e & fs' & Hext & Hone)|(Hn & fs' & Hext & Hfile & Hdir & Hone)]];
      rewrite Hone.
    + destruct (IH ids srv) as (dn & Hpre & Hsub & Hready & Hexts & Hregs & Hok).
      exists dn. unfold named_files in *. rewrite filter_cons_False by tauto.
      done.
    + exists []. simpl. rewrite app_nil_r.
      split; [apply prefix_nil|]. split; [done|]. split; [done|]. split; [done|].
      split; [done|]. intros res Hres. discriminate.
    + set (a := task_for api_key base_url model gpt_worker (srv_drawn srv) f) in *.
      set (srv1 := Server _ fs' (srv_submitted srv ++ [a]) (S (srv_drawn srv))).
      destruct (IH (ids ++ [ta_job_id a]) srv1)
        as (dn & Hpre & Hsub & Hready & Hexts & Hregs & Hok).
      set (r := upload_all api_key base_url model gpt_worker files
                  (ids ++ [ta_job_id a]) srv1) in *.
      assert (∀ g : upload_file, task_for api_key base_url model gpt_worker
                     (srv_drawn srv + 0) g
                   = task_for api_key base_url model gpt_worker (srv_drawn srv) g) as H0
        by (intros g; by rewrite Nat.add_0_r).
      assert (imap (λ i g, task_for api_key base_url model gpt_worker (srv_drawn srv + i) g)
                   (f :: dn)
              = a :: imap (λ i g, task_for api_key base_url model gpt_worker
                                    (srv_drawn srv1 + i) g) dn) as Himap.
      { simpl. rewrite H0. f_equal. apply imap_ext. intros i g _. simpl.
        f_equal. lia. }
      exists (f :: dn). unfold named_files in *. rewrite filter_cons_True by done.
      split; [by apply prefix_cons|]. rewrite Himap.
      split; [|split; [|split; [|split]]].
      * rewrite Hsub. simpl. by rewrite <- app_assoc.
      * apply Forall_cons. split; [|done].
        assert (task_ready srv1 a) as Hnew.
        { split; [|by split]. eexists. split; [apply lookup_insert_eq|done]. }
        clear Hsub Hok Hpre Himap.
        assert (∀ (fl : list upload_file) (ids0 : list string) (s : server),
                  task_ready s a →
                  task_ready (upload_all api_key base_url model gpt_worker fl ids0 s).2 a)
          as Hkeep.
        { induction fl as [|g fl IHfl]; intros ids0 s Hs; simpl; [done|].
          destruct (upload_one_cases api_key base_url model gpt_worker g ids0 s)
            as [[Hg Hg1]|[(Hg & e & fs2 & Hext2 & Hg1)|(Hg & fs2 & Hext2 & _ & _ & Hg1)]];
            rewrite Hg1.
          - by apply IHfl.
          - simpl. apply (task_ready_kept s); [done|by left|done].
          - apply IHfl. apply (task_ready_kept s); [done| |done].
            right. by eexists _, _, _, _. }
        by apply Hkeep.
      * by etrans.
      * intros id Hid. rewrite Hregs.
        -- simpl. rewrite lookup_insert_ne; [done|]. intros Heq.
           apply (Hid 0%nat); [simpl; lia|]. by rewrite Nat.add_0_r.
        -- intros i Hi. simpl. replace (S (srv_drawn srv + i))%nat
             with (srv_drawn srv + S i)%nat by lia. apply Hid. simpl. lia.
      * intros res Hres. destruct (Hok res Hres) as (-> & Hdrawn & ->).
        split; [done|]. split; [simpl in *; lia|].
        simpl. rewrite <- app_assoc. simpl. done.
Qed.

Lemma task_ids_drawn api_key base_url model gpt_worker (l : list upload_file) :
  ∀ d : nat,
  ta_job_id <$> imap (λ i f, task_for api_key base_url model gpt_worker (d + i) f) l
  = uuid4 <$> seq d (length l).
Proof.
  induction l as [|f l IH]; intros d; [done|].
  change (length (f :: l)) with (S (length l)).
  rewrite imap_cons, fmap_cons, <- cons_seq, fmap_cons, Nat.add_0_r.
  f_equal. rewrite <- (IH (S d)). f_equal.
  apply imap_ext. intros i g _. simpl.
  by replace (d + S i)%nat with (S (d + i))%nat by lia.
Qed.

(** What an accepted submission has done. *)
Lemma upload_pdf_ok_inv (req : upload_request) (srv srv' : server)
    (ids : list string) (count : nat) :
  upload_pdf req srv = (UploadOk ids count, srv') →
  ∃ api_key gpt_worker,
    req_api_key req = Some api_key ∧
    form_int (req_gpt_worker req) 1 = inr gpt_worker ∧
    srv_submitted srv'
      = srv_submitted srv ++
        imap (λ i f, task_for api_key (req_base_url req) (default "gpt-4o" (req_model req))
                              gpt_worker (srv_drawn srv + i) f)
             (named_files (req_pdfs req)) ∧
    ids = uuid4 <$> seq (srv_drawn srv) count ∧
    count = length (named_files (req_pdfs req)) ∧
    srv_drawn srv' = (srv_drawn srv + count)%nat ∧
    Forall (task_ready srv')
      (imap (λ i f, task_for api_key (req_base_url req) (default "gpt-4o" (req_model req))
                             gpt_worker (srv_drawn srv + i) f)
            (named_files (req_pdfs req))).
Proof.
  unfold_upload_pdf.
  destruct (req_pdfs req) as [|f rest] eqn:Hfiles; [discriminate|].
  destruct (decide (uf_filename f = "")) as [|Hname]; [discriminate|].
  destruct (req_api_key req) as [[|c key]|] eqn:Hkey; [discriminate| |discriminate].
  destruct (form_int (req_gpt_worker req) 1) as [e|gw] eqn:Hgw; [discriminate|].
  destruct (form_int (req_max_parallel req) 3) as [e|mp] eqn:Hmp; [discriminate|].
  destruct (upload_all_spec (String c key) (req_base_url req)
              (default "gpt-4o" (req_model req)) gw (f :: rest) [] srv)
    as (dn & _ & Hsub & Hready & _ & _ & Hok).
  destruct (upload_all (String c key) (req_base_url req) (default "gpt-4o" (req_model req))
              gw (f :: rest) [] srv) as [[e|res] srv1] eqn:Hrun; [discriminate|].
  intros [= <- <- <-]. simpl in *.
  destruct (Hok res eq_refl) as (-> & Hdrawn & ->).
  exists (String c key), gw. rewrite length_fmap, length_seq.
  by repeat split.
Qed.

(** X10. A submission that is accepted draws one id per file that has a
    name, in the order of the files, and answers with these ids and
    their number; for each it submits one work item, in the same order,
    that carries the sanitized file name, the place of the stored
    upload, the output directory named after the id, the API key, the
    base URL, the model ('gpt-4o' when none is sent) and the worker
    count read by [int] (1 when none is sent). *)
Theorem upload_pdf_accepted (req : upload_request) (srv srv' : server)
    (ids : list string) (count : nat) :
  upload_pdf req srv = (UploadOk ids count, srv') →
  ∃ api_key gpt_worker,
    req_api_key req = Some api_key ∧
    form_int (req_gpt_worker req) 1 = inr gpt_worker ∧
    srv_submitted srv'
      = srv_submitted srv ++
        imap (λ i f, task_for api_key (req_base_url req) (default "gpt-4o" (req_model req))
                              gpt_worker (srv_drawn srv + i) f)
             (named_files (req_pdfs req)) ∧
    ids = uuid4 <$> seq (srv_drawn srv) count ∧
    count = length (named_files (req_pdfs req)) ∧
    srv_drawn srv' = (srv_drawn srv + count)%nat.
Proof.
  intros Hup.
  destruct (upload_pdf_ok_inv req srv srv' ids count Hup)
    as (api_key & gw & Hkey & Hgw & Hsub & Hids & Hcount & Hdrawn & _).
  by exists api_key, gw.
Qed.

(** X12. When the ids that [uuid4] issues from now on are new to the
    registry and differ from each other, a submission overwrites no
    record: every job registered before is as it was, and an accepted
    submission returns distinct ids and adds exactly one record per
    id. *)
Theorem upload_pdf_never_overwrites (req : upload_request) (srv : server) :
  (∀ k, (srv_drawn srv ≤ k)%nat → srv_reg srv !! uuid4 k = None) →
  (∀ k k', (srv_drawn srv ≤ k)%nat → (srv_drawn srv ≤ k')%nat →
           uuid4 k = uuid4 k' → k = k') →
  (∀ id j, srv_reg srv !! id = Some j → srv_reg (upload_pdf req srv).2 !! id = Some j) ∧
  (∀ ids count, (upload_pdf req srv).1 = UploadOk ids count →
     NoDup ids ∧
     size (srv_reg (upload_pdf req srv).2) = (size (srv_reg srv) + count)%nat).
Proof.
  intros Hfresh Hinj. unfold_upload_pdf.
  destruct (req_pdfs req) as [|f rest] eqn:Hfiles; [by split|].
  destruct (decide (uf_filename f = "")) as [|Hname]; [by split|].
  destruct (req_api_key req) as [[|c key]|] eqn:Hkey; [by split| |by split].
  destruct (form_int (req_gpt_worker req) 1) as [e|gw] eqn:Hgw; [by split|].
  destruct (form_int (req_max_parallel req) 3) as [e|mp] eqn:Hmp; [by split|].
  destruct (upload_all_spec (String c key) (req_base_url req)
              (default "gpt-4o" (req_model req)) gw (f :: rest) [] srv)
    as (dn & _ & Hsub & Hready & _ & Hregs & Hok).
  destruct (upload_all (String c key) (req_base_url req) (default "gpt-4o" (req_model req))
              gw (f :: rest) [] srv) as [[e|res] srv1] eqn:Hrun; simpl in *.
  - split; [|discriminate]. intros id j Hj. rewrite Hregs; [done|].
    intros i _ ->. rewrite Hfresh in Hj by lia. discriminate.
  - split.
    { intros id j Hj. rewrite Hregs; [done|].
      intros i _ ->. rewrite Hfresh in Hj by lia. discriminate. }
    intros ids count [= <- <-]. destruct (Hok res eq_refl) as (-> & Hdrawn & ->).
    simpl. set (n := length (named_files (f :: rest))) in *.
    assert (NoDup (uuid4 <$> seq (srv_drawn srv) n)) as Hnd.
    { apply NoDup_fmap_2_strong; [|apply NoDup_seq].
      intros k k' Hk Hk'. apply elem_of_seq in Hk, Hk'. apply Hinj; lia. }
    split; [done|]. rewrite length_fmap, length_seq.
    assert (dom (srv_reg srv1)
            = dom (srv_reg srv) ∪ (list_to_set (uuid4 <$> seq (srv_drawn srv) n) : gset string))
      as Hdom.
    { apply set_eq. intros id. rewrite elem_of_union, elem_of_list_to_set, !elem_of_dom.
      destruct (decide (id ∈ uuid4 <$> seq (srv_drawn srv) n)) as [Hin|Hout].
      - split; [by right|]. intros _. unfold n in Hin.
        rewrite <- (task_ids_drawn (String c key) (req_base_url req)
                      (default "gpt-4o" (req_model req)) gw) in Hin.
        apply list_elem_of_fmap in Hin as (a & -> & Ha).
        rewrite Forall_forall in Hready.
        destruct (Hready a Ha) as ((j & Hj & _) & _). by rewrite Hj.
      - rewrite Hregs; [tauto|]. intros i Hi ->. apply Hout.
        apply list_elem_of_fmap. exists (srv_drawn srv + i)%nat. split; [done|].
        apply elem_of_seq. unfold n. lia. }
    rewrite <- !size_dom, Hdom, size_union.
    + by rewrite size_list_to_set, length_fmap, length_seq.
    + intros id Hin Hin'. apply elem_of_dom in Hin as [j Hj].
      apply elem_of_list_to_set, list_elem_of_fmap in Hin' as (k & -> & Hk).
      apply elem_of_seq in Hk. rewrite Hfresh in Hj by lia. discriminate.
Qed.

End MoreUploadFacts.

(** ** Submission with the pool at work *)

Section UploadAmongFacts.

Variable secure_filename : string → string.
Variable uuid4 : nat → string.
Variable now : nat → string.

Ltac unfold_upload_pdf_among := unfold upload_pdf_among.
Ltac unfold_upload_pdf' := unfold upload_pdf.

Local Abbreviation upload_one := (upload_one secure_filename uuid4 now).
Local Abbreviation upload_all := (upload_all secure_filename uuid4 now).
Local Abbreviation upload_pdf := (upload_pdf secure_filename uuid4 now).
Local Abbreviation upload_all_among := (upload_all_among secure_filename uuid4 now).
Local Abbreviation upload_pdf_among := (upload_pdf_among secure_filename uuid4 now).
Local Abbreviation task_for := (task_for secure_filename uuid4).

Lemma apply_write_job_id (w : write) (j : job) : job_id (apply_write w j) = job_id j.
Proof. by destruct w. Qed.

(** The workers keep every record in the registry, under its id. *)
Lemma worker_moves_kept (ws : list (string * write)) : ∀ (reg : registry) (id : string) (j : job),
  reg !! id = Some j →
  ∃ j', worker_moves ws reg !! id = Some j' ∧ job_id j' = job_id j.
Proof.
  induction ws as [|[id' w] ws IH]; intros reg id j Hj; [by exists j|].
  unfold worker_moves. simpl. unfold store at 2.
  destruct (reg !! id') as [j0|] eqn:Hj0; [|by apply IH].
  destruct (decide (id' = id)) as [->|Hne].
  - destruct (IH (<[id := apply_write w j0]> reg) id (apply_write w j0))
      as (j' & Hj' & Hid); [apply lookup_insert_eq|].
    exists j'. split; [done|]. rewrite Hid, apply_write_job_id. congruence.
  - apply IH. by rewrite lookup_insert_ne.
Qed.

Lemma worker_moves_nil (srv : server) : with_reg (worker_moves []) srv = srv.
Proof. by destruct srv. Qed.

Lemma task_ready_handed (srv : server) (a : task_args) : task_ready srv a → task_handed srv a.
Proof. intros ((j & Hj & Hid & _) & Hc & Hd). split; [by exists j|done]. Qed.

Lemma task_handed_moves (ws : list (string * write)) (srv : server) (a : task_args) :
  task_handed srv a → task_handed (with_reg (worker_moves ws) srv) a.
Proof.
  intros ((j & Hj & Hid) & Hc & Hd). split; [|done]. simpl.
  destruct (worker_moves_kept ws _ _ _ Hj) as (j' & Hj' & Hid'). exists j'.
  split; [done|congruence].
Qed.

Lemma task_handed_kept (srv srv' : server) (a : task_args) :
  extends (srv_fs srv) (srv_fs srv') →
  (srv_reg srv' = srv_reg srv ∨
   ∃ id pdf name t, srv_reg srv' = <[id := new_job id pdf name t]> (srv_reg srv)) →
  task_handed srv a → task_handed srv' a.
Proof.
  intros Hext Hreg ((j & Hj & Hid) & (c & Hc) & Hd). split; [|split].
  - destruct Hreg as [->|(id & pdf & name & t & ->)]; [by exists j|].
    destruct (decide (id = ta_job_id a)) as [->|Hne].
    + eexists. split; [apply lookup_insert_eq|done].
    + exists j. by rewrite lookup_insert_ne.
  - destruct (Hext _ _ Hc) as ([|c'] & Hc' & Hk); [discriminate|eauto].
  - by apply (extends_dir (srv_fs srv)).
Qed.

Lemma upload_all_among_kept api_key base_url model gpt_worker (a : task_args)
    (files : list upload_file) :
  ∀ (sched : list (list (string * write))) (ids : list string) (srv : server),
  task_handed srv a →
  task_handed (upload_all_among sched api_key base_url model gpt_worker files ids srv).2 a.
Proof.
  induction files as [|f files IH]; intros sched ids srv Hs; simpl; [done|].
  destruct (upload_one_cases secure_filename uuid4 now api_key base_url model gpt_worker
              f ids srv)
    as [[Hg Hg1]|[(Hg & e & fs2 & Hext2 & Hg1)|(Hg & fs2 & Hext2 & _ & _ & Hg1)]];
    rewrite Hg1.
  - by apply IH, task_handed_moves.
  - simpl. apply (task_handed_kept srv); [done|by left|done].
  - apply IH, task_handed_moves. apply (task_handed_kept srv); [done| |done].
    right. by eexists _, _, _, _.
Qed.

(** The loop with the pool at work, whatever its outcome. *)
Lemma upload_all_among_spec api_key base_url model gpt_worker (files : list upload_file) :
  ∀ (sched : list (list (string * write))) (ids : list string) (srv : server),
  let r := upload_all_among sched api_key base_url model gpt_worker files ids srv in
  ∃ done_files,
    srv_submitted r.2
      = srv_submitted srv ++
        imap (λ i f, task_for api_key base_url model gpt_worker (srv_drawn srv + i) f)
             done_files ∧
    Forall (task_handed r.2)
      (imap (λ i f, task_for api_key base_url model gpt_worker (srv_drawn srv + i) f)
            done_files) ∧
    extends (srv_fs srv) (srv_fs r.2) ∧
    (∀ ids', r.1 = inr ids' →
       ids' = ids ++ (ta_job_id <$>
                imap (λ i f, task_for api_key base_url model gpt_worker (srv_drawn srv + i) f)
                     done_files)).
Proof.
  induction files as [|f files IH]; intros sched ids srv; simpl.
  - exists []. simpl. rewrite !app_nil_r.
    split; [done|]. split; [done|]. split; [done|]. by intros res [= <-].
  - destruct (upload_one_cases secure_filename uuid4 now api_key base_url model gpt_worker
                f ids srv)
      as [[Hn Hone]|[(Hn & e & fs' & Hext & Hone)|(Hn & fs' & Hext & Hfile & Hdir & Hone)]];
      rewrite Hone.
    + destruct (IH (tail sched) ids (with_reg (worker_moves (hd [] sched)) srv))
        as (dn & Hsub & Hready & Hexts & Hok).
      by exists dn.
    + exists []. simpl. rewrite app_nil_r.
      split; [done|]. split; [done|]. split; [done|]. intros res Hres. discriminate.
    + set (a := task_for api_key base_url model gpt_worker (srv_drawn srv) f) in *.
      set (srv1 := Server _ fs' (srv_submitted srv ++ [a]) (S (srv_drawn srv))).
      set (srv2 := with_reg (worker_moves (hd [] sched)) srv1).
      destruct (IH (tail sched) (ids ++ [ta_job_id a]) srv2)
        as (dn & Hsub & Hready & Hexts & Hok).
      set (r := upload_all_among (tail sched) api_key base_url model gpt_worker files
                  (ids ++ [ta_job_id a]) srv2) in *.
      assert (imap (λ i g, task_for api_key base_url model gpt_worker (srv_drawn srv + i) g)
                   (f :: dn)
              = a :: imap (λ i g, task_for api_key base_url model gpt_worker
                                    (srv_drawn srv2 + i) g) dn) as Himap.
      { simpl. rewrite Nat.add_0_r. f_equal. apply imap_ext. intros i g _. simpl.
        f_equal. lia. }
      exists (f :: dn). rewrite Himap.
      split; [|split; [|split]].
      * rewrite Hsub. simpl. by rewrite <- app_assoc.
      * apply Forall_cons. split; [|done].
        apply upload_all_among_kept, task_handed_moves.
        split; [|by split]. eexists. split; [apply lookup_insert_eq|done].
      * by etrans.
      * intros res Hres. rewrite (Hok res Hres). by rewrite <- app_assoc.
Qed.

Lemma upload_all_among_nil api_key base_url model gpt_worker (files : list upload_file) :
  ∀ (ids : list string) (srv : server),
  upload_all_among [] api_key base_url model gpt_worker files ids srv
  = upload_all api_key base_url model gpt_worker files ids srv.
Proof.
  induction files as [|f files IH]; intros ids srv; simpl; [done|].
  destruct (upload_one api_key base_url model gpt_worker f ids srv) as [[e|ids'] srv'];
    [done|].
  by rewrite worker_moves_nil.
Qed.

Lemma upload_pdf_among_nil (req : upload_request) (srv : server) :
  upload_pdf_among [] req srv = upload_pdf req srv.
Proof.
  unfold_upload_pdf_among. unfold_upload_pdf'.
  destruct (req_pdfs req) as [|f rest] eqn:Hfiles; [done|].
  destruct (decide (uf_filename f = "")) as [|Hname]; [done|].
  destruct (req_api_key req) as [[|c key]|] eqn:Hkey; [done| |done].
  destruct (form_int (req_gpt_worker req) 1) as [e|gw] eqn:Hgw; [done|].
  destruct (form_int (req_max_parallel req) 3) as [e|mp] eqn:Hmp; [done|].
  by rewrite upload_all_among_nil.
Qed.

(** X11. [submit] is called inside the loop of [upload_pdf], so workers
    assign to the records while the later files are handled. Whatever
    they assign, and whatever the outcome of the submission (also when
    storing a file raises in the middle of the request), every work
    item handed to the pool has its job registered under its own id,
    its upload a file on disk and its output directory there; nothing
    is removed from the disk and no earlier work item is dropped. When
    no worker assigns during the request, each of these jobs is still
    queued with progress 0. *)
Theorem upload_pdf_tasks_ready (sched : list (list (string * write)))
    (req : upload_request) (srv : server) :
  ∃ new, srv_submitted (upload_pdf_among sched req srv).2 = srv_submitted srv ++ new ∧
         Forall (task_handed (upload_pdf_among sched req srv).2) new ∧
         extends (srv_fs srv) (srv_fs (upload_pdf_among sched req srv).2) ∧
         (sched = [] → Forall (task_ready (upload_pdf_among sched req srv).2) new).
Proof.
  assert (∃ new, srv_submitted srv = srv_submitted srv ++ new ∧
                 Forall (task_handed srv) new ∧ extends (srv_fs srv) (srv_fs srv) ∧
                 (sched = [] → Forall (task_ready srv) new)) as Hsame.
  { exists []. by rewrite app_nil_r. }
  destruct (decide (sched = [])) as [->|Hsched].
  - rewrite upload_pdf_among_nil. unfold_upload_pdf'.
    destruct (req_pdfs req) as [|f rest] eqn:Hfiles; [done|].
    destruct (decide (uf_filename f = "")) as [|Hname]; [done|].
    destruct (req_api_key req) as [[|c key]|] eqn:Hkey; [done| |done].
    destruct (form_int (req_gpt_worker req) 1) as [e|gw] eqn:Hgw; [done|].
    destruct (form_int (req_max_parallel req) 3) as [e|mp] eqn:Hmp; [done|].
    destruct (upload_all_spec secure_filename uuid4 now (String c key) (req_base_url req)
                (default "gpt-4o" (req_model req)) gw (f :: rest) [] srv)
      as (dn & _ & Hsub & Hready & Hext & _ & _).
    destruct (upload_all (String c key) (req_base_url req) (default "gpt-4o" (req_model req))
                gw (f :: rest) [] srv) as [[e|res] srv1] eqn:Hrun; simpl in *;
      (eexists; split; [exact Hsub|]; split; [|by split];
       eapply Forall_impl; [exact Hready|]; apply task_ready_handed).
  - unfold_upload_pdf_among.
    destruct (req_pdfs req) as [|f rest] eqn:Hfiles; [done|].
    destruct (decide (uf_filename f = "")) as [|Hname]; [done|].
    destruct (req_api_key req) as [[|c key]|] eqn:Hkey; [done| |done].
    destruct (form_int (req_gpt_worker req) 1) as [e|gw] eqn:Hgw; [done|].
    destruct (form_int (req_max_parallel req) 3) as [e|mp] eqn:Hmp; [done|].
    destruct (upload_all_among_spec (String c key) (req_base_url req)
                (default "gpt-4o" (req_model req)) gw (f :: rest) sched [] srv)
      as (dn & Hsub & Hready & Hext & _).
    destruct (upload_all_among sched (String c key) (req_base_url req)
                (default "gpt-4o" (req_model req)) gw (f :: rest) [] srv)
      as [[e|res] srv1] eqn:Hrun; simpl in *;
      (eexists; split; [exact Hsub|]; split; [done|]; split; done).
Qed.

(** X13. A batch status query for the ids that an accepted submission
    returned finds every one of them, whatever the workers have
    assigned while the submission was handled: it gives one record per
    id, in the order of the ids, each with its id. When no worker has
    assigned, each record reads queued with progress 0. *)
Theorem status_after_upload (sched : list (list (string * write)))
    (req : upload_request) (srv srv' : server) (ids : list string) (count : nat) :
  upload_pdf_among sched req srv = (UploadOk ids count, srv') →
  ∃ jobs, get_batch_status (srv_reg srv') (Some ids) = JsonJobs jobs ∧
          job_id <$> jobs = ids ∧
          (sched = [] → Forall (λ j, status j = Queued ∧ progress j = 0) jobs).
Proof.
  intros Hup. rewrite get_batch_status_spec. eexists. split; [reflexivity|].
  assert (∃ tasks, ids = ta_job_id <$> tasks ∧ Forall (task_handed srv') tasks ∧
                   (sched = [] → Forall (task_ready srv') tasks))
    as (tasks & -> & Hhanded & Hready).
  { destruct (decide (sched = [])) as [->|Hsched].
    - rewrite upload_pdf_among_nil in Hup.
      destruct (upload_pdf_ok_inv secure_filename uuid4 now req srv srv' ids count Hup)
        as (api_key & gw & _ & _ & _ & Hids & Hcount & _ & Hready).
      eexists. split; [|split; [|intros _; exact Hready]].
      + by rewrite Hids, Hcount, <- (task_ids_drawn secure_filename uuid4 api_key
                                     (req_base_url req) (default "gpt-4o" (req_model req)) gw).
      + eapply Forall_impl; [exact Hready|]. apply task_ready_handed.
    - revert Hup. unfold_upload_pdf_among.
      destruct (req_pdfs req) as [|f rest] eqn:Hfiles; [discriminate|].
      destruct (decide (uf_filename f = "")) as [|Hname]; [discriminate|].
      destruct (req_api_key req) as [[|c key]|] eqn:Hkey; [discriminate| |discriminate].
      destruct (form_int (req_gpt_worker req) 1) as [e|gw] eqn:Hgw; [discriminate|].
      destruct (form_int (req_max_parallel req) 3) as [e|mp] eqn:Hmp; [discriminate|].
      destruct (upload_all_among_spec (String c key) (req_base_url req)
                  (default "gpt-4o" (req_model req)) gw (f :: rest) sched [] srv)
        as (dn & _ & Hhanded & _ & Hok).
      destruct (upload_all_among sched (String c key) (req_base_url req)
                  (default "gpt-4o" (req_model req)) gw (f :: rest) [] srv)
        as [[e|res] srv1] eqn:Hrun; [discriminate|].
      intros [= <- <- <-]. simpl in *. eexists. split; [exact (Hok res eq_refl)|].
      split; [done|]. intros Hs. by destruct Hsched. }
  assert (job_id <$> omap (λ id, srv_reg srv' !! id) (ta_job_id <$> tasks)
          = ta_job_id <$> tasks) as Hids.
  { clear Hready Hup. induction Hhanded as [|a l Ha _ IH]; [done|].
    destruct Ha as ((j & Hj & Hid) & _). csimpl. rewrite Hj. csimpl.
    by rewrite Hid, IH. }
  split; [done|]. intros Hs. specialize (Hready Hs). clear Hhanded Hids Hup.
  induction Hready as [|a l Ha _ IH]; [done|].
  destruct Ha as ((j & Hj & Hid & Hst & Hp) & _). csimpl. rewrite Hj. csimpl.
  by apply Forall_cons.
Qed.

End UploadAmongFacts.

(** ** More on downloads *)

Lemma split_not_nil (sep : ascii) (s : string) : PyStr.split sep s ≠ [].
Proof.
  induction s as [|a s IH]; simpl; [done|].
  destruct (decide (a = sep)); [done|]. by destruct (PyStr.split sep s).
Qed.

Lemma split_empty_iff (sep : ascii) (s : string) : PyStr.split sep s = [""] ↔ s = "".
Proof.
  split; [|by intros ->]. destruct s as [|a s]; [done|]. simpl.
  destruct (decide (a = sep)).
  - intros [= H]. by apply split_not_nil in H.
  - by destruct (PyStr.split sep s).
Qed.

Lemma rstrip_cons (a : ascii) (s : string) :
  PyStr.rstrip (String a s)
  = match PyStr.rstrip s with
    | EmptyString => if PyStr.is_space a then EmptyString else String a EmptyString
    | r => String a r
    end.
Proof. done. Qed.

Lemma rstrip_idem (s : string) : PyStr.rstrip (PyStr.rstrip s) = PyStr.rstrip s.
Proof.
  induction s as [|a s IH]; [done|]. rewrite rstrip_cons.
  destruct (PyStr.rstrip s) as [|b r] eqn:Hr.
  - destruct (PyStr.is_space a) eqn:Ha; [done|]. by rewrite rstrip_cons, Ha.
  - by rewrite rstrip_cons, IH.
Qed.

Lemma lstrip_head (s : string) :
  PyStr.lstrip s = "" ∨ ∃ a t, PyStr.lstrip s = String a t ∧ PyStr.is_space a = false.
Proof.
  induction s as [|a s IH]; [by left|]. simpl.
  destruct (PyStr.is_space a) eqn:Ha; [done|]. right. eauto.
Qed.

Lemma strip_idem (s : string) : PyStr.strip (PyStr.strip s) = PyStr.strip s.
Proof.
  unfold PyStr.strip. destruct (lstrip_head s) as [->|(a & t & -> & Ha)]; [done|].
  assert (∃ r, PyStr.rstrip (String a t) = String a r) as [r Hr].
  { rewrite rstrip_cons. destruct (PyStr.rstrip t); rewrite ?Ha; eauto. }
  rewrite Hr. simpl. rewrite Ha, <- Hr. apply rstrip_idem.
Qed.

Lemma is_staged_strip (reg : registry) (raw : string) :
  is_staged reg (PyStr.strip raw) = is_staged reg raw.
Proof. unfold is_staged. by rewrite strip_idem. Qed.

Lemma batch_round_strip (reg : registry) (bd : path) (st : batch_state) (raw : string) :
  batch_round reg bd st (PyStr.strip raw) = batch_round reg bd st raw.
Proof. unfold batch_round. by rewrite strip_idem. Qed.

Lemma batch_rounds_only_staged (reg : registry) (bd : path) (ids : list string) :
  ∀ (st : batch_state) (fs : filesystem),
  batch_rounds reg bd st ids fs
  = batch_rounds reg bd st (PyStr.strip <$> filter (λ raw, is_staged reg raw = true) ids) fs.
Proof.
  induction ids as [|raw ids IH]; intros st fs; [done|].
  destruct (is_staged reg raw) eqn:Hst.
  - rewrite filter_cons_True by done. rewrite fmap_cons. simpl.
    unfold mbind, io_bind. rewrite batch_round_strip.
    destruct (batch_round reg bd st raw fs) as [[e|st'] fs']; [done|]. apply IH.
  - rewrite filter_cons_False by (by rewrite Hst). simpl.
    unfold mbind at 1, io_bind at 1. rewrite batch_round_skip by done. apply IH.
Qed.

(** X14. A batch download is decided by the requested ids that name a
    completed job, in their order and without the white space around
    them: blank entries, unknown ids and ids of jobs that are not
    completed can be left out of the request without any change to the
    answer or to the disk. *)
Theorem batch_build_only_staged (reg : registry) (uuid : string) (job_ids : list string)
    (fs : filesystem) :
  batch_build reg uuid job_ids fs
  = batch_build reg uuid
      (PyStr.strip <$> filter (λ raw, is_staged reg raw = true) job_ids) fs.
Proof.
  unfold batch_build. unfold mbind at 1 6, io_bind at 1 6.
  destruct (makedirs (batch_dir_of uuid) fs) as [[e|[]] fs1]; [done|].
  unfold mbind at 1 5, io_bind at 1 5.
  by rewrite batch_rounds_only_staged.
Qed.

(** X15. [download_all_pdfs] answers 'No jobs specified' when the
    'job_ids' argument is missing or empty, and then leaves the disk
    alone; for any other argument it never answers with code 400. *)
Theorem download_all_no_jobs (reg : registry) (uuid : string) (arg : option string)
    (fs : filesystem) :
  (default "" arg = "" →
   download_all_pdfs reg uuid arg fs = (Text "No jobs specified" 400, fs)) ∧
  (default "" arg ≠ "" →
   ∀ text, (download_all_pdfs reg uuid arg fs).1 ≠ Text text 400).
Proof.
  unfold download_all_pdfs. split.
  - intros ->. done.
  - intros Harg text. rewrite decide_False by (by rewrite split_empty_iff).
    pose proof (batch_build_done reg uuid (PyStr.split "," (default "" arg)) fs) as Hdone.
    destruct (batch_build reg uuid (PyStr.split "," (default "" arg)) fs)
      as [[e|r] fs'] eqn:Hrun; simpl in *; [done|].
    destruct (Hdone r eq_refl) as [[->|[-> _]] _]; done.
Qed.

(** X16. Serving the markdown or a single file of a job never changes
    the disk, whatever the registry holds and whatever is asked for,
    also when the handler raises. *)
Theorem content_downloads_read_only (reg : registry) (id image_name : string)
    (fs : filesystem) :
  (download_markdown reg id fs).2 = fs ∧ (download_image reg id image_name fs).2 = fs.
Proof.
  unfold download_markdown, download_image, get_output_dir, send_file, send_from_directory.
  destruct (reg !! id) as [j|]; [|done].
  destruct (decide (status j = Completed)); [|done].
  destruct (output_dir j) as [d|]; [|done]. io_unfold.
  split.
  - destruct (path_exists fs (join d "output.md")); [|done].
    by destruct (node_at fs (join d "output.md")) as [[|c]|].
  - by destruct (node_at fs (join d image_name)) as [[|c]|].
Qed.

(** The loop over the images of a job, with what it leaves in the
    images folder: a listed image that is a file at the source is there
    with the content of the source; nothing else changed. *)
Lemma copy_images_contents (j : job) (d I : path) : ∀ fs : filesystem,
  node_at fs I = Some Dir →
  (∀ img, img ∈ default [] (images j) →
          img ≠ "" ∧ node_at fs (join d img) ≠ Some Dir) →
  (∀ x y, d ++ [x] ≠ I ++ [y]) →
  (∀ y n, fs !! (I ++ [y]) = Some n → is_dir n = false) →
  ∃ fs', copy_images j d I fs = (inr (), fs') ∧
         (∀ q, (∀ y, q ≠ I ++ [y]) → fs' !! q = fs !! q) ∧
         (∀ y, fs' !! (I ++ [y])
               = match fs !! (d ++ [y]) with
                 | Some (File c) =>
                     if bool_decide (y ∈ default [] (images j)) then Some (File c)
                     else fs !! (I ++ [y])
                 | _ => fs !! (I ++ [y])
                 end).
Proof.
  unfold copy_images. generalize (default [] (images j)). intros imgs.
  induction imgs as [|img imgs IH]; intros fs HI Himgs Hapart Hfiles.
  - exists fs. split; [done|]. split; [done|]. intros y.
    rewrite bool_decide_eq_false_2 by apply not_elem_of_nil.
    by destruct (fs !! (d ++ [y])) as [[|c]|].
  - destruct (Himgs img) as [Hne Hsrc]; [by left|].
    rewrite (join_app d img Hne) in Hsrc. rewrite node_at_app in Hsrc.
    assert (∃ fs1, (copy_if_exists (join d img) (join I img) ≫= λ _, mret ()) fs
                   = (inr (), fs1) ∧
                   (∀ q, q ≠ I ++ [img] → fs1 !! q = fs !! q) ∧
                   fs1 !! (I ++ [img])
                   = match fs !! (d ++ [img]) with
                     | Some (File c) => Some (File c)
                     | _ => fs !! (I ++ [img])
                     end)
      as (fs1 & Hrun & Hsame & Hnew).
    { rewrite !join_app by done. unfold copy_if_exists.
      unfold mbind at 1 2, io_bind at 1 2, exists_. unfold path_exists.
      rewrite node_at_app.
      destruct (fs !! (d ++ [img])) as [[|c]|] eqn:Hs; [done| |].
      - rewrite bool_decide_eq_true_2 by eauto.
        rewrite (bind_run _ _ fs () (<[I ++ [img] := File c]> fs)).
        + exists (<[I ++ [img] := File c]> fs). split; [done|]. split.
          * intros q Hq. by rewrite lookup_insert_ne.
          * by rewrite lookup_insert_eq.
        + apply copy2_run.
          * by rewrite node_at_app.
          * rewrite node_at_app. intros Hd. by apply Hfiles in Hd.
          * apply Hapart.
          * by rewrite dirname_app.
      - rewrite bool_decide_eq_false_2 by (intros [? ?]; discriminate).
        exists fs. by split. }
    assert (∀ x, fs1 !! (d ++ [x]) = fs !! (d ++ [x])) as Hsrc1.
    { intros x. apply Hsame, Hapart. }
    destruct (IH fs1) as (fs' & Hrest & Hsame' & Hnew').
    + destruct I as [|i I']; [done|]. simpl in *. rewrite Hsame; [done|]. by_length.
    + intros img' Hin'. destruct (Himgs img') as [Hne' Hsrc']; [by right|].
      split; [done|]. rewrite (join_app d img' Hne') in *. rewrite node_at_app in *.
      by rewrite Hsrc1.
    + done.
    + intros y n Hy. destruct (decide (y = img)) as [->|Hy'].
      * rewrite Hnew in Hy. destruct (fs !! (d ++ [img])) as [[|c]|];
          [by apply (Hfiles img)|by injection Hy as <-|by apply (Hfiles img)].
      * rewrite Hsame in Hy; [by apply (Hfiles y)|].
        intros Heq. apply app_inj_tail in Heq as [_ ?]. done.
    + exists fs'. split; [|split].
      * simpl. by rewrite (bind_run _ _ _ _ _ Hrun).
      * intros q Hq. rewrite Hsame' by done. apply Hsame, Hq.
      * intros y. rewrite Hnew', Hsrc1.
        destruct (decide (y = img)) as [->|Hy].
        -- rewrite Hnew. rewrite (bool_decide_eq_true_2 (img ∈ img :: imgs)) by by left.
           destruct (fs !! (d ++ [img])) as [[|c]|]; [done| |done].
           by destruct (bool_decide (img ∈ imgs)).
        -- rewrite Hsame by (intros Heq; apply app_inj_tail in Heq as [_ ?]; done).
           destruct (fs !! (d ++ [y])) as [[|c]|]; [done| |done].
           destruct (decide (y ∈ imgs)) as [Hin|Hin].
           ++ rewrite !bool_decide_eq_true_2; [done|by right|done].
           ++ rewrite !bool_decide_eq_false_2; [done| |done].
              intros [?|?]%elem_of_cons; done.
Qed.

(** X17. The package of a completed job, built on a disk where the
    output folder exists, nothing is in the way of the staging
    directory or of the archive, and the job's output.md and listed
    images are files or missing: the handler sends
    [<job_id>_package.zip] under the name [<name>_complete.zip], where
    [name] is the file name without '.pdf'. The archive holds the
    folder 'images', [<name>.md] with the content of output.md when
    that file exists, and under 'images' every listed image that exists,
    with its content, and nothing else: files of the output directory
    that the record does not list are not packed. On the disk the
    archive is the only change. *)
Theorem download_package_contents (reg : registry) (id : string) (j : job) (d : path)
    (fs : filesystem) :
  reg !! id = Some j → status j = Completed → output_dir j = Some d →
  fs !! OUTPUT_FOLDER = Some Dir →
  (∀ q, under (package_dir_of id) q → fs !! q = None) →
  fs !! package_zip_of id ≠ Some Dir →
  apart (package_dir_of id) d →
  node_at fs (join d "output.md") ≠ Some Dir →
  (∀ img, img ∈ default [] (images j) →
          img ≠ "" ∧ node_at fs (join d img) ≠ Some Dir) →
  ∃ members,
    download_package reg id fs
    = (inr (SendFile (package_zip_of id)
                     (PyStr.remove_all ".pdf" (filename j) +:+ "_complete.zip")),
       <[package_zip_of id := File (Zip members)]> fs) ∧
    ∀ m, m ∈ members ↔
      m = (["images"], None) ∨
      (∃ c, node_at fs (join d "output.md") = Some (File c) ∧
            m = ([PyStr.remove_all ".pdf" (filename j) +:+ ".md"], Some c)) ∨
      (∃ img c, img ∈ default [] (images j) ∧
                node_at fs (join d img) = Some (File c) ∧
                m = (["images"; img], Some c)).
Proof.
  intros Hj Hs Hd Hout Hfree Hzip Hapart Hmd Himgs.
  pose proof (package_name_ne id) as Hpn.
  pose proof (package_zip_outside id) as HZout.
  unfold download_package. rewrite Hj. rewrite decide_True by done.
  unfold get_output_dir. rewrite Hd.
  rewrite (bind_run _ _ fs d fs) by done. cbn beta zeta.
  set (name := PyStr.remove_all ".pdf" (filename j)).
  fold (package_dir_of id). fold (package_zip_of id).
  rewrite package_dir_of_app in *.
  set (P := OUTPUT_FOLDER ++ [id +:+ "_package"]) in *.
  set (Z := package_zip_of id) in *.
  assert (dirs_to OUTPUT_FOLDER fs) as Hdirs.
  { intros [|[|k]]; done. }
  assert (fs !! P = None) as HP by apply Hfree, under_refl.
  rewrite (bind_run _ _ _ _ _ (makedirs_child OUTPUT_FOLDER _ fs Hdirs HP)). fold P.
  set (fs1 := <[P := Dir]> fs).
  assert (dirs_to P fs1) as Hdirs1 by by apply dirs_to_child.
  rewrite (join_app P "images") by done.
  set (I := P ++ ["images"]).
  assert (fs1 !! I = None) as HI.
  { unfold fs1. rewrite lookup_insert_ne by (unfold I; by_length).
    apply Hfree, under_app, under_refl. }
  rewrite (bind_run _ _ _ _ _ (makedirs_child P "images" fs1 Hdirs1 HI)). fold I.
  set (fs2 := <[I := Dir]> fs1).
  destruct (md_name_ne name) as [Hmn1 Hmn2].
  rewrite (join_app P _ Hmn1). rewrite (join_app d "output.md") in * by done.
  set (M0 := d ++ ["output.md"]) in *. set (M := P ++ [name +:+ ".md"]).
  assert (∀ q, ¬ under P q → fs2 !! q = fs !! q) as H2.
  { intros q Hq. unfold fs2, fs1. rewrite !lookup_insert_ne; [done| |].
    - intros <-. apply Hq, under_refl.
    - intros <-. apply Hq, under_app, under_refl. }
  assert (∀ x, ¬ under P (d ++ [x])) as Hdx.
  { intros x. apply under_None. by apply below_apart_app. }
  assert (fs2 !! P = Some Dir) as HP2.
  { unfold fs2, fs1. rewrite lookup_insert_ne by (unfold I; by_length).
    apply lookup_insert_eq. }
  assert (fs2 !! I = Some Dir) as HI2 by apply lookup_insert_eq.
  assert (∀ q, under P q → q ≠ P → q ≠ I → fs2 !! q = None) as Hunder2.
  { intros q Hq HqP HqI. unfold fs2, fs1. rewrite !lookup_insert_ne by done.
    by apply Hfree. }
  assert (fs2 !! M = None) as HM2.
  { apply Hunder2.
    - apply under_app, under_refl.
    - unfold M. by_length.
    - unfold I, M. intros Heq. apply app_inj_tail in Heq as [_ Heq]. congruence. }
  unfold M0 in Hmd. rewrite node_at_app in Hmd. fold M0 in Hmd.
  assert (∃ copied fs3,
            copy_if_exists M0 M fs2 = (inr copied, fs3) ∧
            (∀ q, q ≠ M → fs3 !! q = fs2 !! q) ∧
            fs3 !! M = match fs !! M0 with
                       | Some (File c) => Some (File c)
                       | _ => None
                       end)
    as (copied & fs3 & Hcopy & H3 & HM3).
  { assert (node_at fs2 M0 = fs !! M0) as HnM2.
    { unfold M0. rewrite node_at_app. apply H2, Hdx. }
    unfold copy_if_exists. unfold mbind at 1, io_bind at 1, exists_.
    unfold path_exists. rewrite HnM2.
    destruct (fs !! M0) as [[|c]|] eqn:Hsm; [done| |].
    - rewrite bool_decide_eq_true_2 by eauto.
      rewrite (bind_run _ _ fs2 () (<[M := File c]> fs2)).
      + exists true, (<[M := File c]> fs2). split; [done|]. split.
        * intros q Hq. by rewrite lookup_insert_ne.
        * apply lookup_insert_eq.
      + apply copy2_run.
        * by rewrite HnM2.
        * unfold M. rewrite node_at_app. fold M. by rewrite HM2.
        * intros Heq. apply (Hdx "output.md"). fold M0. rewrite Heq.
          apply under_app, under_refl.
        * unfold M. rewrite dirname_app. unfold P. by rewrite node_at_app.
    - rewrite bool_decide_eq_false_2 by (intros [? ?]; discriminate).
      exists false, fs2. by split. }
  rewrite (bind_run _ _ _ _ _ Hcopy).
  assert (I ≠ M) as HIM.
  { unfold I, M. intros Heq. apply app_inj_tail in Heq as [_ Heq]. congruence. }
  assert (∀ y, I ++ [y] ≠ M) as HIyM by (intros y; unfold I, M; by_length).
  assert (∀ y, fs3 !! (I ++ [y]) = None) as HIy3.
  { intros y. rewrite H3 by done. apply Hunder2.
    - unfold I. rewrite <- app_assoc. apply under_app, under_refl.
    - unfold I. by_length.
    - by_length. }
  assert (∀ x, fs3 !! (d ++ [x]) = fs !! (d ++ [x])) as Hsrc3.
  { intros x. rewrite H3.
    - apply H2, Hdx.
    - intros Heq. apply (Hdx x). rewrite Heq. apply under_app, under_refl. }
  destruct (copy_images_contents j d I fs3) as (fs4 & Hloop & H4 & HI4).
  { unfold I. rewrite node_at_app. fold I. by rewrite H3. }
  { intros img Hin. destruct (Himgs img Hin) as [Hne Hsrc]. split; [done|].
    rewrite (join_app d img Hne) in *. rewrite node_at_app in *. by rewrite Hsrc3. }
  { intros x y Heq. apply (Hdx x). rewrite Heq. unfold I. rewrite <- app_assoc.
    apply under_app, under_refl. }
  { intros y n Hy. by rewrite HIy3 in Hy. }
  rewrite (bind_run _ _ _ _ _ Hloop).
  assert (fs4 !! P = Some Dir) as HP4.
  { rewrite H4 by (intros y; unfold I; by_length).
    rewrite H3 by (unfold M; by_length). done. }
  assert (∀ q, ¬ under P q → fs4 !! q = fs !! q) as Hframe.
  { intros q Hq. rewrite H4, H3.
    - by apply H2.
    - intros ->. apply Hq, under_app, under_refl.
    - intros y ->. apply Hq. unfold I. rewrite <- app_assoc. apply under_app, under_refl. }
  assert (Z = OUTPUT_FOLDER ++ [(id +:+ "_package") +:+ ".zip"]) as HZ
    by apply package_zip_of_app.
  assert (¬ under P Z) as HZP by by apply under_None.
  assert (add_suffix P ".zip" = Z) as HaddP by (by rewrite HZ).
  set (members := archive_members fs4 P).
  assert (make_archive P P fs4
          = (inr (), <[Z := File (Zip members)]> fs4)) as Harch.
  { rewrite <- HaddP. apply make_archive_run.
    - unfold P. rewrite node_at_app. by fold P.
    - unfold P. rewrite dirname_app. simpl. rewrite Hframe; [done|].
      intros Hu%under_length. unfold P in Hu. rewrite length_app in Hu. simpl in Hu. lia.
    - rewrite HaddP, HZ, node_at_app, <- HZ. rewrite Hframe by done. done.
    - rewrite HaddP, HZ. unfold P. by rewrite !dirname_app. }
  rewrite (bind_run _ _ _ _ _ Harch).
  set (fs5 := <[Z := File (Zip members)]> fs4).
  assert (node_at fs5 P = Some Dir) as HP5.
  { unfold P. rewrite node_at_app. fold P. unfold fs5.
    rewrite lookup_insert_ne; [done|]. intros Heq. apply HZP. rewrite Heq. apply under_refl. }
  rewrite (bind_run _ _ _ _ _ (rmtree_run P fs5 HP5)).
  set (fs6 := filter (λ kv : path * node, below P kv.1 = None) fs5).
  assert (fs6 = <[Z := File (Zip members)]> fs) as Hfs6.
  { apply map_eq. intros q. unfold fs6. 
    rewrite (rmtree_ok P fs5 _ (rmtree_run P fs5 HP5) q).
    destruct (below P q) as [r|] eqn:Hq.
    - rewrite lookup_insert_ne by (intros <-; congruence).
      symmetry. apply Hfree. unfold under. eauto.
    - unfold fs5. destruct (decide (Z = q)) as [<-|Hne].
      + by rewrite !lookup_insert_eq.
      + rewrite !lookup_insert_ne by done. by apply Hframe, under_None. }
  exists members. split.
  - unfold send_file. rewrite Hfs6, ?HaddP, HZ, node_at_app, <- HZ, lookup_insert_eq. done.
  - intros [rel c]. unfold members, archive_members. rewrite list_elem_of_omap. split.
    + intros ([q n] & Hin & Hm). apply elem_of_map_to_list in Hin.
      unfold archive_member in Hm. cbn [fst snd] in Hm.
      destruct (below P q) as [[|x rest]|] eqn:Hq; [done| |done].
      apply below_Some in Hq as ->. injection Hm as <- <-.
      destruct (decide (x = "images")) as [->|Hx].
      * destruct rest as [|y [|z rest]].
        -- left. fold I in Hin. rewrite H4 in Hin by (intros y; by_length).
           rewrite H3, HI2 in Hin by done. by injection Hin as <-.
        -- right; right. change (P ++ ["images"; y]) with (P ++ ["images"] ++ [y]) in Hin.
           rewrite app_assoc in Hin. fold I in Hin. rewrite HI4, Hsrc3, HIy3 in Hin.
           destruct (fs !! (d ++ [y])) as [[|c]|] eqn:Hsy; [done| |done].
           destruct (decide (y ∈ default [] (images j))) as [Hy|Hy].
           ++ rewrite bool_decide_eq_true_2 in Hin by done. injection Hin as <-.
              exists y, c. split; [done|]. split; [|done].
              destruct (Himgs y Hy) as [Hne _]. by rewrite (join_app d y Hne), node_at_app.
           ++ by rewrite bool_decide_eq_false_2 in Hin.
        -- exfalso. rewrite H4 in Hin by (intros y'; unfold I; by_length).
           rewrite H3 in Hin by (unfold M; by_length).
           rewrite Hunder2 in Hin; [done| | |].
           ++ apply under_app, under_refl.
           ++ by_length.
           ++ unfold I. by_length.
      * assert (∀ y, P ++ x :: rest ≠ I ++ [y]) as HnI.
        { intros y. unfold I. rewrite <- app_assoc. intros Heq.
          apply app_inv_head in Heq. simpl in Heq. congruence. }
        rewrite H4 in Hin by done.
        destruct (decide (P ++ x :: rest = M)) as [Heq|HnM].
        -- rewrite Heq, HM3 in Hin. unfold M in Heq. apply app_inv_head in Heq.
           injection Heq as -> ->. right; left.
           destruct (fs !! M0) as [[|c]|] eqn:Hsm; [done| |done].
           injection Hin as <-. exists c. split; [|done].
           unfold M0. by rewrite node_at_app.
        -- exfalso. rewrite H3 in Hin by done.
           rewrite Hunder2 in Hin; [done| | |].
           ++ apply under_app, under_refl.
           ++ by_length.
           ++ unfold I. intros Heq. apply app_inv_head in Heq. congruence.
    + intros [[= -> ->]|[(c' & Hc & [= -> ->])|(img & c' & Hin & Hc & [= -> ->])]].
      * exists (I, Dir). split.
        -- apply elem_of_map_to_list. rewrite H4 by (intros y; by_length).
           by rewrite H3.
        -- unfold archive_member, I. cbn [fst snd]. by rewrite below_app.
      * exists (M, File c'). split.
        -- apply elem_of_map_to_list. rewrite H4 by (intros y; apply not_eq_sym, HIyM).
           rewrite HM3. unfold M0 in Hc. rewrite node_at_app in Hc. fold M0 in Hc.
           by rewrite Hc.
        -- unfold archive_member, M. cbn [fst snd]. by rewrite below_app.
      * destruct (Himgs img Hin) as [Hne _].
        rewrite (join_app d img Hne), node_at_app in Hc.
        exists (I ++ [img], File c'). split.
        -- apply elem_of_map_to_list. rewrite HI4, Hsrc3, Hc.
           by rewrite bool_decide_eq_true_2.
        -- unfold archive_member, I. cbn [fst snd]. by rewrite <- app_assoc, below_app.
Qed.

(** ** From submission to download *)

Section SubmissionToDownload.

Variable secure_filename : string → string.
Variable uuid4 : nat → string.
Variable now : nat → string.
Variable parse_pdf : kwargs → engine_result.

(** X18. A work item that an accepted submission handed to the pool
    belongs to one of the returned ids; the directory it passes to the
    engine is the directory [outputs/<job_id>] that the submission
    made. Run on the registry as the submission left it, the task raises
    nothing. When the engine returns, the job is completed with the
    images the engine returned and with that directory as its
    'output_dir', and the markdown download serves
    [outputs/<job_id>/output.md] once that file is there; when the
    engine raises, the job is failed with the text of the exception and
    the markdown download answers 'Job not completed'. *)
Theorem submitted_job_served (req : upload_request) (srv srv' : server)
    (ids : list string) (count : nat) (new : list task_args) (a : task_args) :
  upload_pdf secure_filename uuid4 now req srv = (UploadOk ids count, srv') →
  srv_submitted srv' = srv_submitted srv ++ new →
  a ∈ new →
  ta_job_id a ∈ ids ∧
  kw_output_dir (task_kwargs a) = join OUTPUT_FOLDER (ta_job_id a) ∧
  node_at (srv_fs srv') (join OUTPUT_FOLDER (ta_job_id a)) = Some Dir ∧
  ∃ j', process_pdf_task parse_pdf a (srv_reg srv')
          = (None, <[ta_job_id a := j']> (srv_reg srv')) ∧
        match parse_pdf (task_kwargs a) with
        | Returned _ image_paths =>
            status j' = Completed ∧ images j' = Some image_paths ∧
            output_dir j' = Some (join OUTPUT_FOLDER (ta_job_id a)) ∧
            ∀ fs c,
              node_at fs (join (join OUTPUT_FOLDER (ta_job_id a)) "output.md")
                = Some (File c) →
              download_markdown (<[ta_job_id a := j']> (srv_reg srv')) (ta_job_id a) fs
                = (inr (SendFile (join (join OUTPUT_FOLDER (ta_job_id a)) "output.md")
                                 "output.md"), fs)
        | Raised text =>
            status j' = Failed ∧ error j' = Some text ∧
            ∀ fs, download_markdown (<[ta_job_id a := j']> (srv_reg srv')) (ta_job_id a) fs
                  = (inr (Text "Job not completed" 400), fs)
        end.
Proof.
  intros Hup Hnew Ha.
  destruct (upload_pdf_ok_inv secure_filename uuid4 now req srv srv' ids count Hup)
    as (api_key & gw & _ & _ & Hsub & Hids & Hcount & _ & Hready).
  rewrite Hnew in Hsub. apply app_inv_head in Hsub. rewrite <- Hsub in Hready.
  rewrite Forall_forall in Hready.
  destruct (Hready a Ha) as ((j & Hj & _) & _ & Hdir).
  assert (ta_job_id a ∈ ids ∧ ta_output_dir a = join OUTPUT_FOLDER (ta_job_id a))
    as [Hin Hout].
  { rewrite Hsub in Ha. apply elem_of_lookup_imap in Ha as (i & f & -> & Hf).
    split; [|done]. rewrite Hids. apply list_elem_of_fmap.
    exists (srv_drawn srv + i)%nat. split; [done|].
    apply elem_of_seq. apply lookup_lt_Some in Hf. lia. }
  split; [done|]. split; [done|]. split; [by rewrite <- Hout|].
  destruct (process_pdf_task_writes parse_pdf a (srv_reg srv') j Hj) as [_ Hrun].
  eexists. split; [exact Hrun|].
  unfold task_writes.
  destruct (parse_pdf (task_kwargs a)) as [content image_paths|text].
  - split; [done|]. split; [done|]. split; [simpl; by rewrite Hout|].
    intros fs c Hc. unfold download_markdown. rewrite lookup_insert_eq.
    rewrite decide_True by done. unfold get_output_dir.
    change (output_dir _) with (Some (ta_output_dir a)). rewrite Hout.
    io_unfold. unfold path_exists. rewrite Hc.
    rewrite bool_decide_eq_true_2 by eauto. unfold send_file. by rewrite Hc.
  - split; [done|]. split; [done|].
    intros fs. unfold download_markdown. rewrite lookup_insert_eq.
    by rewrite decide_False.
Qed.

End SubmissionToDownload.

Lemma submitted_job_served_witness :
  "job-0" ∈ ["job-0"] ∧
  kw_output_dir (task_kwargs (task_for id Sample.uuid4 "sk-key" None "gpt-4o" 2 0
                                (UploadFile "paper.pdf" "%PDF-1.7")))
    = join OUTPUT_FOLDER "job-0" ∧
  node_at (srv_fs (upload_pdf id Sample.uuid4 Sample.now (Sample.request None)
                     Sample.fresh_server).2) (join OUTPUT_FOLDER "job-0") = Some Dir ∧
  ∃ j', process_pdf_task Sample.engine
          (task_for id Sample.uuid4 "sk-key" None "gpt-4o" 2 0
             (UploadFile "paper.pdf" "%PDF-1.7"))
          (srv_reg (upload_pdf id Sample.uuid4 Sample.now (Sample.request None)
                      Sample.fresh_server).2)
        = (None, <["job-0" := j']>
                   (srv_reg (upload_pdf id Sample.uuid4 Sample.now (Sample.request None)
                               Sample.fresh_server).2)) ∧
        status j' = Completed ∧ images j' = Some ["0_0.png"] ∧
        output_dir j' = Some (join OUTPUT_FOLDER "job-0") ∧
        ∀ fs c,
          node_at fs (join (join OUTPUT_FOLDER "job-0") "output.md") = Some (File c) →
          download_markdown
            (<["job-0" := j']>
               (srv_reg (upload_pdf id Sample.uuid4 Sample.now (Sample.request None)
                           Sample.fresh_server).2)) "job-0" fs
          = (inr (SendFile (join (join OUTPUT_FOLDER "job-0") "output.md") "output.md"), fs).
Proof.
  apply (submitted_job_served id Sample.uuid4 Sample.now Sample.engine
           (Sample.request None) Sample.fresh_server
           (upload_pdf id Sample.uuid4 Sample.now (Sample.request None) Sample.fresh_server).2
           ["job-0"] 1
           [task_for id Sample.uuid4 "sk-key" None "gpt-4o" 2 0
              (UploadFile "paper.pdf" "%PDF-1.7")]
           (task_for id Sample.uuid4 "sk-key" None "gpt-4o" 2 0
              (UploadFile "paper.pdf" "%PDF-1.7"))).
  - vm_compute. reflexivity.
  - vm_compute. reflexivity.
  - left.
Defined.

(** ** The further properties on the sample states *)

Lemma sample_reachable : pool_reachable Sample.engine Sample.pool3.
Proof.
  unfold pool_reachable.
  eapply rtc_l;
    [exact (step_submit Sample.engine ∅ [] [] (Sample.args "j1") "2024-05-01T10:00:00"
              (lookup_empty _))|].
  eapply rtc_l;
    [apply (step_start Sample.engine Sample.reg1 [] [] (Sample.args "j1"));
     unfold max_workers; simpl; lia|].
  eapply rtc_l; [|apply rtc_refl].
  apply (step_write Sample.engine Sample.reg1 Sample.reg2 [] [] [] "j1"
           (SetStatus Processing) (tail (task_writes Sample.engine (Sample.args "j1")))).
  reflexivity.
Defined.

Lemma jobs_accounted_for_witness :
  NoDup (task_ids Sample.pool3) ∧
  (("j1" ∈ ta_job_id <$> pool_queue Sample.pool3) ∧
   status (apply_write (SetStatus Processing) Sample.queued) = Queued ∨
   ("j1" ∈ rt_job <$> pool_running Sample.pool3) ∨
   ("j1" ∉ task_ids Sample.pool3) ∧
   terminal (status (apply_write (SetStatus Processing) Sample.queued)) = true).
Proof.
  apply (jobs_accounted_for Sample.engine Sample.pool3 "j1"
           (apply_write (SetStatus Processing) Sample.queued) sample_reachable).
  vm_compute. reflexivity.
Defined.

Lemma running_task_never_raises_witness :
  ∃ j, pool_reg Sample.pool3 !! "j1" = Some j ∧
       store "j1" (SetMessage "Converting PDF to Markdown...") (pool_reg Sample.pool3)
       = inr (<["j1" := apply_write (SetMessage "Converting PDF to Markdown...") j]>
                (pool_reg Sample.pool3)).
Proof.
  apply (running_task_never_raises Sample.engine Sample.pool3 "j1"
           (SetMessage "Converting PDF to Markdown...")
           (tail (tail (task_writes Sample.engine (Sample.args "j1")))) sample_reachable).
  left.
Defined.

Lemma running_task_can_finish_witness :
  ∃ σ', rtc (pool_step Sample.engine) Sample.pool3 σ' ∧
        (∃ j, pool_reg σ' !! "j1" = Some j ∧ terminal (status j) = true) ∧
        S (length (pool_running σ')) = length (pool_running Sample.pool3) ∧
        pool_queue σ' = pool_queue Sample.pool3.
Proof.
  apply (running_task_can_finish Sample.engine Sample.pool3
           (Running "j1" (tail (task_writes Sample.engine (Sample.args "j1"))))
           sample_reachable).
  left.
Defined.

Lemma sample_done_reachable : pool_reachable Sample.engine Sample.pool_done.
Proof.
  unfold pool_reachable.
  eapply rtc_l;
    [exact (step_submit Sample.engine ∅ [] [] (Sample.args "j1") "2024-05-01T10:00:00"
              (lookup_empty _))|].
  eapply rtc_l;
    [apply (step_start Sample.engine _ [] [] (Sample.args "j1"));
     unfold max_workers; simpl; lia|].
  do 13 (eapply rtc_l; [eapply (step_write Sample.engine _ _ _ [] []); reflexivity|]).
  eapply rtc_l; [apply (step_finish Sample.engine _ _ [] [])|].
  match goal with
  | |- rtc _ ?σ _ => replace σ with Sample.pool_done by (vm_compute; reflexivity)
  end.
  apply rtc_refl.
Qed.

Lemma sample_failed_reachable : pool_reachable Sample.failing Sample.pool_failed.
Proof.
  unfold pool_reachable.
  eapply rtc_l;
    [exact (step_submit Sample.failing ∅ [] [] (Sample.args "j1") "2024-05-01T10:00:00"
              (lookup_empty _))|].
  eapply rtc_l;
    [apply (step_start Sample.failing _ [] [] (Sample.args "j1"));
     unfold max_workers; simpl; lia|].
  do 10 (eapply rtc_l; [eapply (step_write Sample.failing _ _ _ [] []); reflexivity|]).
  eapply rtc_l; [apply (step_finish Sample.failing _ _ [] [])|].
  match goal with
  | |- rtc _ ?σ _ => replace σ with Sample.pool_failed by (vm_compute; reflexivity)
  end.
  apply rtc_refl.
Qed.

Lemma late_keys_follow_status_witness :
  (images Sample.done1 = Some ["0_0.png"] ∧
   output_dir Sample.done1 = Some ["outputs"; "j1"] ∧
   status Sample.done1 = Completed) ∧
  (error (foldl (λ r w, apply_write w r) Sample.queued
            (task_writes Sample.failing (Sample.args "j1"))) = Some "no pages" ∧
   status (foldl (λ r w, apply_write w r) Sample.queued
             (task_writes Sample.failing (Sample.args "j1"))) = Failed).
Proof.
  split.
  - destruct (late_keys_follow_status Sample.engine Sample.pool_done "j1" Sample.done1
                sample_done_reachable) as (_ & Himages & Hdir).
    + vm_compute. reflexivity.
    + split; [reflexivity|]. split; [reflexivity|]. apply Hdir. by eexists.
  - destruct (late_keys_follow_status Sample.failing Sample.pool_failed "j1"
                (foldl (λ r w, apply_write w r) Sample.queued
                   (task_writes Sample.failing (Sample.args "j1")))
                sample_failed_reachable) as (Herror & _).
    + vm_compute. reflexivity.
    + split; [reflexivity|]. apply Herror. by eexists.
Defined.

Lemma debug_jobs_entries_witness :
  (debug_jobs (pool_reg Sample.pool_done)).1 = 1%nat ∧
  (debug_jobs (pool_reg Sample.pool_done)).2 !! "j1"
    = Some (JobInfo Completed "paper.pdf" 100 true) ∧
  info_status (JobInfo Completed "paper.pdf" 100 true) = Completed.
Proof.
  destruct (debug_jobs_entries Sample.engine Sample.pool_done "j1" sample_done_reachable)
    as (Hcount & _ & Hentry).
  split; [rewrite Hcount; vm_compute; reflexivity|].
  assert ((debug_jobs (pool_reg Sample.pool_done)).2 !! "j1"
          = Some (JobInfo Completed "paper.pdf" 100 true)) as Hinfo
    by (vm_compute; reflexivity).
  split; [exact Hinfo|].
  destruct (Hentry _ Hinfo) as [_ Hdir]. apply Hdir. reflexivity.
Defined.

Lemma completed_before_output_dir_witness :
  ∃ σ j, pool_reachable Sample.engine σ ∧
         pool_reg σ !! "j1" = Some j ∧ status j = Completed ∧
         images j = None ∧ output_dir j = None ∧
         ∀ fs name,
           download_markdown (pool_reg σ) "j1" fs = (inl (KeyError "output_dir"), fs) ∧
           download_image (pool_reg σ) "j1" name fs = (inl (KeyError "output_dir"), fs) ∧
           download_package (pool_reg σ) "j1" fs = (inl (KeyError "output_dir"), fs).
Proof.
  apply (completed_before_output_dir Sample.engine (Sample.args "j1") "# Paper" ["0_0.png"]).
  reflexivity.
Defined.

Lemma upload_pdf_rejected_witness :
  ∃ error,
    upload_pdf id Sample.uuid4 Sample.now
      (UploadRequest [UploadFile "paper.pdf" "%PDF-1.7"] (Some "sk-key") None None
                     (Some Sample.separator_seven) None)
      Sample.fresh_server
    = (UploadError error, Sample.fresh_server).
Proof.
  apply (upload_pdf_rejected id Sample.uuid4 Sample.now
           (UploadRequest [UploadFile "paper.pdf" "%PDF-1.7"] (Some "sk-key") None None
                          (Some Sample.separator_seven) None)
           Sample.fresh_server).
  right; right; right; right; left. eexists. vm_compute. reflexivity.
Defined.

Lemma upload_pdf_accepted_witness :
  ∃ api_key gpt_worker,
    req_api_key (Sample.request None) = Some api_key ∧
    form_int (req_gpt_worker (Sample.request None)) 1 = inr gpt_worker ∧
    srv_submitted (upload_pdf id Sample.uuid4 Sample.now (Sample.request None)
                     Sample.fresh_server).2
      = srv_submitted Sample.fresh_server ++
        imap (λ i f, task_for id Sample.uuid4 api_key (req_base_url (Sample.request None))
                       (default "gpt-4o" (req_model (Sample.request None))) gpt_worker
                       (srv_drawn Sample.fresh_server + i) f)
             (named_files (req_pdfs (Sample.request None))) ∧
    ["job-0"] = Sample.uuid4 <$> seq (srv_drawn Sample.fresh_server) 1 ∧
    1%nat = length (named_files (req_pdfs (Sample.request None))) ∧
    srv_drawn (upload_pdf id Sample.uuid4 Sample.now (Sample.request None)
                 Sample.fresh_server).2
      = (srv_drawn Sample.fresh_server + 1)%nat.
Proof.
  apply (upload_pdf_accepted id Sample.uuid4 Sample.now (Sample.request None)
           Sample.fresh_server
           (upload_pdf id Sample.uuid4 Sample.now (Sample.request None) Sample.fresh_server).2
           ["job-0"] 1).
  vm_compute. reflexivity.
Defined.

Lemma sample_uuid4_inj (k k' : nat) : Sample.uuid4 k = Sample.uuid4 k' → k = k'.
Proof. unfold Sample.uuid4. intros [= H]. by apply (inj pretty). Qed.

Lemma upload_pdf_never_overwrites_witness :
  (∀ id' j, srv_reg Sample.fresh_server !! id' = Some j →
            srv_reg (upload_pdf id Sample.uuid4 Sample.now (Sample.request None)
                       Sample.fresh_server).2 !! id' = Some j) ∧
  (∀ ids count,
     (upload_pdf id Sample.uuid4 Sample.now (Sample.request None) Sample.fresh_server).1
       = UploadOk ids count →
     NoDup ids ∧
     size (srv_reg (upload_pdf id Sample.uuid4 Sample.now (Sample.request None)
                      Sample.fresh_server).2)
       = (size (srv_reg Sample.fresh_server) + count)%nat).
Proof.
  apply (upload_pdf_never_overwrites id Sample.uuid4 Sample.now (Sample.request None)
           Sample.fresh_server).
  - intros k _. apply lookup_empty.
  - intros k k' _ _. apply sample_uuid4_inj.
Defined.

Lemma upload_pdf_tasks_ready_witness :
  (∃ new,
     srv_submitted (upload_pdf_among id Sample.uuid4 Sample.now Sample.early_worker
                      (Sample.request None) Sample.fresh_server).2
       = srv_submitted Sample.fresh_server ++ new ∧
     Forall (task_handed (upload_pdf_among id Sample.uuid4 Sample.now Sample.early_worker
                            (Sample.request None) Sample.fresh_server).2) new) ∧
  status <$> srv_reg (upload_pdf_among id Sample.uuid4 Sample.now Sample.early_worker
                        (Sample.request None) Sample.fresh_server).2 !! "job-0"
    = Some Processing ∧
  (∃ new,
     srv_submitted (upload_pdf_among id Sample.uuid4 Sample.now []
                      (Sample.request None) Sample.fresh_server).2
       = srv_submitted Sample.fresh_server ++ new ∧
     Forall (task_ready (upload_pdf_among id Sample.uuid4 Sample.now []
                           (Sample.request None) Sample.fresh_server).2) new).
Proof.
  split; [|split].
  - destruct (upload_pdf_tasks_ready id Sample.uuid4 Sample.now Sample.early_worker
                (Sample.request None) Sample.fresh_server) as (new & Hsub & Hhanded & _).
    by exists new.
  - vm_compute. reflexivity.
  - destruct (upload_pdf_tasks_ready id Sample.uuid4 Sample.now []
                (Sample.request None) Sample.fresh_server) as (new & Hsub & _ & _ & Hready).
    exists new. split; [exact Hsub|]. apply Hready. reflexivity.
Defined.

Lemma status_after_upload_witness :
  (∃ jobs,
     get_batch_status
       (srv_reg (upload_pdf_among id Sample.uuid4 Sample.now Sample.early_worker
                   (Sample.request None) Sample.fresh_server).2) (Some ["job-0"])
       = JsonJobs jobs ∧
     job_id <$> jobs = ["job-0"]) ∧
  status <$> srv_reg (upload_pdf_among id Sample.uuid4 Sample.now Sample.early_worker
                        (Sample.request None) Sample.fresh_server).2 !! "job-0"
    = Some Processing ∧
  (∃ jobs,
     get_batch_status
       (srv_reg (upload_pdf_among id Sample.uuid4 Sample.now []
                   (Sample.request None) Sample.fresh_server).2) (Some ["job-0"])
       = JsonJobs jobs ∧
     job_id <$> jobs = ["job-0"] ∧
     Forall (λ j, status j = Queued ∧ progress j = 0) jobs).
Proof.
  split; [|split].
  - destruct (status_after_upload id Sample.uuid4 Sample.now Sample.early_worker
                (Sample.request None) Sample.fresh_server
                (upload_pdf_among id Sample.uuid4 Sample.now Sample.early_worker
                   (Sample.request None) Sample.fresh_server).2
                ["job-0"] 1) as (jobs & Hjobs & Hids & _).
    + vm_compute. reflexivity.
    + by exists jobs.
  - vm_compute. reflexivity.
  - destruct (status_after_upload id Sample.uuid4 Sample.now []
                (Sample.request None) Sample.fresh_server
                (upload_pdf_among id Sample.uuid4 Sample.now []
                   (Sample.request None) Sample.fresh_server).2
                ["job-0"] 1) as (jobs & Hjobs & Hids & Hqueued).
    + vm_compute. reflexivity.
    + exists jobs. split; [exact Hjobs|]. split; [exact Hids|]. apply Hqueued. reflexivity.
Defined.

Lemma download_all_no_jobs_witness :
  download_all_pdfs Sample.finished Sample.uuid (Some "") Sample.disk
    = (Text "No jobs specified" 400, Sample.disk) ∧
  ∀ text, (download_all_pdfs Sample.finished Sample.uuid (Some "j1") Sample.disk).1
          ≠ Text text 400.
Proof.
  split.
  - apply (proj1 (download_all_no_jobs Sample.finished Sample.uuid (Some "") Sample.disk)).
    reflexivity.
  - apply (proj2 (download_all_no_jobs Sample.finished Sample.uuid (Some "j1") Sample.disk)).
    discriminate.
Defined.

Lemma download_package_contents_witness :
  ∃ members,
    download_package Sample.finished "j1" Sample.disk
    = (inr (SendFile (package_zip_of "j1")
                     (PyStr.remove_all ".pdf" (filename Sample.done1) +:+ "_complete.zip")),
       <[package_zip_of "j1" := File (Zip members)]> Sample.disk) ∧
    ∀ m, m ∈ members ↔
      m = (["images"], None) ∨
      (∃ c, node_at Sample.disk (join ["outputs"; "j1"] "output.md") = Some (File c) ∧
            m = ([PyStr.remove_all ".pdf" (filename Sample.done1) +:+ ".md"], Some c)) ∨
      (∃ img c, img ∈ default [] (images Sample.done1) ∧
                node_at Sample.disk (join ["outputs"; "j1"] img) = Some (File c) ∧
                m = (["images"; img], Some c)).
Proof.
  apply (download_package_contents Sample.finished "j1" Sample.done1 ["outputs"; "j1"]
           Sample.disk).
  - vm_compute. reflexivity.
  - reflexivity.
  - reflexivity.
  - reflexivity.
  - apply no_entry_under. vm_compute. reflexivity.
  - vm_compute. discriminate.
  - split; reflexivity.
  - vm_compute. discriminate.
  - intros img Himg. apply list_elem_of_singleton in Himg as ->.
    split; [discriminate|vm_compute; discriminate].
Defined.
